(** * A Gopher crawler: the crawl engine of [gopher_client_08.py] and the
      earlier drafts it grew from, embedded shallowly.

    Python values are modelled as follows.
    - [bytes] objects are lists of [Byte.byte].
    - [str] objects are lists of Unicode code points ([N]).
    - [set]s are [gset]s, [dict]s are [gmap]s, [list]s are lists.
    - Sockets and the clock are an explicit environment: what the peer
      does on the n-th [recv], what the n-th [time.time()] returns, what
      a request or a probe yields.  Every call that reaches the network
      is recorded in a trace that the state carries along. *)

From Stdlib Require Import ZArith NArith QArith Lia Lqa.
From Stdlib Require Import Strings.String Strings.Byte Strings.Ascii.
From stdpp Require Import base option list gmap sets.

Local Open Scope N_scope.

(** ** Python primitives *)

Module Py.

Definition bytes := list byte.

#[global] Instance byte_eq_decision : EqDecision byte := Byte.byte_eq_dec.

Definition codepoint := N.
Definition str := list codepoint.

(** A [bytes] literal and a [str] literal whose characters are ASCII. *)
Definition b (s : string) : bytes := list_byte_of_string s.
Definition u (s : string) : str := map Byte.to_N (list_byte_of_string s).
Arguments b s%_string.
Arguments u s%_string.

Definition CR : byte := x0d.
Definition LF : byte := x0a.
Definition TAB : byte := x09.
Definition crlf : bytes := [CR; LF].

Definition between (lo hi n : N) : bool := (lo <=? n) && (n <=? hi).

(** [len(x)] as a Python integer. *)
Definition len {A} (l : list A) : N := N.of_nat (length l).

(** *** UTF-8 *)

Definition is_cont (c : byte) : bool := between 0x80 0xBF (Byte.to_N c).

(** Range of the second byte after a three-byte lead: [E0] excludes the
    overlong forms, [ED] the surrogates. *)
Definition second_of_3 (lead : N) (c : byte) : bool :=
  let n := Byte.to_N c in
  if lead =? 0xE0 then between 0xA0 0xBF n
  else if lead =? 0xED then between 0x80 0x9F n
  else between 0x80 0xBF n.

(** Range of the second byte after a four-byte lead: [F0] excludes the
    overlong forms, [F4] everything above U+10FFFF. *)
Definition second_of_4 (lead : N) (c : byte) : bool :=
  let n := Byte.to_N c in
  if lead =? 0xF0 then between 0x90 0xBF n
  else if lead =? 0xF4 then between 0x80 0x8F n
  else between 0x80 0xBF n.

Definition low6 (c : byte) : N := N.land (Byte.to_N c) 0x3F.

Definition cp2 (n0 : N) (c1 : byte) : N :=
  N.lor (N.shiftl (N.land n0 0x1F) 6) (low6 c1).
Definition cp3 (n0 : N) (c1 c2 : byte) : N :=
  N.lor (N.shiftl (N.land n0 0x0F) 12) (N.lor (N.shiftl (low6 c1) 6) (low6 c2)).
Definition cp4 (n0 : N) (c1 c2 c3 : byte) : N :=
  N.lor (N.shiftl (N.land n0 0x07) 18)
        (N.lor (N.shiftl (low6 c1) 12) (N.lor (N.shiftl (low6 c2) 6) (low6 c3))).

(** The UTF-8 decoder of CPython, one entry per decoded unit: [Some cp]
    for a well-formed sequence, [None] for a maximal ill-formed
    subsequence (the decoder resumes at the first offending byte; an
    incomplete sequence at the end of the input is one error). *)
Fixpoint utf8_scan (l : bytes) : list (option codepoint) :=
  match l with
  | [] => []
  | c0 :: t0 =>
    let n0 := Byte.to_N c0 in
    if n0 <? 0x80 then Some n0 :: utf8_scan t0
    else if between 0xC2 0xDF n0 then
      match t0 with
      | [] => [None]
      | c1 :: t1 =>
        if is_cont c1 then Some (cp2 n0 c1) :: utf8_scan t1
        else None :: utf8_scan t0
      end
    else if between 0xE0 0xEF n0 then
      match t0 with
      | [] => [None]
      | c1 :: t1 =>
        if second_of_3 n0 c1 then
          match t1 with
          | [] => [None]
          | c2 :: t2 =>
            if is_cont c2 then Some (cp3 n0 c1 c2) :: utf8_scan t2
            else None :: utf8_scan t1
          end
        else None :: utf8_scan t0
      end
    else if between 0xF0 0xF4 n0 then
      match t0 with
      | [] => [None]
      | c1 :: t1 =>
        if second_of_4 n0 c1 then
          match t1 with
          | [] => [None]
          | c2 :: t2 =>
            if is_cont c2 then
              match t2 with
              | [] => [None]
              | c3 :: t3 =>
                if is_cont c3 then Some (cp4 n0 c1 c2 c3) :: utf8_scan t3
                else None :: utf8_scan t2
              end
            else None :: utf8_scan t1
          end
        else None :: utf8_scan t0
      end
    else None :: utf8_scan t0
  end.

(** [data.decode('utf-8', errors='strict')]: [None] is UnicodeDecodeError. *)
Fixpoint all_decoded (l : list (option codepoint)) : option str :=
  match l with
  | [] => Some []
  | Some c :: r =>
    match all_decoded r with Some s => Some (c :: s) | None => None end
  | None :: _ => None
  end.

Definition decode_utf8_strict (data : bytes) : option str :=
  all_decoded (utf8_scan data).

(** [data.decode('utf-8', errors='replace')]: every error becomes U+FFFD. *)
Definition decode_utf8_replace (data : bytes) : str :=
  map (fun o => match o with Some c => c | None => 0xFFFD end) (utf8_scan data).

(** [data.decode('latin-1', ...)]: one code point per byte, never fails. *)
Definition decode_latin1 (data : bytes) : str := map Byte.to_N data.

(** *** Character classes *)

(** [c.isspace()]: the code points CPython treats as whitespace. *)
Definition isspace (c : codepoint) : bool :=
  between 0x09 0x0D c || between 0x1C 0x20 c || (c =? 0x85) || (c =? 0xA0)
  || (c =? 0x1680) || between 0x2000 0x200A c || (c =? 0x2028) || (c =? 0x2029)
  || (c =? 0x202F) || (c =? 0x205F) || (c =? 0x3000).

(** [c.isprintable()] on the code points below 256, the only ones a
    latin-1 decoding yields: everything but the control characters
    (categories Cc and Cf) and the no-break space (Zs). *)
Definition isprintable_latin1 (c : codepoint) : bool :=
  between 0x20 0x7E c || between 0xA1 0xAC c || between 0xAE 0xFF c.

(** *** Slicing, searching and splitting *)

(** [data[:n] == prefix] for a [prefix] of length [n]. *)
Fixpoint starts_with {A} `{EqDecision A} (prefix l : list A) : bool :=
  match prefix, l with
  | [], _ => true
  | p :: ps, x :: xs => bool_decide (p = x) && starts_with ps xs
  | _ :: _, [] => false
  end.

(** [s.endswith('/')] and the like, for a one-character suffix. *)
Definition ends_with_char (c : codepoint) (s : str) : bool :=
  match last s with Some d => d =? c | None => false end.

(** [needle in hay] on strings. *)
Fixpoint contains (needle hay : str) : bool :=
  starts_with needle hay ||
  match hay with
  | [] => false
  | _ :: r => contains needle r
  end.

Definition cons_to_first {A} (c : A) (ls : list (list A)) : list (list A) :=
  match ls with
  | [] => [[c]]
  | l :: r => (c :: l) :: r
  end.

(** [s.split('\r\n')]: always at least one piece. *)
Fixpoint split_crlf (s : str) : list str :=
  match s with
  | [] => [[]]
  | c :: r =>
    match r with
    | d :: r' =>
      if (c =? 13) && (d =? 10) then [] :: split_crlf r'
      else cons_to_first c (split_crlf r)
    | [] => cons_to_first c (split_crlf r)
    end
  end.

(** [s.split(sep)] for a one-character separator. *)
Fixpoint split_char (sep : codepoint) (s : str) : list str :=
  match s with
  | [] => [[]]
  | c :: r =>
    if c =? sep then [] :: split_char sep r
    else cons_to_first c (split_char sep r)
  end.

(** [s.split('\t')] *)
Definition split_tab (s : str) : list str := split_char 9 s.

(** [s.strip()]: whitespace removed at both ends. *)
Fixpoint lstrip (s : str) : str :=
  match s with
  | [] => []
  | c :: r => if isspace c then lstrip r else s
  end.

Definition strip (s : str) : str := rev (lstrip (rev (lstrip s))).

End Py.

(** ** The Classifier: [is_text_file] of gopher_client_08.py *)

Module Classifier.
Import Py.

Definition sample_size : nat := 4096.

(** [printable_chars / len(sample) > 0.8].  Both operands are integers
    no larger than 4096, so the correctly rounded quotient lies above
    the double nearest to 0.8 exactly when [5 * printable > 4 * len]. *)
Definition ratio_above_0_8 (printable total : N) : bool :=
  4 * total <? 5 * printable.

Definition printable_or_space (c : codepoint) : bool :=
  isprintable_latin1 c || isspace c.

Definition printable_chars (text : str) : N :=
  len (filter (fun c => printable_or_space c = true) text).

Definition mostly_printable (sample : bytes) : bool :=
  (0 <? len sample)
  && ratio_above_0_8 (printable_chars (decode_latin1 sample)) (len sample).

Definition PK : bytes := b "PK".
Definition PNG : bytes := x89 :: b "PNG".
Definition GIF : bytes := b "GIF".
Definition BM : bytes := b "BM".
Definition JPEG : bytes := [xff; xd8; xff; xe0].
Definition PDF : bytes := b "%PDF-".

Definition has_signature (data : bytes) : bool :=
  starts_with PK data || starts_with PNG data || starts_with GIF data
  || starts_with BM data || starts_with JPEG data || starts_with PDF data.

Definition is_text_file (data : bytes) : bool :=
  match data with
  | [] => false
  | _ :: _ =>
    let sample := take sample_size data in
    match decode_utf8_strict sample with
    | Some _ => true
    | None =>
      if mostly_printable sample then true
      else if has_signature data then false
      else true
    end
  end.

End Classifier.

(** ** The Menu Parser *)

Module Parser.
Import Py.

(** One dictionary appended to [items]. *)
Record item := Item {
  type : codepoint;
  display : str;
  selector : str;
  host : str;
  port : Z
}.

#[global] Instance item_eq_decision : EqDecision item.
Proof. solve_decision. Defined.

Definition DEFAULT_PORT : Z := 70.

Section Menu.
(** [int(s)] on a string: [Some n] when Python returns [n], [None] when
    it raises ValueError.  Python accepts surrounding whitespace, a
    sign, underscores and every Unicode decimal digit; that table is
    not part of the repository, so the conversion is a parameter. *)
Variable py_int : str -> option Z.

(** *** [parse_gopher_menu] of gopher_client_08.py *)

Definition parse_port (field : str) : Z :=
  match py_int field with
  | Some p => if ((p <=? 0) || (65535 <? p))%Z then 70%Z else p
  | None => 70%Z
  end.

(** The body of the [for line in lines] loop: [Some it] when the line
    appends [it] to [items], [None] when it appends nothing. *)
Definition parse_line (line : str) : option item :=
  match line with
  | [] => None
  | item_type :: rest =>
    if bool_decide (line = u ".") then None
    else
      match split_tab rest with
      | display_string :: sel :: h :: port_field :: _ =>
        Some (Item item_type display_string sel h (parse_port port_field))
      | _ => None
      end
  end.

Fixpoint parse_lines (lines : list str) : list item :=
  match lines with
  | [] => []
  | line :: more =>
    match parse_line line with
    | Some it => it :: parse_lines more
    | None => parse_lines more
    end
  end.

(** Decoding with [errors='replace'] never raises, so the latin-1
    fallback and the empty-list fallback of the source are dead. *)
Definition parse_gopher_menu (menu_data : bytes) : list item :=
  parse_lines (split_crlf (decode_utf8_replace menu_data)).

(** *** [parse_gopher_line] of gopher_client_03.py *)

Definition pad4 (parts : list str) : list str :=
  if (length parts <? 4)%nat then parts ++ replicate (4 - length parts)%nat []
  else parts.

Definition parse_gopher_line (line : str) : option item :=
  match line with
  | [] => None
  | item_type :: rest =>
    if item_type =? 46 then None
    else
      match pad4 (split_tab rest) with
      | display_string :: sel :: h :: port_field :: _ =>
        match strip port_field with
        | [] => Some (Item item_type display_string sel h DEFAULT_PORT)
        | _ :: _ =>
          match py_int port_field with
          | Some p => Some (Item item_type display_string sel h p)
          | None => None
          end
        end
      | _ => None
      end
  end.
End Menu.

(** [int(s)] restricted to what a well-formed menu carries: a non-empty
    run of ASCII digits.  It agrees with Python on such strings and is
    used to run the parser on concrete menus. *)
Definition ascii_digit (c : codepoint) : bool := between 48 57 c.

Definition ascii_int (s : str) : option Z :=
  match s with
  | [] => None
  | _ :: _ =>
    if forallb ascii_digit s
    then Some (fold_left (fun acc c => (10 * acc + Z.of_N (c - 48))%Z) s 0%Z)
    else None
  end.

End Parser.

(** ** The Transport *)

Module Transport.
Import Py.

Local Open Scope Q_scope.

(** What one [s.recv(4096)] does: it returns a chunk (the empty chunk
    when the peer has closed), raises [socket.timeout], or raises
    another socket error. *)
Inductive recv_result :=
| Data (chunk : bytes)
| RecvTimeout
| RecvError.

Inductive connect_result := Connected | ConnectTimeout | ConnectError.

(** The environment of one request.  [recv i] is the outcome of the
    i-th call of [s.recv]; [clock 0] is the value [start_time] takes and
    [clock (S i)] the reading at the top of the i-th iteration. *)
Record peer := Peer {
  connecting : connect_result;
  send_ok : bool;
  recv : nat -> recv_result;
  clock : nat -> Q
}.

(** Why the receive loop was left.  The source returns [data] alone;
    the reason is kept here only to state properties about it. *)
Inductive exit_reason :=
| PeerClosed
| SizeExceeded
| TimeExceeded
| IdleTimeout
| SocketFailure.

Definition Qgt_bool (x y : Q) : bool := negb (Qle_bool x y).

Section Request.
Variable timeout : Q.
Variable max_data_size : N.
Variable max_time : Q.
Variable p : peer.

(** [send_gopher_request] of gopher_client_08.py, the [while True]
    loop; [None] when the fuel runs out before the loop is left. *)
Fixpoint recv_loop (fuel i : nat) (data : bytes)
         (start_time last_progress_time : Q) : option (exit_reason * bytes) :=
  match fuel with
  | O => None
  | S fuel' =>
    if (max_data_size <? len data)%N then Some (SizeExceeded, data)
    else
      let current_time := clock p (S i) in
      if Qgt_bool (current_time - start_time) max_time
      then Some (TimeExceeded, data)
      else
        match recv p i with
        | Data [] => Some (PeerClosed, data)
        | Data chunk =>
          recv_loop fuel' (S i) (data ++ chunk) start_time current_time
        | RecvTimeout =>
          if Qgt_bool (current_time - last_progress_time) timeout
          then Some (IdleTimeout, data)
          else recv_loop fuel' (S i) data start_time last_progress_time
        | RecvError => Some (SocketFailure, [])
        end
  end.

(** The whole request with the reason attached. *)
Definition request_outcome (fuel : nat) : option (exit_reason * bytes) :=
  match connecting p with
  | Connected =>
    if send_ok p then recv_loop fuel 0 [] (clock p 0) (clock p 0)
    else Some (SocketFailure, [])
  | ConnectTimeout | ConnectError => Some (SocketFailure, [])
  end.

(** What the Python function returns: the bytes. *)
Definition send_gopher_request (fuel : nat) : option bytes :=
  match request_outcome fuel with
  | Some (_, data) => Some data
  | None => None
  end.

(** [send_gopher_request] of gopher_client_05.py: no timeout is set on
    the socket and the loop has no limit: a receive that brings
    nothing keeps blocking.  An exception leaves the function
    ([inr tt]). *)
Fixpoint recv_loop_05 (fuel i : nat) (data : bytes) : option (bytes + unit) :=
  match fuel with
  | O => None
  | S fuel' =>
    match recv p i with
    | Data [] => Some (inl data)
    | Data chunk => recv_loop_05 fuel' (S i) (data ++ chunk)
    | RecvTimeout => recv_loop_05 fuel' (S i) data
    | RecvError => Some (inr tt)
    end
  end.

Definition send_gopher_request_05 (fuel : nat) : option (bytes + unit) :=
  match connecting p with
  | Connected => if send_ok p then recv_loop_05 fuel 0 [] else Some (inr tt)
  | ConnectTimeout | ConnectError => Some (inr tt)
  end.

(** The bytes the peer has delivered in its first [n] receives. *)
Fixpoint received (n : nat) : bytes :=
  match n with
  | O => []
  | S m =>
    received m ++ match recv p m with Data chunk => chunk | _ => [] end
  end.

(** The peer never closes and the socket never fails: every receive
    brings at least one byte or times out. *)
Definition never_closes : Prop :=
  forall i, recv p i = RecvTimeout \/ exists c chunk, recv p i = Data (c :: chunk).

(** The clock does not run backwards, and a receive that times out has
    lasted at least [timeout]. *)
Definition clock_advances : Prop :=
  (forall i, clock p i <= clock p (S i)) /\
  (forall i, recv p i = RecvTimeout -> clock p (S i) + timeout <= clock p (S (S i))).

(** The value of [last_progress_time] at the top of iteration [i]: the
    reading of the clock in the last iteration that brought bytes, or
    [start_time]. *)
Fixpoint last_progress (i : nat) : Q :=
  match i with
  | O => clock p 0
  | S j =>
    match recv p j with
    | Data _ => clock p (S j)
    | _ => last_progress j
    end
  end.

(** Neither of the two tests at the top of iteration [i] trips. *)
Definition within_limits (i : nat) : Prop :=
  (len (received i) <= max_data_size)%N
  /\ clock p (S i) - clock p 0 <= max_time.

(** Iteration [i] does not leave the loop: the limits hold, and the
    receive brings bytes, or times out with the idle time still within
    [timeout]. *)
Definition keeps_receiving (i : nat) : Prop :=
  within_limits i
  /\ ((exists c chunk, recv p i = Data (c :: chunk))
      \/ (recv p i = RecvTimeout /\ clock p (S i) - last_progress i <= timeout)).

(** Iteration [n] leaves the loop, for the given reason. *)
Definition left_by (reason : exit_reason) (n : nat) : Prop :=
  match reason with
  | SizeExceeded => (max_data_size < len (received n))%N
  | TimeExceeded =>
    (len (received n) <= max_data_size)%N
    /\ max_time < clock p (S n) - clock p 0
  | PeerClosed => within_limits n /\ recv p n = Data []
  | IdleTimeout =>
    within_limits n /\ recv p n = RecvTimeout
    /\ timeout < clock p (S n) - last_progress n
  | SocketFailure => within_limits n /\ recv p n = RecvError
  end.
End Request.

(** A natural number as a rational. *)
Definition Qnat (k : nat) : Q := inject_Z (Z.of_nat k).

End Transport.

(** ** The External Server Prober *)

Module Prober.
Import Py.

(** [any(c < ' ' or c > '~' for c in host)] *)
Definition has_invalid_char (host : str) : bool :=
  existsb (fun c => (c <? 32) || (126 <? c)) host.

(** [check_external_server] of gopher_client_08.py.  [connect h p] tells
    whether [test_socket.connect((h, p))] succeeds.  The result comes
    with the connection attempts made: none or one. *)
Definition check_external_server (connect : str -> Z -> bool)
           (host : str) (port : Z) : bool * list (str * Z) :=
  match strip host with
  | [] => (false, [])
  | _ :: _ =>
    let host := strip host in
    if has_invalid_char host then (false, [])
    else (connect host port, [(host, port)])
  end.

(** The filter of the report, section i: entries whose host has a
    character above 127 are skipped. *)
Definition reported (host : str) : bool :=
  negb (existsb (fun c => 127 <? c) host).

End Prober.

(** ** The Crawl Engine: the loop of [main] in gopher_client_08.py *)

Module Crawl.
Import Py Parser.

(** Calls that reach the network, each with what it brought back: a
    request of the Transport with the bytes returned and the duration
    [main] measured, a connection attempt of the Prober, and a call of
    [check_external_server] with its result. *)
Inductive event :=
| Request (host : str) (port : Z) (selector : str) (response : bytes) (duration : Q)
| ProbeConnect (host : str) (port : Z) (connected : bool)
| ProbeCall (host : str) (port : Z) (is_up : bool).

(** The environment of a crawl.  Both answers may depend on everything
    that happened before.  [request tr h p s] is the value returned by
    [send_gopher_request(h, p, s, ...)] together with the duration
    [main] measures around the call, in seconds. *)
Record world := World {
  request : list event -> str -> Z -> str -> bytes * Q;
  connect : list event -> str -> Z -> bool
}.

(** The local variables of [main] that the loop reads and writes, and
    the trace of network calls made so far (latest first). *)
Record state := State {
  visited_selectors : gset str;
  directories : list str;
  text_files : list str;
  binary_files : list str;
  invalid_references : gset str;
  external_servers : gmap (str * Z) bool;
  problematic_resources : gset str;
  text_file_contents : gmap str bytes;
  file_sizes : gmap str N;
  download_times : gmap str Q;
  selectors_to_visit : list (str * str * Z);
  processed_count : N;
  trace : list event
}.

(** Field updates. *)
Definition with_visited_selectors (f : gset str -> gset str)
           (st : state) : state :=
  State (f (visited_selectors st)) (directories st) (text_files st)
    (binary_files st) (invalid_references st) (external_servers st)
    (problematic_resources st) (text_file_contents st) (file_sizes st)
    (download_times st) (selectors_to_visit st) (processed_count st)
    (trace st).
Definition with_directories (f : list str -> list str)
           (st : state) : state :=
  State (visited_selectors st) (f (directories st)) (text_files st)
    (binary_files st) (invalid_references st) (external_servers st)
    (problematic_resources st) (text_file_contents st) (file_sizes st)
    (download_times st) (selectors_to_visit st) (processed_count st)
    (trace st).
Definition with_text_files (f : list str -> list str)
           (st : state) : state :=
  State (visited_selectors st) (directories st) (f (text_files st))
    (binary_files st) (invalid_references st) (external_servers st)
    (problematic_resources st) (text_file_contents st) (file_sizes st)
    (download_times st) (selectors_to_visit st) (processed_count st)
    (trace st).
Definition with_binary_files (f : list str -> list str)
           (st : state) : state :=
  State (visited_selectors st) (directories st) (text_files st) (f
    (binary_files st)) (invalid_references st) (external_servers st)
    (problematic_resources st) (text_file_contents st) (file_sizes st)
    (download_times st) (selectors_to_visit st) (processed_count st)
    (trace st).
Definition with_invalid_references (f : gset str -> gset str)
           (st : state) : state :=
  State (visited_selectors st) (directories st) (text_files st)
    (binary_files st) (f (invalid_references st)) (external_servers st)
    (problematic_resources st) (text_file_contents st) (file_sizes st)
    (download_times st) (selectors_to_visit st) (processed_count st)
    (trace st).
Definition with_external_servers (f : gmap (str * Z) bool -> gmap (str * Z) bool)
           (st : state) : state :=
  State (visited_selectors st) (directories st) (text_files st)
    (binary_files st) (invalid_references st) (f (external_servers st))
    (problematic_resources st) (text_file_contents st) (file_sizes st)
    (download_times st) (selectors_to_visit st) (processed_count st)
    (trace st).
Definition with_problematic_resources (f : gset str -> gset str)
           (st : state) : state :=
  State (visited_selectors st) (directories st) (text_files st)
    (binary_files st) (invalid_references st) (external_servers st) (f
    (problematic_resources st)) (text_file_contents st) (file_sizes st)
    (download_times st) (selectors_to_visit st) (processed_count st)
    (trace st).
Definition with_text_file_contents (f : gmap str bytes -> gmap str bytes)
           (st : state) : state :=
  State (visited_selectors st) (directories st) (text_files st)
    (binary_files st) (invalid_references st) (external_servers st)
    (problematic_resources st) (f (text_file_contents st)) (file_sizes st)
    (download_times st) (selectors_to_visit st) (processed_count st)
    (trace st).
Definition with_file_sizes (f : gmap str N -> gmap str N)
           (st : state) : state :=
  State (visited_selectors st) (directories st) (text_files st)
    (binary_files st) (invalid_references st) (external_servers st)
    (problematic_resources st) (text_file_contents st) (f (file_sizes st))
    (download_times st) (selectors_to_visit st) (processed_count st)
    (trace st).
Definition with_download_times (f : gmap str Q -> gmap str Q)
           (st : state) : state :=
  State (visited_selectors st) (directories st) (text_files st)
    (binary_files st) (invalid_references st) (external_servers st)
    (problematic_resources st) (text_file_contents st) (file_sizes st) (f
    (download_times st)) (selectors_to_visit st) (processed_count st)
    (trace st).
Definition with_selectors_to_visit (f : list (str * str * Z) -> list (str * str * Z))
           (st : state) : state :=
  State (visited_selectors st) (directories st) (text_files st)
    (binary_files st) (invalid_references st) (external_servers st)
    (problematic_resources st) (text_file_contents st) (file_sizes st)
    (download_times st) (f (selectors_to_visit st)) (processed_count st)
    (trace st).
Definition with_processed_count (f : N -> N)
           (st : state) : state :=
  State (visited_selectors st) (directories st) (text_files st)
    (binary_files st) (invalid_references st) (external_servers st)
    (problematic_resources st) (text_file_contents st) (file_sizes st)
    (download_times st) (selectors_to_visit st) (f (processed_count st))
    (trace st).
Definition with_trace (f : list event -> list event)
           (st : state) : state :=
  State (visited_selectors st) (directories st) (text_files st)
    (binary_files st) (invalid_references st) (external_servers st)
    (problematic_resources st) (text_file_contents st) (file_sizes st)
    (download_times st) (selectors_to_visit st) (processed_count st) (f
    (trace st)).

Definition max_queue_size : nat := 1000.
Definition max_items : N := 5000.

Definition initial (host : str) (port : Z) : state :=
  State ∅ [] [] [] ∅ ∅ ∅ ∅ ∅ ∅ [([], host, port)] 0 [].

(** [x in l] for a list or a set, as a boolean. *)
Definition mem {A C} `{ElemOf A C} `{∀ (x : A) (X : C), Decision (x ∈ X)}
           (x : A) (X : C) : bool := bool_decide (x ∈ X).

Section Engine.
(** [s.lower()]: the Unicode case mapping is not part of the
    repository, so it is a parameter, as is [int(s)]. *)
Variable py_lower : str -> str.
Variable py_int : str -> option Z.
Variable w : world.

Definition is_same_server (host1 : str) (port1 : Z) (host2 : str) (port2 : Z) : bool :=
  bool_decide (py_lower (strip host1) = py_lower (strip host2))
  && bool_decide (port1 = port2).

Definition problem_keywords : list str := [u "firehose"; u "tarpit"; u "godot"].

Definition is_problematic_resource (sel : str) (file_size : N) (download_time : Q) : bool :=
  if existsb (fun keyword => contains keyword (py_lower sel)) problem_keywords then true
  else if (1024 * 1024 <? file_size) && Transport.Qgt_bool download_time 15 then true
  else if Qle_bool 25 download_time then true
  else false.

Definition push (sel host : str) (port : Z) : state -> state :=
  with_selectors_to_visit (fun q => q ++ [(sel, host, port)]).

(** The body of [for item in menu_items]. *)
Definition process_item (current_host : str) (current_port : Z)
           (st : state) (it : item) : state :=
  let item_type := type it in
  let item_selector := selector it in
  let item_host := host it in
  let item_port := port it in
  if 255 <? len item_selector then st
  else if negb (is_same_server current_host current_port item_host item_port) then
    let server_key := (item_host, item_port) in
    match external_servers st !! server_key with
    | Some _ => st
    | None =>
      let '(is_up, attempts) :=
        Prober.check_external_server (connect w (trace st)) item_host item_port in
      with_external_servers (insert server_key is_up)
        (with_trace
           (fun tr => ProbeCall item_host item_port is_up
                      :: map (fun a => ProbeConnect a.1 a.2 is_up) attempts ++ tr)
           st)
    end
  else if item_type =? 49 then push item_selector item_host item_port st
  else if item_type =? 48 then
    if negb (mem item_selector (text_files st))
       && negb (mem item_selector (binary_files st))
    then push item_selector item_host item_port
           (with_text_files (fun l => l ++ [item_selector]) st)
    else st
  else if item_type =? 51 then
    with_invalid_references (union {[item_selector]}) st
  else if negb (item_type =? 105) then
    if negb (mem item_selector (binary_files st))
       && negb (mem item_selector (text_files st))
    then push item_selector item_host item_port
           (with_binary_files (fun l => l ++ [item_selector]) st)
    else st
  else st.

(** The [else] branch of [if is_directory]: the response is a file. *)
Definition process_file (sel : str) (response : bytes) (st : state) : state :=
  let file_size := len response in
  let st := with_file_sizes (insert sel file_size) st in
  if Classifier.is_text_file response then
    if negb (mem sel (binary_files st)) then
      let st :=
        if negb (mem sel (text_files st))
        then with_text_files (fun l => l ++ [sel]) st else st in
      if file_size <? 1024 * 1024
      then with_text_file_contents (insert sel response) st
      else st
    else st
  else
    if negb (mem sel (text_files st)) then
      if negb (mem sel (binary_files st))
      then with_binary_files (fun l => l ++ [sel]) st else st
    else st.

(** What follows [visited_selectors.add(selector)] in one iteration. *)
Definition dispatch (sel current_host : str) (current_port : Z) (st : state) : state :=
  let '(response, request_duration) :=
    request w (trace st) current_host current_port sel in
  let st :=
    with_trace
      (cons (Request current_host current_port sel response request_duration)) st in
  let st := with_download_times (insert sel request_duration) st in
  match response with
  | [] => with_invalid_references (union {[sel]}) st
  | _ :: _ =>
    let st :=
      if is_problematic_resource sel (len response) request_duration
      then with_problematic_resources (union {[sel]}) st else st in
    let menu_items := parse_gopher_menu py_int response in
    let is_directory :=
      match menu_items with
      | _ :: _ => true
      | [] => bool_decide (sel = []) || ends_with_char 47 sel
      end in
    if is_directory then
      let st :=
        if negb (mem sel (directories st))
        then with_directories (fun l => l ++ [sel]) st else st in
      fold_left (process_item current_host current_port) menu_items st
    else process_file sel response st
  end.

(** [while selectors_to_visit and processed_count < max_items] *)
Definition running (st : state) : bool :=
  match selectors_to_visit st with
  | [] => false
  | _ :: _ => processed_count st <? max_items
  end.

(** One iteration of the loop, entered with [running st = true]. *)
Definition step (st : state) : state :=
  let queue :=
    if (max_queue_size <? length (selectors_to_visit st))%nat
    then take max_queue_size (selectors_to_visit st)
    else selectors_to_visit st in
  match queue with
  | [] => st
  | (sel, current_host, current_port) :: rest =>
    let st := with_selectors_to_visit (fun _ => rest) st in
    let st := with_processed_count (fun n => n + 1) st in
    if mem sel (visited_selectors st) then st
    else
      dispatch sel current_host current_port
        (with_visited_selectors (union {[sel]}) st)
  end.

(** The state after at most [n] iterations. *)
Fixpoint iterate (n : nat) (st : state) : state :=
  match n with
  | O => st
  | S m => if running st then iterate m (step st) else st
  end.

(** The loop itself; [None] when the fuel runs out first. *)
Fixpoint crawl_loop (fuel : nat) (st : state) : option state :=
  if running st then
    match fuel with
    | O => None
    | S fuel' => crawl_loop fuel' (step st)
    end
  else Some st.

Definition crawl (fuel : nat) (host : str) (port : Z) : option state :=
  crawl_loop fuel (initial host port).
End Engine.

(** *** What the trace says *)

(** The selectors the Transport was called with, latest first. *)
Definition requested (tr : list event) : list str :=
  omap (fun e => match e with Request _ _ sel _ _ => Some sel | _ => None end) tr.

(** The calls of [check_external_server]: key and result. *)
Definition probe_calls (tr : list event) : list (str * Z * bool) :=
  omap (fun e => match e with ProbeCall h p up => Some (h, p, up) | _ => None end) tr.

(** The connection attempts of the Prober: address and outcome. *)
Definition probe_connects (tr : list event) : list (str * Z * bool) :=
  omap (fun e => match e with ProbeConnect h p ok => Some (h, p, ok) | _ => None end) tr.

(** Whether [check_external_server] gets as far as connecting. *)
Definition probe_allowed (host : str) : bool :=
  match strip host with
  | [] => false
  | _ :: _ => negb (Prober.has_invalid_char (strip host))
  end.

(** No selector is in both lists. *)
Definition files_disjoint (st : state) : Prop :=
  forall sel, sel ∈ text_files st -> sel ∈ binary_files st -> False.

(** Everything queued and everything requested is on the server the
    crawl started from. *)
Definition on_root_server (py_lower : str -> str) (host : str) (port : Z)
           (st : state) : Prop :=
  (forall sel h p, (sel, h, p) ∈ selectors_to_visit st ->
                   is_same_server py_lower host port h p = true)
  /\ (forall h p sel r d, Request h p sel r d ∈ trace st ->
                          is_same_server py_lower host port h p = true).

(** The connection attempt a call of [check_external_server] makes. *)
Definition attempt_of (call : str * Z * bool) : option (str * Z * bool) :=
  if probe_allowed call.1.1 then Some (strip call.1.1, call.1.2, call.2) else None.

(** [external_servers] holds exactly the results of the calls made, one
    call per key, and the connection attempts are those of the calls. *)
Definition probes_consistent (st : state) : Prop :=
  NoDup (map fst (probe_calls (trace st)))
  /\ (forall h p up, external_servers st !! (h, p) = Some up <->
                     (h, p, up) ∈ probe_calls (trace st))
  /\ probe_connects (trace st) = omap attempt_of (probe_calls (trace st)).

(** What the state keeps of the requests that went wrong. *)
Definition failures_recorded (py_lower : str -> str) (st : state) : Prop :=
  (forall h p sel d, Request h p sel [] d ∈ trace st ->
                     sel ∈ invalid_references st)
  /\ (forall h p sel r d, Request h p sel r d ∈ trace st -> r <> [] ->
         (sel ∈ problematic_resources st <->
          is_problematic_resource py_lower sel (len r) d = true)).

(** [s.lower()] on ASCII letters; it agrees with Python on strings made
    of ASCII characters and is used to run the engine on concrete menus. *)
Definition ascii_lower (s : str) : str :=
  map (fun c => if between 65 90 c then c + 32 else c) s.

End Crawl.

(** ** The Statistics Aggregator: the end of [main] in gopher_client_08.py *)

Module Stats.
Import Py.

(** A running minimum: an integer or [float('inf')]. *)
Inductive size_bound :=
| Finite (n : N)
| Infinity.

(** [size < bound] *)
Definition below (size : N) (bound : size_bound) : bool :=
  match bound with
  | Finite m => size <? m
  | Infinity => true
  end.

(** The four variables of one category. *)
Record extremes := Extremes {
  smallest_file : option str;
  largest_file : option str;
  smallest_size : size_bound;
  largest_size : N
}.

Definition no_extremes : extremes := Extremes None None Infinity 0.

(** [f for f in files if f not in problematic_resources] *)
Definition clean (problematic : gset str) (files : list str) : list str :=
  filter (fun f => f ∉ problematic) files.

(** The body of [for file in clean_text_files]. *)
Definition scan_file (file_sizes : gmap str N) (e : extremes) (file : str) : extremes :=
  match file_sizes !! file with
  | None => e
  | Some size =>
    let e :=
      if below size (smallest_size e)
      then Extremes (Some file) (largest_file e) (Finite size) (largest_size e)
      else e in
    if largest_size e <? size
    then Extremes (smallest_file e) (Some file) (smallest_size e) size
    else e
  end.

Definition file_extremes (file_sizes : gmap str N) (files : list str) : extremes :=
  fold_left (scan_file file_sizes) files no_extremes.

(** [if smallest_text_file:] holds for a selector other than [None] and
    the empty string. *)
Definition truthy (file : option str) : option str :=
  match file with
  | Some (c :: s) => Some (c :: s)
  | _ => None
  end.

(** Sections d and f of the summary print a file and a size; sections e
    and g likewise.  [None] when the section is not printed. *)
Definition printed_smallest (e : extremes) : option (str * size_bound) :=
  match truthy (smallest_file e) with
  | Some file => Some (file, smallest_size e)
  | None => None
  end.

Definition printed_largest (e : extremes) : option (str * N) :=
  match truthy (largest_file e) with
  | Some file => Some (file, largest_size e)
  | None => None
  end.

(** The summary of one category, from the variables of [main]. *)
Definition summary (problematic : gset str) (file_sizes : gmap str N)
           (files : list str) : extremes :=
  file_extremes file_sizes (clean problematic files).

(** The last section of the summary lists every problematic resource. *)
Definition printed_problematic (problematic : gset str) : gset str := problematic.

End Stats.

(** ** The first draft: class [GopherClient] of gopher_client.py *)

Module Draft1.
Import Py.
Import Stats (size_bound, Finite, Infinity, below).

(** The attributes of a [GopherClient] that the statistics use. *)
Record client := Client {
  visited_selectors : gset str;
  text_files : list (str * N);
  binary_files : list (str * N);
  directories : list str;
  invalid_refs : gset str;
  external_servers : gmap str bool;
  smallest_text : option str;
  largest_text_size : N;
  smallest_binary_size : size_bound;
  largest_binary_size : N
}.

(** [__init__] *)
Definition new_client : client :=
  Client ∅ [] [] [] ∅ ∅ None 0 Infinity 0.

(** [data.encode()]: the length in bytes of the UTF-8 encoding. *)
Definition encoded_length (s : str) : N :=
  fold_left (fun acc c =>
    acc + (if c <? 0x80 then 1 else if c <? 0x800 then 2
           else if c <? 0x10000 then 3 else 4)) s 0.

(** [response.decode(errors='ignore')]: ill-formed sequences vanish. *)
Definition decode_utf8_ignore (data : bytes) : str :=
  omap id (utf8_scan data).

(** How a call of [crawl] ends: normally, by the ValueError that
    [int(port)] raises on a malformed port, or not within the fuel. *)
Inductive outcome :=
| Done (c : client)
| ValueError
| OutOfFuel.

Section Client.
Variable py_int : str -> option Z.
(** The server: the bytes of the reply to a selector, [None] when the
    connection raises. *)
Variable server : str -> option bytes.
(** Whether a connection to another server succeeds. *)
Variable connect : str -> Z -> bool.
Variable self_host : str.
Variable self_port : Z.

Definition send_request (sel : str) : option str :=
  match server sel with
  | Some response => Some (decode_utf8_ignore response)
  | None => None
  end.

Definition handle_text (sel : str) (c : client) : client :=
  match send_request sel with
  | Some (ch :: rest) =>
    let data := ch :: rest in
    let size := encoded_length data in
    let smallest :=
      match smallest_text c with
      | None => Some data
      | Some old => if size <? encoded_length old then Some data else Some old
      end in
    Client (visited_selectors c) (text_files c ++ [(sel, size)]) (binary_files c)
           (directories c) (invalid_refs c) (external_servers c) smallest
           (if largest_text_size c <? size then size else largest_text_size c)
           (smallest_binary_size c) (largest_binary_size c)
  | _ => c
  end.

Definition handle_binary (sel : str) (c : client) : client :=
  match server sel with
  | Some data =>
    let size := len data in
    Client (visited_selectors c) (text_files c) (binary_files c ++ [(sel, size)])
           (directories c) (invalid_refs c) (external_servers c) (smallest_text c)
           (largest_text_size c)
           (if below size (smallest_binary_size c) then Finite size
            else smallest_binary_size c)
           (if largest_binary_size c <? size then size else largest_binary_size c)
  | None =>
    Client (visited_selectors c) (text_files c) (binary_files c)
           (directories c) ({[sel]} ∪ invalid_refs c) (external_servers c)
           (smallest_text c) (largest_text_size c)
           (smallest_binary_size c) (largest_binary_size c)
  end.

Definition add_invalid (ref : str) (c : client) : client :=
  Client (visited_selectors c) (text_files c) (binary_files c)
         (directories c) ({[ref]} ∪ invalid_refs c) (external_servers c)
         (smallest_text c) (largest_text_size c)
         (smallest_binary_size c) (largest_binary_size c).

Definition check_external_server (host port : str) (c : client) : client :=
  let key := host ++ u ":" ++ port in
  match external_servers c !! key with
  | Some _ => c
  | None =>
    let up :=
      match py_int port with
      | Some p => connect host p
      | None => false
      end in
    Client (visited_selectors c) (text_files c) (binary_files c)
           (directories c) (invalid_refs c) (<[key := up]> (external_servers c))
           (smallest_text c) (largest_text_size c)
           (smallest_binary_size c) (largest_binary_size c)
  end.

(** [crawl]: the method calls itself on every directory of its own
    server, inside the loop over the lines of the menu. *)
Fixpoint crawl (fuel : nat) (sel : str) (c : client) : outcome :=
  match fuel with
  | O => OutOfFuel
  | S fuel' =>
    if bool_decide (sel ∈ visited_selectors c) then Done c
    else
      let c :=
        Client ({[sel]} ∪ visited_selectors c) (text_files c) (binary_files c)
               (directories c) (invalid_refs c) (external_servers c)
               (smallest_text c) (largest_text_size c)
               (smallest_binary_size c) (largest_binary_size c) in
      match send_request sel with
      | Some (ch :: rest) =>
        (fix each_line (lines : list str) (c : client) : outcome :=
           match lines with
           | [] => Done c
           | line :: more =>
             match line with
             | [] => each_line more c
             | item_type :: fields =>
               if item_type =? 46 then each_line more c
               else
                 match split_tab fields with
                 | _ :: path :: host :: port :: _ =>
                   if item_type =? 49 then
                     let c :=
                       Client (visited_selectors c) (text_files c) (binary_files c)
                              (directories c ++ [path]) (invalid_refs c)
                              (external_servers c) (smallest_text c)
                              (largest_text_size c) (smallest_binary_size c)
                              (largest_binary_size c) in
                     if bool_decide (host = self_host) then
                       match py_int port with
                       | None => ValueError
                       | Some p =>
                         if bool_decide (p = self_port) then
                           match crawl fuel' path c with
                           | Done c => each_line more c
                           | stop => stop
                           end
                         else each_line more (check_external_server host port c)
                       end
                     else each_line more (check_external_server host port c)
                   else if item_type =? 48 then each_line more (handle_text path c)
                   else if item_type =? 57 then each_line more (handle_binary path c)
                   else if item_type =? 105 then each_line more c
                   else each_line more (add_invalid line c)
                 | _ => each_line more (add_invalid line c)
                 end
             end
           end) (split_char 10 (strip (ch :: rest))) c
      | _ => Done c
      end
  end.
End Client.

(** The four statistics lines of [print_summary], as the values that
    are formatted.  [None] when [self.smallest_text[:500]] raises
    TypeError because no text file was ever stored. *)
Record summary := Summary {
  shown_smallest_text : str;
  shown_largest_text_size : N;
  shown_smallest_binary_size : size_bound;
  shown_largest_binary_size : N
}.

Definition print_summary (c : client) : option summary :=
  match smallest_text c with
  | None => None
  | Some text =>
    Some (Summary (take 500 text) (largest_text_size c)
                  (smallest_binary_size c) (largest_binary_size c))
  end.

(** The [__main__] block: crawl from the root, then print. *)
Definition run (py_int : str -> option Z) (server : str -> option bytes)
           (connect : str -> Z -> bool) (host : str) (port : Z)
           (fuel : nat) : option summary :=
  match crawl py_int server connect host port fuel [] new_client with
  | Done c => print_summary c
  | ValueError | OutOfFuel => None
  end.

End Draft1.

(** ** The third draft: class [GopherClient] of gopher_client_03.py *)

Module Draft3.
Import Py.
Import Parser (item, Item).

(** How one request to the crawled server ends.  [send_request] binds
    [timestamp] after [s.connect]; each of its handlers formats
    [timestamp], so when [connect] itself raises the handler raises
    UnboundLocalError in turn, and nothing catches that.  An error
    after the connection was made is caught and gives [None]. *)
Inductive reply :=
| Reply (data : bytes)
| Dropped
| Unreachable.

Inductive exn :=
| UnboundLocalError
| KeyError.

(** The attributes of a [GopherClient]; [requests] is a ghost field,
    the paths sent so far, the latest first. *)
Record client := Client {
  visited_paths : gset str;
  visited_servers : gset (str * Z);
  directories : list str;
  text_files : list str;
  binary_files : list str;
  error_refs : list str;
  external_servers : gmap (str * Z) bool;
  text_file_sizes : gmap str N;
  binary_file_sizes : gmap str N;
  downloaded_text : gmap str str;
  requests : list str
}.

(** [__init__] *)
Definition new_client : client := Client ∅ ∅ [] [] [] [] ∅ ∅ ∅ ∅ [].

Definition with_visited_paths (f : gset str -> gset str) (c : client) : client :=
  Client (f (visited_paths c)) (visited_servers c) (directories c) (text_files c)
         (binary_files c) (error_refs c) (external_servers c) (text_file_sizes c)
         (binary_file_sizes c) (downloaded_text c) (requests c).

Definition with_visited_servers (f : gset (str * Z) -> gset (str * Z))
           (c : client) : client :=
  Client (visited_paths c) (f (visited_servers c)) (directories c) (text_files c)
         (binary_files c) (error_refs c) (external_servers c) (text_file_sizes c)
         (binary_file_sizes c) (downloaded_text c) (requests c).

Definition with_directories (f : list str -> list str) (c : client) : client :=
  Client (visited_paths c) (visited_servers c) (f (directories c)) (text_files c)
         (binary_files c) (error_refs c) (external_servers c) (text_file_sizes c)
         (binary_file_sizes c) (downloaded_text c) (requests c).

Definition with_text_files (f : list str -> list str) (c : client) : client :=
  Client (visited_paths c) (visited_servers c) (directories c) (f (text_files c))
         (binary_files c) (error_refs c) (external_servers c) (text_file_sizes c)
         (binary_file_sizes c) (downloaded_text c) (requests c).

Definition with_binary_files (f : list str -> list str) (c : client) : client :=
  Client (visited_paths c) (visited_servers c) (directories c) (text_files c)
         (f (binary_files c)) (error_refs c) (external_servers c) (text_file_sizes c)
         (binary_file_sizes c) (downloaded_text c) (requests c).

Definition with_error_refs (f : list str -> list str) (c : client) : client :=
  Client (visited_paths c) (visited_servers c) (directories c) (text_files c)
         (binary_files c) (f (error_refs c)) (external_servers c) (text_file_sizes c)
         (binary_file_sizes c) (downloaded_text c) (requests c).

Definition with_external_servers
           (f : gmap (str * Z) bool -> gmap (str * Z) bool) (c : client) : client :=
  Client (visited_paths c) (visited_servers c) (directories c) (text_files c)
         (binary_files c) (error_refs c) (f (external_servers c)) (text_file_sizes c)
         (binary_file_sizes c) (downloaded_text c) (requests c).

Definition with_text_file_sizes (f : gmap str N -> gmap str N) (c : client) : client :=
  Client (visited_paths c) (visited_servers c) (directories c) (text_files c)
         (binary_files c) (error_refs c) (external_servers c) (f (text_file_sizes c))
         (binary_file_sizes c) (downloaded_text c) (requests c).

Definition with_binary_file_sizes (f : gmap str N -> gmap str N) (c : client) : client :=
  Client (visited_paths c) (visited_servers c) (directories c) (text_files c)
         (binary_files c) (error_refs c) (external_servers c) (text_file_sizes c)
         (f (binary_file_sizes c)) (downloaded_text c) (requests c).

Definition with_downloaded_text (f : gmap str str -> gmap str str) (c : client) : client :=
  Client (visited_paths c) (visited_servers c) (directories c) (text_files c)
         (binary_files c) (error_refs c) (external_servers c) (text_file_sizes c)
         (binary_file_sizes c) (f (downloaded_text c)) (requests c).

Definition with_requests (f : list str -> list str) (c : client) : client :=
  Client (visited_paths c) (visited_servers c) (directories c) (text_files c)
         (binary_files c) (error_refs c) (external_servers c) (text_file_sizes c)
         (binary_file_sizes c) (downloaded_text c) (f (requests c)).

(** How a method ends: it returns, it raises, or (for the recursive
    [process_directory]) the directories nest deeper than the fuel,
    which is where Python, whose calls nest to a bounded depth only,
    raises RecursionError. *)
Inductive outcome :=
| Returned (c : client)
| Raised (e : exn)
| OutOfFuel.

(** The end of [send_request]: UTF-8, or latin-1 when that fails. *)
Definition decode (response : bytes) : str :=
  match decode_utf8_strict response with
  | Some text => text
  | None => decode_latin1 response
  end.

(** [is_binary_content] on a string.  The ratio is a double; for
    contents of fewer than 2^52 characters comparing it with 0.1 is
    comparing ten times the count with the length. *)
Definition is_binary_content (content : str) : bool :=
  if Crawl.mem 0 content then true
  else
    let non_printable :=
      len (filter (fun c => ¬ (32 <= c <= 126) /\ c ∉ [13; 10; 9]) content) in
    len content <? 10 * non_printable.

Section Client.
Variable py_int : str -> option Z.
(** The crawled server: its reply to a path, given the paths sent
    before. *)
Variable net : list str -> str -> reply.
(** Whether a connection to another server succeeds. *)
Variable connect : str -> Z -> bool.
Variable self_host : str.
Variable self_port : Z.

(** [send_request]: the value returned, or the exception, and the
    client with the request logged. *)
Definition send_request (path : str) (c : client) : (exn + option str) * client :=
  (match net (requests c) path with
   | Reply data => inr (Some (decode data))
   | Dropped => inr None
   | Unreachable => inl UnboundLocalError
   end,
   with_requests (cons path) c).

Definition process_binary_file (path : str) (c : client) : outcome :=
  if Crawl.mem path (visited_paths c) then Returned c
  else
    let c := with_visited_paths (union {[path]}) c in
    match send_request path c with
    | (inl e, _) => Raised e
    | (inr None, c) | (inr (Some []), c) => Returned c
    | (inr (Some (ch :: rest)), c) =>
      let content := ch :: rest in
      let c := with_binary_files (fun l => l ++ [path]) c in
      Returned (with_binary_file_sizes
                  (insert path (Draft1.encoded_length content)) c)
    end.

Definition process_text_file (path : str) (c : client) : outcome :=
  if Crawl.mem path (visited_paths c) then Returned c
  else
    let c := with_visited_paths (union {[path]}) c in
    match send_request path c with
    | (inl e, _) => Raised e
    | (inr None, c) | (inr (Some []), c) => Returned c
    | (inr (Some (ch :: rest)), c) =>
      let content := ch :: rest in
      if is_binary_content content then process_binary_file path c
      else
        let c := with_text_files (fun l => l ++ [path]) c in
        let c := with_text_file_sizes
                   (insert path (Draft1.encoded_length content)) c in
        Returned (with_downloaded_text (insert path content) c)
    end.

(** [check_external_server]: the value returned is dropped by the one
    caller, so only the client and a possible KeyError are kept. *)
Definition check_external_server (h : str) (p : Z) (c : client) : outcome :=
  if Crawl.mem (h, p) (visited_servers c) then
    match external_servers c !! (h, p) with
    | Some _ => Returned c
    | None => Raised KeyError
    end
  else
    let c := with_visited_servers (union {[(h, p)]}) c in
    Returned (with_external_servers (insert (h, p) (connect h p)) c).

(** [process_directory]: the method calls itself, and the two file
    methods, inside the loop over the lines of the listing. *)
Fixpoint process_directory (fuel : nat) (path : str) (c : client) : outcome :=
  match fuel with
  | O => OutOfFuel
  | S fuel' =>
    if Crawl.mem path (visited_paths c) then Returned c
    else
      let c := with_visited_paths (union {[path]}) c in
      match send_request path c with
      | (inl e, _) => Raised e
      | (inr None, c) | (inr (Some []), c) => Returned c
      | (inr (Some (ch :: rest)), c) =>
        let c :=
          if bool_decide (path = []) then c
          else with_directories (fun l => l ++ [path]) c in
        (fix each_line (lines : list str) (c : client) : outcome :=
           match lines with
           | [] => Returned c
           | line :: more =>
             if bool_decide (line = []) || bool_decide (line = u ".")
             then each_line more c
             else
               match Parser.parse_gopher_line py_int line with
               | None => each_line more c
               | Some it =>
                 let after (o : outcome) : outcome :=
                   match o with
                   | Returned c => each_line more c
                   | stop => stop
                   end in
                 if bool_decide (Parser.host it = self_host)
                    && bool_decide (Parser.port it = self_port)
                 then
                   if Parser.type it =? 49
                   then after (process_directory fuel' (Parser.selector it) c)
                   else if Parser.type it =? 48
                   then after (process_text_file (Parser.selector it) c)
                   else if (Parser.type it =? 57) || (Parser.type it =? 53)
                   then after (process_binary_file (Parser.selector it) c)
                   else if Parser.type it =? 51 then
                     if Crawl.mem (Parser.selector it) (error_refs c)
                     then each_line more c
                     else each_line more
                            (with_error_refs (fun l => l ++ [Parser.selector it]) c)
                   else each_line more c
                 else
                   match external_servers c !! (Parser.host it, Parser.port it) with
                   | Some _ => each_line more c
                   | None =>
                     after (check_external_server
                              (Parser.host it) (Parser.port it) c)
                   end
               end
           end) (split_crlf (ch :: rest)) c
      end
  end.
End Client.

End Draft3.

(** ** The fifth draft: gopher_client_05.py *)

Module Draft5.
Import Py.
Import Parser (item, Item).

Section Menu.
Variable py_int : str -> option Z.

(** The body of the loop of [parse_gopher_menu]: a line of one
    character is skipped outright, and the port is whatever [int]
    returns. *)
Definition parse_line (line : str) : option item :=
  match line with
  | [] => None
  | item_type :: rest =>
    if bool_decide (line = u ".") then None
    else if (length line <? 2)%nat then None
    else
      match split_tab rest with
      | display_string :: sel :: h :: port_field :: _ =>
        Some (Item item_type display_string sel h
                   (match py_int port_field with
                    | Some p => p
                    | None => 70%Z
                    end))
      | _ => None
      end
  end.

Fixpoint parse_lines (lines : list str) : list item :=
  match lines with
  | [] => []
  | line :: more =>
    match parse_line line with
    | Some it => it :: parse_lines more
    | None => parse_lines more
    end
  end.

Definition parse_gopher_menu (menu_data : bytes) : list item :=
  parse_lines (split_crlf (decode_utf8_replace menu_data)).
End Menu.

(** [is_same_server]: the hosts as they are written. *)
Definition is_same_server (host1 : str) (port1 : Z) (host2 : str) (port2 : Z) : bool :=
  bool_decide (host1 = host2) && bool_decide (port1 = port2).

(** *** [main] of gopher_client_05.py *)

(** The variables of [main]; [sent] is a ghost field, the selectors
    requested so far, the latest first, each with whether a response
    came back. *)
Record state := State {
  visited_selectors : gset str;
  directories : list str;
  text_files : list str;
  binary_files : list str;
  selectors_to_visit : list (str * str * Z);
  sent : list (str * bool)
}.

Definition initial (host : str) (port : Z) : state :=
  State ∅ [] [] [] [([], host, port)] [].

(** [not selector or selector.endswith('/')] *)
Definition is_menu_selector (sel : str) : bool :=
  bool_decide (sel = []) || ends_with_char 47 sel.

Section Main.
Variable py_int : str -> option Z.
(** The network: the response to a request for a selector on a host
    and port, given what was sent before, or [None] when
    [send_gopher_request] raises. *)
Variable request : list (str * bool) -> str -> Z -> str -> option bytes.

(** The body of [for item in items]. *)
Definition process_item (current_host : str) (current_port : Z)
           (st : state) (it : item) : state :=
  let entry := (Parser.selector it, Parser.host it, Parser.port it) in
  if is_same_server current_host current_port (Parser.host it) (Parser.port it) then
    if Parser.type it =? 49 then
      State (visited_selectors st) (directories st) (text_files st)
            (binary_files st) (selectors_to_visit st ++ [entry]) (sent st)
    else if Parser.type it =? 48 then
      State (visited_selectors st) (directories st)
            (text_files st ++ [Parser.selector it])
            (binary_files st) (selectors_to_visit st ++ [entry]) (sent st)
    else if negb ((Parser.type it =? 105) || (Parser.type it =? 51)) then
      State (visited_selectors st) (directories st) (text_files st)
            (binary_files st ++ [Parser.selector it])
            (selectors_to_visit st ++ [entry]) (sent st)
    else st
  else st.

(** One iteration of [while selectors_to_visit]. *)
Definition step (st : state) : state :=
  match selectors_to_visit st with
  | [] => st
  | (sel, current_host, current_port) :: rest =>
    if Crawl.mem sel (visited_selectors st) then
      State (visited_selectors st) (directories st) (text_files st)
            (binary_files st) rest (sent st)
    else
      let visited := {[sel]} ∪ visited_selectors st in
      match request (sent st) current_host current_port sel with
      | None =>
        State visited (directories st) (text_files st) (binary_files st) rest
              ((sel, false) :: sent st)
      | Some response =>
        let log := (sel, true) :: sent st in
        if is_menu_selector sel then
          fold_left (process_item current_host current_port)
                    (parse_gopher_menu py_int response)
                    (State visited (directories st ++ [sel]) (text_files st)
                           (binary_files st) rest log)
        else
          match decode_utf8_strict response with
          | Some _ =>
            State visited (directories st)
                  (if Crawl.mem sel (text_files st) then text_files st
                   else text_files st ++ [sel])
                  (binary_files st) rest log
          | None =>
            State visited (directories st) (text_files st)
                  (if Crawl.mem sel (binary_files st) then binary_files st
                   else binary_files st ++ [sel])
                  rest log
          end
      end
  end.

(** The loop has no bound of its own; [n] bounds the iterations. *)
Fixpoint iterate (n : nat) (st : state) : state :=
  match n with
  | O => st
  | S n' =>
    match selectors_to_visit st with
    | [] => st
    | _ :: _ => iterate n' (step st)
    end
  end.
End Main.

(** The selectors of the requests that came back with a menu, in the
    order of the requests. *)
Definition answered_menus (log : list (str * bool)) : list str :=
  rev (map fst (filter (fun e : str * bool => e.2 && is_menu_selector e.1) log)).

(** The log agrees with the visited set and with the directories. *)
Definition log_consistent (st : state) : Prop :=
  NoDup (map fst (sent st))
  /\ (forall sel, sel ∈ map fst (sent st) <-> sel ∈ visited_selectors st)
  /\ directories st = answered_menus (sent st).

(** What gopher_client_08.py adds to the port of an item. *)
Definition with_port_in_range (it : item) : item :=
  Item (Parser.type it) (Parser.display it) (Parser.selector it) (Parser.host it)
       (if ((Parser.port it <=? 0) || (65535 <? Parser.port it))%Z
        then 70%Z else Parser.port it).

End Draft5.

(** ** Auxiliary notions *)

(** A string that does not begin with whitespace. *)
Definition no_leading_space (s : Py.str) : Prop :=
  match s with
  | c :: _ => Py.isspace c = false
  | [] => True
  end.

(** ** Further invariants of the engine *)

Module CrawlInv.
Import Py Crawl.

(** The counters: the loop has not run more often than [max_items]
    allows, and the Transport was not called more often than the loop
    ran. *)
Definition within_budget (st : state) : Prop :=
  processed_count st <= max_items
  /\ len (requested (trace st)) <= processed_count st.

(** No list of results names a selector twice. *)
Definition lists_without_repeats (st : state) : Prop :=
  NoDup (directories st) /\ NoDup (text_files st) /\ NoDup (binary_files st).

(** How the results hang together: a directory was requested; a
    selector with a size was requested, is no directory, is listed as
    text or as binary file, is not empty and does not end in a slash;
    and a stored content is that of a text file, with the size
    recorded, below one mebibyte. *)
Definition results_consistent (st : state) : Prop :=
  (forall sel, sel ∈ directories st -> sel ∈ requested (trace st))
  /\ (forall sel, is_Some (file_sizes st !! sel) ->
        sel ∈ requested (trace st) /\ (sel ∉ directories st)
        /\ (sel ∈ text_files st \/ sel ∈ binary_files st)
        /\ sel <> [] /\ ends_with_char 47 sel = false)
  /\ (forall sel content, text_file_contents st !! sel = Some content ->
        file_sizes st !! sel = Some (len content)
        /\ len content < 1024 * 1024
        /\ Classifier.is_text_file content = true
        /\ sel ∈ text_files st).

(** Every recorded size is the size of a response that was not empty. *)
Definition sizes_positive (st : state) : Prop :=
  forall sel n, file_sizes st !! sel = Some n -> 0 < n.

(** Every selector with a recorded download time was requested. *)
Definition timed_are_requested (st : state) : Prop :=
  forall sel, is_Some (download_times st !! sel) -> sel ∈ requested (trace st).

(** The invariant under which a step only adds. *)
Definition settled (st : state) : Prop :=
  (results_consistent st
   /\ (NoDup (requested (trace st))
       /\ forall s, s ∈ requested (trace st) -> s ∈ visited_selectors st))
  /\ timed_are_requested st.

(** What a later state keeps of an earlier one: the sets and the
    dictionaries only gain entries, the lists only grow at the end,
    the trace only grows at the front, the counter only goes up. *)
Definition extends (st st' : state) : Prop :=
  visited_selectors st ⊆ visited_selectors st'
  /\ invalid_references st ⊆ invalid_references st'
  /\ problematic_resources st ⊆ problematic_resources st'
  /\ external_servers st ⊆ external_servers st'
  /\ file_sizes st ⊆ file_sizes st'
  /\ text_file_contents st ⊆ text_file_contents st'
  /\ download_times st ⊆ download_times st'
  /\ trace st `suffix_of` trace st'
  /\ directories st `prefix_of` directories st'
  /\ text_files st `prefix_of` text_files st'
  /\ binary_files st `prefix_of` binary_files st'
  /\ processed_count st <= processed_count st'.

End CrawlInv.

(** ** What the statistics of the first draft say about its lists *)

Module Draft1Inv.
Import Py Stats Draft1.

(** The running extremes agree with the files recorded so far. *)
Definition stats_consistent (c : client) : Prop :=
  (smallest_binary_size c = Infinity <-> binary_files c = [])
  /\ (smallest_text c = None <-> text_files c = [])
  /\ (forall sel size, (sel, size) ∈ binary_files c ->
        exists least, smallest_binary_size c = Finite least
                      /\ least <= size /\ size <= largest_binary_size c)
  /\ (forall least, smallest_binary_size c = Finite least ->
        exists sel, (sel, least) ∈ binary_files c)
  /\ (forall sel size, (sel, size) ∈ text_files c ->
        exists text, smallest_text c = Some text
                     /\ encoded_length text <= size /\ size <= largest_text_size c)
  /\ (forall text, smallest_text c = Some text ->
        text <> [] /\ exists sel, (sel, encoded_length text) ∈ text_files c)
  /\ (binary_files c = [] -> largest_binary_size c = 0)
  /\ (binary_files c <> [] ->
        exists sel, (sel, largest_binary_size c) ∈ binary_files c)
  /\ (text_files c = [] -> largest_text_size c = 0)
  /\ (text_files c <> [] ->
        exists sel, (sel, largest_text_size c) ∈ text_files c).

(** Two clients with the same files and the same statistics. *)
Definition same_statistics (c c' : client) : Prop :=
  text_files c' = text_files c
  /\ binary_files c' = binary_files c
  /\ smallest_text c' = smallest_text c
  /\ largest_text_size c' = largest_text_size c
  /\ smallest_binary_size c' = smallest_binary_size c
  /\ largest_binary_size c' = largest_binary_size c.

End Draft1Inv.

(** ** What the lists and dictionaries of the third draft say *)

Module Draft3Inv.
Import Py Draft3.

(** Every path the client has recorded, in the three result lists. *)
Definition listed (c : client) : list str :=
  directories c ++ text_files c ++ binary_files c.

Definition consistent (c : client) : Prop :=
  NoDup (listed c)
  /\ NoDup (requests c)
  /\ (forall p, p ∈ listed c -> p ∈ requests c)
  /\ (forall p, p ∈ requests c <-> p ∈ visited_paths c)
  /\ ([] ∉ directories c)
  /\ (forall p, is_Some (binary_file_sizes c !! p) <-> p ∈ binary_files c)
  /\ (forall p, is_Some (text_file_sizes c !! p) <-> p ∈ text_files c)
  /\ (forall p, p ∈ text_files c ->
        exists content,
          downloaded_text c !! p = Some content
          /\ text_file_sizes c !! p = Some (Draft1.encoded_length content)
          /\ content <> [] /\ is_binary_content content = false)
  /\ (forall k, k ∈ visited_servers c <-> is_Some (external_servers c !! k)).

(** The client after [visited_paths.add(path)] and the request. *)
Definition requested (path : str) (c : client) : client :=
  with_requests (cons path) (with_visited_paths (union {[path]}) c).

(** Every request the client has sent reached the server. *)
Definition all_reached (net : list str -> str -> reply) (c : client) : Prop :=
  forall later path older,
    requests c = later ++ path :: older -> net older path <> Unreachable.

Definition sound (net : list str -> str -> reply) (c : client) : Prop :=
  consistent c /\ all_reached net c.

(** A method ended well: if it returned the client is sound, it did
    not raise KeyError, and if it raised UnboundLocalError a request
    did not reach the server. *)
Definition ended_well (net : list str -> str -> reply) (o : outcome) : Prop :=
  match o with
  | Returned c => sound net c
  | Raised KeyError => False
  | Raised UnboundLocalError => exists older path, net older path = Unreachable
  | OutOfFuel => True
  end.

(** A byte of plain text: printable ASCII, or one of CR, LF and TAB. *)
Definition plain (c : byte) : Prop :=
  32 <= Byte.to_N c <= 126 \/ Byte.to_N c ∈ [13; 10; 9].

End Draft3Inv.

(** ** Concrete inputs *)

Module Scenarios.
Import Py.

(** A PNG signature followed by a printable caption. *)
Definition png_with_caption : bytes :=
  Classifier.PNG ++ b " image of a gopher, see the caption".

(** A lone continuation byte: neither UTF-8 nor mostly printable, and
    no signature. *)
Definition lone_continuation : bytes := [x80].

(** A menu line: type, display string, selector, host and port. *)
Definition menu_line (t d sel h p : string) : bytes :=
  b t ++ b d ++ [TAB] ++ b sel ++ [TAB] ++ b h ++ [TAB] ++ b p ++ crlf.

(** A menu whose terminator line is followed by one more entry. *)
Definition menu_with_entry_after_dot : bytes :=
  menu_line "1" "First" "/first" "example.org" "70"
  ++ b "." ++ crlf
  ++ menu_line "1" "Second" "/second" "example.org" "70".


(** The same line decoded, without its type character. *)
Definition two_fields : str := u "About" ++ [9] ++ u "/about".



(** The engine with the ASCII versions of [lower] and [int]. *)
Definition crawl (w : Crawl.world) (host : string) : option Crawl.state :=
  Crawl.crawl Crawl.ascii_lower Parser.ascii_int w (N.to_nat 5001) (u host) 70.

(** A peer that sends five bytes and closes the connection. *)
Definition closing_peer : Transport.peer :=
  Transport.Peer Transport.Connected true
    (fun i => match i with
              | O => Transport.Data (b "hello")
              | S _ => Transport.Data []
              end)
    (fun _ => 0%Q).

(** A peer that sends five bytes and then nothing, without closing:
    every later receive runs into the socket timeout of ten seconds. *)
Definition stalling_peer : Transport.peer :=
  Transport.Peer Transport.Connected true
    (fun i => match i with
              | O => Transport.Data (b "hello")
              | S _ => Transport.RecvTimeout
              end)
    (fun i => match i with
              | O | S O => 0%Q
              | S (S k) => ((1 # 1000) + 10 * inject_Z (Z.of_nat k))%Q
              end).

(** A peer that never closes and never stops sending, four bytes at a
    time and faster than the clock ticks. *)
Definition firehose_peer : Transport.peer :=
  Transport.Peer Transport.Connected true
    (fun _ => Transport.Data (b "data"))
    (fun _ => 0%Q).

(** The limits [main] passes: ten seconds, ten megabytes, thirty seconds. *)
Definition request_outcome (p : Transport.peer) (fuel : nat) :=
  Transport.request_outcome 10%Q (10 * 1024 * 1024) 30%Q p fuel.

Definition send_gopher_request (p : Transport.peer) (fuel : nat) :=
  Transport.send_gopher_request 10%Q (10 * 1024 * 1024) 30%Q p fuel.

(** A server whose root menu points to another server, the host of which
    has a control character in its name. *)
Definition control_host : str := u "mir" ++ [1] ++ u "ror.org".

Definition control_host_menu : bytes :=
  b "1Mirror" ++ [TAB] ++ b "/mirror" ++ [TAB]
  ++ b "mir" ++ [x01] ++ b "ror.org" ++ [TAB] ++ b "70" ++ crlf
  ++ b "." ++ crlf.

(** Every connection succeeds in this world. *)
Definition control_host_world : Crawl.world :=
  Crawl.World
    (fun _ _ _ sel =>
       if bool_decide (sel = []) then (control_host_menu, 1%Q) else ([], 0%Q))
    (fun _ _ _ => true).

(** The entry of [control_host_menu], and a host with an accented
    letter (U+00E9). *)
Definition control_host_item : Parser.item :=
  Parser.Item 49 (u "Mirror") (u "/mirror") control_host 70.

Definition accented_host : str := u "caf" ++ [233] ++ u ".example".

(** For the first draft: a root menu with one text file and no binary
    file, and the file. *)
Definition text_only_server (sel : str) : option bytes :=
  if bool_decide (sel = []) then
    Some (menu_line "0" "Read me" "/readme" "example.org" "70" ++ b "." ++ crlf)
  else if bool_decide (sel = u "/readme") then Some (b "hi")
  else None.

Definition draft1_run (server : str -> option bytes) : option Draft1.summary :=
  Draft1.run Parser.ascii_int server (fun _ _ => false) (u "example.org") 70 10.

(** Three files of 10, 100 and 10 bytes, the third one problematic. *)
Definition three_files : list str := [u "/a"; u "/b"; u "/c"].
Definition three_sizes : gmap str N :=
  <[u "/a" := 10]> (<[u "/b" := 100]> (<[u "/c" := 10]> ∅)).
Definition one_problem : gset str := {[ u "/c" ]}.

(** A server whose root menu lists one text file; the request for that
    file meets [stalling_peer], and [main] measures a little more than
    twenty seconds around it. *)
Definition slow_menu : bytes :=
  menu_line "0" "Slow" "/slow" "example.org" "70" ++ b "." ++ crlf.

Definition stalled_world : Crawl.world :=
  Crawl.World
    (fun _ _ _ sel =>
       if bool_decide (sel = []) then (slow_menu, 1%Q)
       else if bool_decide (sel = u "/slow") then
         (default [] (send_gopher_request stalling_peer 5), (20003 # 1000)%Q)
       else ([], 0%Q))
    (fun _ _ _ => false).

(** A server whose root menu lists the same directory twice. *)
Definition twice_listed_menu : bytes :=
  menu_line "1" "Docs" "/docs/" "example.org" "70"
  ++ menu_line "1" "Docs again" "/docs/" "example.org" "70"
  ++ b "." ++ crlf.

Definition twice_listed_world : Crawl.world :=
  Crawl.World
    (fun _ _ _ sel =>
       if bool_decide (sel = []) then (twice_listed_menu, 1%Q)
       else if bool_decide (sel = u "/docs/") then
         (menu_line "i" "Nothing here" "" "example.org" "70", 1%Q)
       else ([], 0%Q))
    (fun _ _ _ => false).

(** The state of that crawl after the root and the first copy of the
    directory have been dispatched. *)
Definition twice_listed_state : Crawl.state :=
  Crawl.iterate Crawl.ascii_lower Parser.ascii_int twice_listed_world 2
                (Crawl.initial (u "example.org") 70).

(** A server that cannot be reached: every request comes back empty. *)
Definition silent_world : Crawl.world :=
  Crawl.World (fun _ _ _ _ => ([], 0%Q)) (fun _ _ _ => false).

(** A server whose root menu points to another server with a selector
    of 256 characters. *)
Definition long_selector_menu : bytes :=
  b "1Long" ++ [TAB] ++ replicate 256 "a"%byte ++ [TAB]
  ++ b "other.org" ++ [TAB] ++ b "70" ++ crlf
  ++ b "." ++ crlf.

Definition long_selector_world : Crawl.world :=
  Crawl.World
    (fun _ _ _ sel =>
       if bool_decide (sel = []) then (long_selector_menu, 1%Q) else ([], 0%Q))
    (fun _ _ _ => true).

(** The first entry of [menu_with_entry_after_dot]. *)
Definition first_entry : Parser.item :=
  Parser.Item 49 (u "First") (u "/first") (u "example.org") 70.

(** The first bytes of a GIF file, all of them ASCII. *)
Definition gif_header : bytes := b "GIF89a".

(** For the third draft: the server of [text_only_server], and a server
    whose one text entry answers with the first bytes of a JPEG file. *)
Definition draft3_net (server : str -> option bytes)
           (older : list str) (path : str) : Draft3.reply :=
  match server path with
  | Some data => Draft3.Reply data
  | None => Draft3.Dropped
  end.

Definition disguised_server (sel : str) : option bytes :=
  if bool_decide (sel = []) then
    Some (menu_line "0" "Logo" "/logo" "example.org" "70" ++ b "." ++ crlf)
  else if bool_decide (sel = u "/logo") then Some Classifier.JPEG
  else None.

Definition draft3_crawl (server : str -> option bytes) (fuel : nat) : Draft3.outcome :=
  Draft3.process_directory Parser.ascii_int (draft3_net server) (fun _ _ => false)
                           (u "example.org") 70 fuel [] Draft3.new_client.

End Scenarios.

(** * Properties *)

Import Py.

(** ** Classifier *)

Section ClassifierFacts.
Import Classifier.

Lemma utf8_scan_continuation_first (c : byte) (rest : bytes) :
  between 0x80 0xBF (Byte.to_N c) = true ->
  utf8_scan (c :: rest) = None :: utf8_scan rest.
Proof.
  unfold between. intros Hc.
  apply andb_prop in Hc as [Hlo Hhi].
  apply N.leb_le in Hlo. apply N.leb_le in Hhi.
  cbn [utf8_scan].
  replace (Byte.to_N c <? 0x80) with false by (symmetry; apply N.ltb_ge; lia).
  unfold between.
  replace (0xC2 <=? Byte.to_N c) with false by (symmetry; apply N.leb_gt; lia).
  replace (0xE0 <=? Byte.to_N c) with false by (symmetry; apply N.leb_gt; lia).
  replace (0xF0 <=? Byte.to_N c) with false by (symmetry; apply N.leb_gt; lia).
  reflexivity.
Qed.

Lemma png_is_not_utf8 (rest : bytes) :
  decode_utf8_strict (take sample_size (PNG ++ rest)) = None.
Proof.
  change sample_size with (S 4095).
  change (PNG ++ rest) with (x89 :: (b "PNG" ++ rest)).
  rewrite firstn_cons. unfold decode_utf8_strict.
  rewrite utf8_scan_continuation_first by reflexivity.
  reflexivity.
Qed.
End ClassifierFacts.

(** C1, counterexample.  A byte string that begins with the PNG
    signature and continues with printable text is not valid UTF-8 and
    matches a signature, and [is_text_file] answers text; a lone
    continuation byte, which nothing identifies, is text as well. *)
Lemma png_with_caption_is_text :
  starts_with Classifier.PNG Scenarios.png_with_caption = true /\
  decode_utf8_strict (take Classifier.sample_size Scenarios.png_with_caption) = None /\
  Classifier.is_text_file Scenarios.png_with_caption = true /\
  Classifier.has_signature Scenarios.lone_continuation = false /\
  Classifier.is_text_file Scenarios.lone_continuation = true.
Proof. repeat split; vm_compute; reflexivity. Qed.

(** C1, as amended.  Empty data is binary.  For non-empty data, the
    first 4096 bytes decide: a strict UTF-8 decoding that succeeds
    gives text; failing that, a printable-or-whitespace ratio above 0.8
    gives text before any signature is looked at; failing that, a known
    signature gives binary; and what is left is text.  A byte string
    that begins with the PNG signature is therefore text exactly when
    its sample is mostly printable. *)
Theorem is_text_file_policy (data rest : bytes) :
  let sample := take Classifier.sample_size data in
  Classifier.is_text_file data =
    negb (bool_decide (data = []))
    && (bool_decide (is_Some (decode_utf8_strict sample))
        || Classifier.mostly_printable sample
        || negb (Classifier.has_signature data))
  /\ Classifier.is_text_file (Classifier.PNG ++ rest) =
     Classifier.mostly_printable (take Classifier.sample_size (Classifier.PNG ++ rest)).
Proof.
  intros sample. split.
  - unfold Classifier.is_text_file. destruct data as [|c data']; [reflexivity|].
    fold sample.
    rewrite (bool_decide_eq_false_2 (c :: data' = [])) by discriminate.
    destruct (decode_utf8_strict sample) eqn:Hdec.
    + rewrite (bool_decide_eq_true_2 (is_Some (Some s))) by eauto. reflexivity.
    + rewrite (bool_decide_eq_false_2 (is_Some None)) by (intros [? ?]; discriminate).
      cbn [negb andb orb].
      destruct (Classifier.mostly_printable sample); [reflexivity|].
      destruct (Classifier.has_signature (c :: data')); reflexivity.
  - unfold Classifier.is_text_file.
    change (Classifier.PNG ++ rest) with (x89 :: (b "PNG" ++ rest)) at 1.
    cbv beta iota.
    change (x89 :: (b "PNG" ++ rest)) with (Classifier.PNG ++ rest).
    rewrite png_is_not_utf8.
    destruct (Classifier.mostly_printable _) eqn:Hm; [reflexivity|].
    replace (Classifier.has_signature (Classifier.PNG ++ rest)) with true; [reflexivity|].
    symmetry. unfold Classifier.has_signature.
    replace (starts_with Classifier.PNG (Classifier.PNG ++ rest)) with true by reflexivity.
    rewrite orb_true_r. reflexivity.
Qed.

(** ** Menu Parser *)

Section DecodingFacts.

Lemma utf8_scan_step (c0 : byte) (t0 : bytes) :
  utf8_scan (c0 :: t0) =
  let n0 := Byte.to_N c0 in
  if n0 <? 0x80 then Some n0 :: utf8_scan t0
  else if between 0xC2 0xDF n0 then
    match t0 with
    | [] => [None]
    | c1 :: t1 =>
      if is_cont c1 then Some (cp2 n0 c1) :: utf8_scan t1
      else None :: utf8_scan t0
    end
  else if between 0xE0 0xEF n0 then
    match t0 with
    | [] => [None]
    | c1 :: t1 =>
      if second_of_3 n0 c1 then
        match t1 with
        | [] => [None]
        | c2 :: t2 =>
          if is_cont c2 then Some (cp3 n0 c1 c2) :: utf8_scan t2
          else None :: utf8_scan t1
        end
      else None :: utf8_scan t0
    end
  else if between 0xF0 0xF4 n0 then
    match t0 with
    | [] => [None]
    | c1 :: t1 =>
      if second_of_4 n0 c1 then
        match t1 with
        | [] => [None]
        | c2 :: t2 =>
          if is_cont c2 then
            match t2 with
            | [] => [None]
            | c3 :: t3 =>
              if is_cont c3 then Some (cp4 n0 c1 c2 c3) :: utf8_scan t3
              else None :: utf8_scan t2
            end
          else None :: utf8_scan t1
        end
      else None :: utf8_scan t0
    end
  else None :: utf8_scan t0.
Proof. destruct t0 as [|c1 [|c2 [|c3 t3]]]; reflexivity. Qed.

Variable c : byte.
Hypothesis c_ascii : Byte.to_N c < 0x80.

Lemma ascii_not_cont : is_cont c = false.
Proof.
  unfold is_cont, between.
  replace (0x80 <=? Byte.to_N c) with false; [reflexivity|].
  symmetry. apply N.leb_gt. exact c_ascii.
Qed.

Lemma ascii_not_second_of_3 (lead : N) : second_of_3 lead c = false.
Proof.
  unfold second_of_3, between.
  replace (0xA0 <=? Byte.to_N c) with false by (symmetry; apply N.leb_gt; lia).
  replace (0x80 <=? Byte.to_N c) with false by (symmetry; apply N.leb_gt; lia).
  destruct (lead =? 0xE0), (lead =? 0xED); reflexivity.
Qed.

Lemma ascii_not_second_of_4 (lead : N) : second_of_4 lead c = false.
Proof.
  unfold second_of_4, between.
  replace (0x90 <=? Byte.to_N c) with false by (symmetry; apply N.leb_gt; lia).
  replace (0x80 <=? Byte.to_N c) with false by (symmetry; apply N.leb_gt; lia).
  destruct (lead =? 0xF0), (lead =? 0xF4); reflexivity.
Qed.

Lemma utf8_scan_ascii (r : bytes) :
  utf8_scan (c :: r) = Some (Byte.to_N c) :: utf8_scan r.
Proof.
  rewrite utf8_scan_step. cbv zeta.
  replace (Byte.to_N c <? 0x80) with true; [reflexivity|].
  symmetry. apply N.ltb_lt. exact c_ascii.
Qed.

(** An ASCII byte ends whatever sequence is pending: the scan of what
    precedes it does not depend on what follows. *)
Lemma utf8_scan_app_ascii (r : bytes) (n : nat) :
  forall a : bytes, (length a <= n)%nat ->
    utf8_scan (a ++ c :: r) = utf8_scan a ++ utf8_scan (c :: r).
Proof.
  induction n as [|n IH]; intros a Hlen.
  - destruct a; [reflexivity | simpl in Hlen; lia].
  - destruct a as [|c0 t0]; [reflexivity|].
    simpl in Hlen.
    change ((c0 :: t0) ++ c :: r) with (c0 :: (t0 ++ c :: r)).
    rewrite (utf8_scan_step c0 (t0 ++ c :: r)), (utf8_scan_step c0 t0).
    cbv zeta.
    destruct (Byte.to_N c0 <? 0x80).
    { cbn [app]. f_equal. apply IH. lia. }
    destruct (between 0xC2 0xDF (Byte.to_N c0)).
    { destruct t0 as [|c1 t1]; cbn [app].
      - rewrite ascii_not_cont. reflexivity.
      - simpl in Hlen. destruct (is_cont c1); cbn [app]; f_equal.
        + apply IH. lia.
        + apply (IH (c1 :: t1)). simpl. lia. }
    destruct (between 0xE0 0xEF (Byte.to_N c0)).
    { destruct t0 as [|c1 t1]; cbn [app].
      - rewrite ascii_not_second_of_3. reflexivity.
      - simpl in Hlen. destruct (second_of_3 (Byte.to_N c0) c1); cbn [app].
        + destruct t1 as [|c2 t2]; cbn [app].
          * rewrite ascii_not_cont. reflexivity.
          * simpl in Hlen. destruct (is_cont c2); cbn [app]; f_equal.
            -- apply IH. lia.
            -- apply (IH (c2 :: t2)). simpl. lia.
        + f_equal. apply (IH (c1 :: t1)). simpl. lia. }
    destruct (between 0xF0 0xF4 (Byte.to_N c0)).
    { destruct t0 as [|c1 t1]; cbn [app].
      - rewrite ascii_not_second_of_4. reflexivity.
      - simpl in Hlen. destruct (second_of_4 (Byte.to_N c0) c1); cbn [app].
        + destruct t1 as [|c2 t2]; cbn [app].
          * rewrite ascii_not_cont. reflexivity.
          * simpl in Hlen. destruct (is_cont c2); cbn [app].
            -- destruct t2 as [|c3 t3]; cbn [app].
               ++ rewrite ascii_not_cont. reflexivity.
               ++ simpl in Hlen. destruct (is_cont c3); cbn [app]; f_equal.
                  ** apply IH. lia.
                  ** apply (IH (c3 :: t3)). simpl. lia.
            -- f_equal. apply (IH (c2 :: t2)). simpl. lia.
        + f_equal. apply (IH (c1 :: t1)). simpl. lia. }
    cbn [app]. f_equal. apply IH. lia.
Qed.
End DecodingFacts.

Lemma decode_utf8_replace_crlf (a r : bytes) :
  decode_utf8_replace (a ++ crlf ++ r) =
  decode_utf8_replace a ++ 13 :: 10 :: decode_utf8_replace r.
Proof.
  unfold decode_utf8_replace, crlf.
  change ([CR; LF] ++ r) with (CR :: LF :: r).
  rewrite (utf8_scan_app_ascii CR) with (n := length a) by (reflexivity || lia).
  rewrite (utf8_scan_ascii CR) by reflexivity.
  rewrite (utf8_scan_ascii LF) by reflexivity.
  rewrite map_app. reflexivity.
Qed.

Lemma cons_to_first_nonempty {A} (c : A) (ls : list (list A)) :
  cons_to_first c ls <> [].
Proof. destruct ls; discriminate. Qed.

Lemma cons_to_first_app {A} (c : A) (l1 l2 : list (list A)) :
  l1 <> [] -> cons_to_first c (l1 ++ l2) = cons_to_first c l1 ++ l2.
Proof. destruct l1; [congruence | reflexivity]. Qed.

Lemma split_crlf_step (c : codepoint) (r : str) :
  split_crlf (c :: r) =
  match r with
  | d :: r' =>
    if (c =? 13) && (d =? 10) then [] :: split_crlf r'
    else cons_to_first c (split_crlf r)
  | [] => cons_to_first c (split_crlf r)
  end.
Proof. destruct r; reflexivity. Qed.

Lemma split_crlf_nonempty (s : str) : split_crlf s <> [].
Proof.
  destruct s as [|c r]; [discriminate|].
  rewrite split_crlf_step. destruct r as [|d r'].
  - apply cons_to_first_nonempty.
  - destruct ((c =? 13) && (d =? 10)); [discriminate|].
    apply cons_to_first_nonempty.
Qed.

(** Splitting distributes over a separator put between two texts. *)
Lemma split_crlf_app (s2 : str) (n : nat) :
  forall s1 : str, (length s1 <= n)%nat ->
    split_crlf (s1 ++ 13 :: 10 :: s2) = split_crlf s1 ++ split_crlf s2.
Proof.
  induction n as [|n IH]; intros s1 Hlen.
  - destruct s1; [reflexivity | simpl in Hlen; lia].
  - destruct s1 as [|c r]; [reflexivity|].
    simpl in Hlen.
    change ((c :: r) ++ 13 :: 10 :: s2) with (c :: (r ++ 13 :: 10 :: s2)).
    rewrite (split_crlf_step c (r ++ 13 :: 10 :: s2)), (split_crlf_step c r).
    destruct r as [|d r']; cbn [app].
    + replace ((c =? 13) && (13 =? 10)) with false
        by (rewrite andb_false_r; reflexivity).
      change (split_crlf (13 :: 10 :: s2)) with ([] :: split_crlf s2).
      reflexivity.
    + simpl in Hlen.
      destruct ((c =? 13) && (d =? 10)).
      * cbn [app]. f_equal. apply IH. lia.
      * change (d :: r' ++ 13 :: 10 :: s2) with ((d :: r') ++ 13 :: 10 :: s2).
        rewrite (IH (d :: r')) by (simpl; lia).
        apply cons_to_first_app, split_crlf_nonempty.
Qed.

Section ParserFacts.
Import Parser.
Variable py_int : str -> option Z.

Lemma parse_lines_app (l1 l2 : list str) :
  parse_lines py_int (l1 ++ l2) = parse_lines py_int l1 ++ parse_lines py_int l2.
Proof.
  induction l1 as [|line l1 IH]; [reflexivity|].
  cbn [app parse_lines]. rewrite IH.
  destruct (parse_line py_int line); reflexivity.
Qed.

(** The items of two menus joined by a line terminator are the items
    of the first followed by the items of the second. *)
Lemma parse_gopher_menu_crlf (a r : bytes) :
  parse_gopher_menu py_int (a ++ crlf ++ r) =
  parse_gopher_menu py_int a ++ parse_gopher_menu py_int r.
Proof.
  unfold parse_gopher_menu.
  rewrite decode_utf8_replace_crlf.
  rewrite (split_crlf_app _ (length (decode_utf8_replace a))) by lia.
  apply parse_lines_app.
Qed.

Lemma parse_gopher_menu_empty : parse_gopher_menu py_int [] = [].
Proof. reflexivity. Qed.

Lemma parse_gopher_menu_dot : parse_gopher_menu py_int (b ".") = [].
Proof. reflexivity. Qed.
End ParserFacts.

(** C7, counterexample.  The entry on the line after the single-dot
    line is produced like the one before it. *)
Lemma entry_after_dot_is_parsed :
  Parser.parse_gopher_menu Parser.ascii_int Scenarios.menu_with_entry_after_dot =
  [ Parser.Item 49 (u "First") (u "/first") (u "example.org") 70;
    Parser.Item 49 (u "Second") (u "/second") (u "example.org") 70 ].
Proof. vm_compute. reflexivity. Qed.

(** C7, as amended.  A line equal to the single dot, or an empty line,
    is skipped: it yields no entry and the lines after it are parsed
    like the lines before it.  A menu yields the same entries with and
    without its terminator line. *)
Theorem dot_and_empty_lines_are_skipped (py_int : str -> option Z) (before after : bytes) :
  Parser.parse_gopher_menu py_int (before ++ crlf ++ b "." ++ crlf ++ after) =
    Parser.parse_gopher_menu py_int before ++ Parser.parse_gopher_menu py_int after
  /\ Parser.parse_gopher_menu py_int (before ++ crlf ++ crlf ++ after) =
    Parser.parse_gopher_menu py_int before ++ Parser.parse_gopher_menu py_int after
  /\ Parser.parse_gopher_menu py_int (b "." ++ crlf ++ after) =
    Parser.parse_gopher_menu py_int after
  /\ Parser.parse_gopher_menu py_int (before ++ crlf ++ b "." ++ crlf) =
    Parser.parse_gopher_menu py_int before.
Proof.
  assert (Hdot : forall r, Parser.parse_gopher_menu py_int (b "." ++ crlf ++ r) =
                           Parser.parse_gopher_menu py_int r).
  { intros r. rewrite parse_gopher_menu_crlf, parse_gopher_menu_dot. reflexivity. }
  split; [|split; [|split]].
  - rewrite parse_gopher_menu_crlf, Hdot. reflexivity.
  - rewrite parse_gopher_menu_crlf.
    change (crlf ++ after) with ([] ++ crlf ++ after).
    rewrite parse_gopher_menu_crlf, parse_gopher_menu_empty. reflexivity.
  - apply Hdot.
  - rewrite parse_gopher_menu_crlf.
    replace (b "." ++ crlf) with (b "." ++ crlf ++ []) by reflexivity.
    rewrite Hdot, parse_gopher_menu_empty. apply app_nil_r.
Qed.





(** ** Transport *)

Section TransportFacts.
Import Transport.
Local Open Scope Q_scope.

Variable timeout : Q.
Variable max_data_size : N.
Variable max_time : Q.
Variable p : peer.

Lemma Qnat_S (k : nat) : Qnat (S k) == Qnat k + 1.
Proof.
  unfold Qnat. rewrite Nat2Z.inj_succ, <- Z.add_1_r, inject_Z_plus. reflexivity.
Qed.

Lemma Qnat_le (j k : nat) : (j <= k)%nat -> Qnat j <= Qnat k.
Proof.
  intros H. unfold Qnat. rewrite <- Zle_Qle. lia.
Qed.

Lemma Qgt_bool_true (x y : Q) : Qgt_bool x y = true <-> y < x.
Proof.
  unfold Qgt_bool. rewrite negb_true_iff.
  split.
  - intros H. apply Qnot_le_lt. intros Hle.
    apply Qle_bool_iff in Hle. congruence.
  - intros H. destruct (Qle_bool x y) eqn:E; [|reflexivity].
    apply Qle_bool_iff in E. apply Qle_not_lt in E. contradiction.
Qed.

Lemma Qgt_bool_false (x y : Q) : Qgt_bool x y = false <-> x <= y.
Proof.
  unfold Qgt_bool. rewrite negb_false_iff. apply Qle_bool_iff.
Qed.

Lemma received_S (i : nat) (chunk : bytes) :
  recv p i = Data chunk -> received p (S i) = received p i ++ chunk.
Proof. intros H. cbn [received]. rewrite H. reflexivity. Qed.

Lemma received_S_timeout (i : nat) :
  recv p i = RecvTimeout -> received p (S i) = received p i.
Proof. intros H. cbn [received]. rewrite H. apply app_nil_r. Qed.

(** From iteration [i] on, with [d] bytes at least in [data] and [k]
    timeouts behind, the loop is left within the fuel that the two
    limits leave. *)
Lemma recv_loop_returns (K : nat) :
  0 < timeout -> max_time < Qnat K * timeout ->
  never_closes p -> clock_advances timeout p ->
  forall (fuel i : nat) (last : Q) (d k : nat),
    (d <= length (received p i))%nat ->
    clock p 0 + Qnat k * timeout <= clock p (S i) ->
    (N.to_nat max_data_size + 1 - d + (K - k) < fuel)%nat ->
    exists reason n,
      recv_loop timeout max_data_size max_time p fuel i (received p i)
                (clock p 0) last = Some (reason, received p n)
      /\ (reason = SizeExceeded \/ reason = TimeExceeded \/ reason = IdleTimeout).
Proof.
  intros Htimeout HK Hopen [Hmono Hwait].
  induction fuel as [|fuel IH]; intros i last d k Hd Hk Hfuel; [lia|].
  cbn [recv_loop].
  destruct (max_data_size <? len (received p i))%N eqn:Hsize.
  { exists SizeExceeded, i. split; [reflexivity | tauto]. }
  apply N.ltb_ge in Hsize. unfold len in Hsize.
  destruct (Qgt_bool (clock p (S i) - clock p 0) max_time) eqn:Htime.
  { exists TimeExceeded, i. split; [reflexivity | tauto]. }
  apply Qgt_bool_false in Htime.
  assert (Hk' : (k < K)%nat).
  { destruct (le_lt_dec K k) as [Hge|Hlt]; [|exact Hlt].
    exfalso. apply Qnat_le in Hge.
    assert (Qnat K * timeout <= Qnat k * timeout)
      by (apply Qmult_le_compat_r; [exact Hge | apply Qlt_le_weak, Htimeout]).
    lra. }
  destruct (Hopen i) as [Hto | (c & chunk & Hdata)].
  - rewrite Hto.
    destruct (Qgt_bool (clock p (S i) - last) timeout).
    { exists IdleTimeout, i. split; [reflexivity | tauto]. }
    rewrite <- (received_S_timeout i Hto).
    apply (IH (S i) last d (S k)).
    + rewrite (received_S_timeout i Hto). exact Hd.
    + specialize (Hwait i Hto). rewrite Qnat_S. lra.
    + lia.
  - rewrite Hdata.
    rewrite <- (received_S i _ Hdata).
    apply (IH (S i) (clock p (S i)) (S d) k).
    + rewrite (received_S i _ Hdata), length_app. simpl. lia.
    + specialize (Hmono (S i)). lra.
    + lia.
Qed.

(** Where and why the loop is left: at the first iteration that does
    not keep receiving, with the bytes received up to it (none after a
    socket error). *)
Lemma recv_loop_exit (fuel : nat) :
  forall (i : nat) (reason : exit_reason) (result : bytes),
    recv_loop timeout max_data_size max_time p fuel i (received p i)
              (clock p 0) (last_progress p i) = Some (reason, result) ->
    exists n,
      (i <= n < i + fuel)%nat
      /\ left_by timeout max_data_size max_time p reason n
      /\ (forall j, (i <= j < n)%nat ->
            keeps_receiving timeout max_data_size max_time p j)
      /\ result = match reason with
                  | SocketFailure => []
                  | _ => received p n
                  end.
Proof.
  induction fuel as [|fuel IH]; intros i reason result Hloop; [discriminate|].
  cbn [recv_loop] in Hloop.
  destruct (max_data_size <? len (received p i))%N eqn:Hsize.
  { injection Hloop as <- <-. exists i. apply N.ltb_lt in Hsize.
    split; [lia|]. split; [exact Hsize|]. split; [intros j Hj; lia | reflexivity]. }
  apply N.ltb_ge in Hsize.
  destruct (Qgt_bool (clock p (S i) - clock p 0) max_time) eqn:Htime.
  { injection Hloop as <- <-. exists i. apply Qgt_bool_true in Htime.
    split; [lia|]. split; [split; assumption|].
    split; [intros j Hj; lia | reflexivity]. }
  apply Qgt_bool_false in Htime.
  assert (Hwithin : within_limits max_data_size max_time p i) by (split; assumption).
  destruct (recv p i) as [[|c chunk]| |] eqn:Hrecv.
  - injection Hloop as <- <-. exists i.
    split; [lia|]. split; [split; [exact Hwithin | exact Hrecv]|].
    split; [intros j Hj; lia | reflexivity].
  - rewrite <- (received_S i _ Hrecv) in Hloop.
    replace (clock p (S i)) with (last_progress p (S i)) in Hloop
      by (cbn [last_progress]; rewrite Hrecv; reflexivity).
    destruct (IH (S i) reason result Hloop) as (n & Hn & Hleft & Hkeeps & Hresult).
    exists n. split; [lia|]. split; [exact Hleft|]. split; [|exact Hresult].
    intros j Hj. destruct (Nat.eq_dec j i) as [->|Hdiff]; [|apply Hkeeps; lia].
    split; [exact Hwithin|]. left. exists c, chunk. exact Hrecv.
  - destruct (Qgt_bool (clock p (S i) - last_progress p i) timeout) eqn:Hidle.
    + injection Hloop as <- <-. exists i. apply Qgt_bool_true in Hidle.
      split; [lia|].
      split; [split; [exact Hwithin | split; [exact Hrecv | exact Hidle]]|].
      split; [intros j Hj; lia | reflexivity].
    + apply Qgt_bool_false in Hidle.
      rewrite <- (received_S_timeout i Hrecv) in Hloop.
      replace (last_progress p i) with (last_progress p (S i)) in Hloop
        by (cbn [last_progress]; rewrite Hrecv; reflexivity).
      destruct (IH (S i) reason result Hloop) as (n & Hn & Hleft & Hkeeps & Hresult).
      exists n. split; [lia|]. split; [exact Hleft|]. split; [|exact Hresult].
      intros j Hj. destruct (Nat.eq_dec j i) as [->|Hdiff]; [|apply Hkeeps; lia].
      split; [exact Hwithin|]. right. split; [exact Hrecv | exact Hidle].
  - injection Hloop as <- <-. exists i.
    split; [lia|]. split; [split; [exact Hwithin | exact Hrecv]|].
    split; [intros j Hj; lia | reflexivity].
Qed.
End TransportFacts.

(** The loop of the fifth draft has no limit: against a peer that keeps
    sending it is never left, whatever the fuel. *)
Lemma recv_loop_05_never_returns (fuel i : nat) (data : bytes) :
  Transport.recv_loop_05 Scenarios.firehose_peer fuel i data = None.
Proof.
  revert i data. induction fuel as [|fuel IH]; intros i data; [reflexivity|].
  cbn [Transport.recv_loop_05]. apply IH.
Qed.

Lemma send_gopher_request_05_never_returns (fuel : nat) :
  Transport.send_gopher_request_05 Scenarios.firehose_peer fuel = None.
Proof. apply recv_loop_05_never_returns. Qed.

(** C3, counterexample.  A peer that closes after five bytes and a peer
    that stalls after five bytes leave the loop for different reasons,
    the second by a limit, and [send_gopher_request] returns the same
    value for both: the five bytes, with nothing that tells a cut-off
    response from a complete one. *)
Lemma truncation_is_not_reported :
  Scenarios.request_outcome Scenarios.closing_peer 5 =
    Some (Transport.PeerClosed, b "hello")
  /\ Scenarios.request_outcome Scenarios.stalling_peer 5 =
    Some (Transport.IdleTimeout, b "hello")
  /\ Scenarios.send_gopher_request Scenarios.closing_peer 5 = Some (b "hello")
  /\ Scenarios.send_gopher_request Scenarios.stalling_peer 5 = Some (b "hello").
Proof. repeat split; vm_compute; reflexivity. Qed.

(** C3, as amended.  Against a peer that never closes the connection,
    whether it keeps sending or stalls, [send_gopher_request] of
    gopher_client_08.py returns: within [max_data_size + K + 2]
    iterations when [K] timeouts exceed [max_time].  The loop is left by
    one of its three limits, at the first iteration [n] where one of
    them trips: every iteration before [n] kept receiving within the
    limits, and at [n] the limit named by the reason holds.  The value
    returned is the bytes received in those [n] receives, all of them
    and nothing else, alone. *)
Theorem send_gopher_request_returns (timeout max_time : Q) (max_data_size : N)
        (p : Transport.peer) (K : nat) :
  Transport.connecting p = Transport.Connected ->
  Transport.send_ok p = true ->
  (0 < timeout)%Q ->
  (max_time < Transport.Qnat K * timeout)%Q ->
  Transport.never_closes p ->
  Transport.clock_advances timeout p ->
  exists reason n,
    let fuel := (N.to_nat max_data_size + K + 2)%nat in
    Transport.request_outcome timeout max_data_size max_time p fuel =
      Some (reason, Transport.received p n)
    /\ (reason = Transport.SizeExceeded \/ reason = Transport.TimeExceeded
        \/ reason = Transport.IdleTimeout)
    /\ Transport.send_gopher_request timeout max_data_size max_time p fuel =
       Some (Transport.received p n)
    /\ (n < fuel)%nat
    /\ Transport.left_by timeout max_data_size max_time p reason n
    /\ (forall j, (j < n)%nat ->
          Transport.keeps_receiving timeout max_data_size max_time p j).
Proof.
  intros Hconn Hsend Htimeout HK Hopen Hclock.
  destruct (recv_loop_returns timeout max_data_size max_time p K Htimeout HK Hopen Hclock
              (N.to_nat max_data_size + K + 2)%nat 0%nat (Transport.clock p 0) 0%nat 0%nat)
    as (reason & m & Hloop & Hreason).
  - simpl. lia.
  - destruct Hclock as [Hmono _]. specialize (Hmono 0%nat).
    unfold Transport.Qnat. change (inject_Z (Z.of_nat 0)) with 0%Q. lra.
  - lia.
  - destruct (recv_loop_exit timeout max_data_size max_time p _ 0%nat reason _ Hloop)
      as (n & Hn & Hleft & Hkeeps & Hresult).
    assert (Hbytes : Transport.received p m = Transport.received p n).
    { destruct Hreason as [-> | [-> | ->]]; exact Hresult. }
    rewrite Hbytes in Hloop.
    exists reason, n. cbv zeta.
    unfold Transport.send_gopher_request, Transport.request_outcome.
    rewrite Hconn, Hsend.
    change (Transport.received p 0) with (@nil byte) in Hloop.
    rewrite Hloop.
    split; [reflexivity|]. split; [exact Hreason|]. split; [reflexivity|].
    split; [lia|]. split; [exact Hleft|].
    intros j Hj. apply Hkeeps. lia.
Qed.

Lemma send_gopher_request_returns_witness :
  exists reason n,
    Transport.request_outcome 10 8 30 Scenarios.firehose_peer (N.to_nat 8 + 4 + 2) =
      Some (reason, Transport.received Scenarios.firehose_peer n)
    /\ (reason = Transport.SizeExceeded \/ reason = Transport.TimeExceeded
        \/ reason = Transport.IdleTimeout)
    /\ Transport.send_gopher_request 10 8 30 Scenarios.firehose_peer (N.to_nat 8 + 4 + 2) =
       Some (Transport.received Scenarios.firehose_peer n)
    /\ (n < N.to_nat 8 + 4 + 2)%nat
    /\ Transport.left_by 10 8 30 Scenarios.firehose_peer reason n
    /\ (forall j, (j < n)%nat ->
          Transport.keeps_receiving 10 8 30 Scenarios.firehose_peer j).
Proof.
  apply (send_gopher_request_returns 10 30 8 Scenarios.firehose_peer 4).
  - reflexivity.
  - reflexivity.
  - reflexivity.
  - reflexivity.
  - intros i. right. exists "d"%byte, (b "ata"). reflexivity.
  - split.
    + intros i. apply Qle_refl.
    + intros i H. discriminate H.
Defined.

(** ** Crawl Engine *)

Lemma fold_left_invariant {A B} (P : A -> Prop) (f : A -> B -> A) (l : list B) :
  (forall a x, P a -> P (f a x)) -> forall a, P a -> P (fold_left f l a).
Proof.
  intros Hf. induction l as [|x l IH]; intros a Ha; [exact Ha|].
  cbn [fold_left]. apply IH, Hf, Ha.
Qed.

Lemma mem_true {A C} `{ElemOf A C} `{!forall (x : A) (X : C), Decision (x ∈ X)}
      (x : A) (X : C) : Crawl.mem x X = true <-> x ∈ X.
Proof. unfold Crawl.mem. apply bool_decide_eq_true. Qed.

Lemma mem_false {A C} `{ElemOf A C} `{!forall (x : A) (X : C), Decision (x ∈ X)}
      (x : A) (X : C) : Crawl.mem x X = false <-> x ∉ X.
Proof. unfold Crawl.mem. apply bool_decide_eq_false. Qed.

Ltac bool_hyps :=
  repeat match goal with
         | E : _ && _ = true |- _ => apply andb_prop in E as [? ?]
         | E : negb _ = true |- _ => apply negb_true_iff in E
         | E : negb _ = false |- _ => apply negb_false_iff in E
         | E : Crawl.mem _ _ = false |- _ => apply mem_false in E; cbn in E
         | E : Crawl.mem _ _ = true |- _ => apply mem_true in E; cbn in E
         end.

Ltac disjoint_after_append Hst :=
  let sel := fresh "sel" in
  let Ht := fresh "Ht" in
  let Hb := fresh "Hb" in
  intros sel; cbn; intros Ht Hb; bool_hyps;
  rewrite ?elem_of_app, ?list_elem_of_singleton in Ht;
  rewrite ?elem_of_app, ?list_elem_of_singleton in Hb;
  destruct_or?; subst; try contradiction; try (eapply Hst; eassumption).

Section EngineFacts.
Import Crawl.
Variable py_lower : str -> str.
Variable py_int : str -> option Z.
Variable w : world.

Lemma iterate_invariant (P : state -> Prop) :
  (forall st, P st -> P (step py_lower py_int w st)) ->
  forall n st, P st -> P (iterate py_lower py_int w n st).
Proof.
  intros Hstep. induction n as [|n IH]; intros st Hst; [exact Hst|].
  cbn [iterate]. destruct (running st); [|exact Hst].
  apply IH, Hstep, Hst.
Qed.

(** The queue after the safety check keeps its head. *)
Lemma truncated_queue_head {A} (x : A) (q : list A) :
  exists q',
    (if (max_queue_size <? length (x :: q))%nat
     then take max_queue_size (x :: q) else x :: q) = x :: q'
    /\ forall y, y ∈ q' -> y ∈ q.
Proof.
  destruct (max_queue_size <? length (x :: q))%nat.
  - change max_queue_size with (S 999). rewrite firstn_cons.
    exists (take 999 q). split; [reflexivity|].
    intros y Hy. exact (subseteq_take 999 q y Hy).
  - exists q. split; [reflexivity | tauto].
Qed.

(** One iteration, spelled out: the head of the queue is popped and
    counted, and dispatched unless it was visited before. *)
Lemma step_cases (st : state) :
  (selectors_to_visit st = [] /\ step py_lower py_int w st = st)
  \/ exists sel h p rest q',
      selectors_to_visit st = (sel, h, p) :: rest
      /\ (forall y, y ∈ q' -> y ∈ rest)
      /\ step py_lower py_int w st =
         let popped :=
           with_processed_count (fun n => n + 1)
             (with_selectors_to_visit (fun _ => q') st) in
         if mem sel (visited_selectors st) then popped
         else dispatch py_lower py_int w sel h p
                (with_visited_selectors (union {[sel]}) popped).
Proof.
  unfold step.
  destruct (selectors_to_visit st) as [|[[sel h] p] rest] eqn:Hq.
  - left. split; reflexivity.
  - right.
    destruct (truncated_queue_head (sel, h, p) rest) as (q' & -> & Hq').
    exists sel, h, p, rest, q'. split; [reflexivity|]. split; [exact Hq'|].
    reflexivity.
Qed.

(** *** The two file lists *)

Lemma process_item_files_disjoint (h : str) (p : Z) (st : state) (it : Parser.item) :
  files_disjoint st -> files_disjoint (process_item py_lower w h p st it).
Proof.
  intros Hst. unfold process_item, push.
  repeat case_match; try exact Hst; disjoint_after_append Hst.
Qed.

Lemma process_file_files_disjoint (sel : str) (response : bytes) (st : state) :
  files_disjoint st -> files_disjoint (process_file sel response st).
Proof.
  intros Hst. unfold process_file.
  repeat case_match; try exact Hst; disjoint_after_append Hst.
Qed.

Lemma dispatch_files_disjoint (sel h : str) (p : Z) (st : state) :
  files_disjoint st -> files_disjoint (dispatch py_lower py_int w sel h p st).
Proof.
  intros Hst. unfold dispatch.
  destruct (request w (trace st) h p sel) as [response duration].
  destruct response as [|c response]; [exact Hst|].
  destruct (match Parser.parse_gopher_menu py_int (c :: response) with
            | [] => _ | _ :: _ => true end).
  - apply fold_left_invariant.
    + intros a x. apply process_item_files_disjoint.
    + repeat case_match; exact Hst.
  - apply process_file_files_disjoint. case_match; exact Hst.
Qed.

Lemma step_files_disjoint (st : state) :
  files_disjoint st -> files_disjoint (step py_lower py_int w st).
Proof.
  intros Hst.
  destruct (step_cases st) as [[_ ->] | (sel & h & p & rest & q' & _ & _ & ->)];
    [exact Hst|].
  cbv zeta. destruct (mem sel (visited_selectors st)); [exact Hst|].
  apply dispatch_files_disjoint. exact Hst.
Qed.
End EngineFacts.

(** C10.  During a crawl no selector is in both [text_files] and
    [binary_files]: the lists are disjoint after any number of
    iterations, and every classification, of a menu entry or of the
    bytes of a file, keeps them so. *)
Theorem text_and_binary_files_stay_disjoint
        (py_lower : str -> str) (py_int : str -> option Z) (w : Crawl.world)
        (host : str) (port : Z) (n : nat) :
  Crawl.files_disjoint (Crawl.iterate py_lower py_int w n (Crawl.initial host port))
  /\ (forall st h p items,
        Crawl.files_disjoint st ->
        Crawl.files_disjoint (fold_left (Crawl.process_item py_lower w h p) items st))
  /\ (forall st sel response,
        Crawl.files_disjoint st ->
        Crawl.files_disjoint (Crawl.process_file sel response st)).
Proof.
  split; [|split].
  - apply iterate_invariant.
    + apply step_files_disjoint.
    + intros sel H. cbn in H. apply elem_of_nil in H. destruct H.
  - intros st h p items. apply fold_left_invariant.
    intros a x. apply process_item_files_disjoint.
  - intros st sel response. apply process_file_files_disjoint.
Qed.

Section DedupFacts.
Import Crawl.
Variable py_lower : str -> str.
Variable py_int : str -> option Z.
Variable w : world.

(** *** What an iteration leaves alone *)

Lemma process_item_visited (h : str) (p : Z) (st : state) (it : Parser.item) :
  visited_selectors (process_item py_lower w h p st it) = visited_selectors st.
Proof. unfold process_item, push. repeat case_match; reflexivity. Qed.

Lemma requested_skips_probe (h : str) (p : Z) (up : bool)
      (attempts : list (str * Z)) (tr : list event) :
  requested (ProbeCall h p up
             :: map (fun a => ProbeConnect a.1 a.2 up) attempts ++ tr)
  = requested tr.
Proof.
  unfold requested. cbn [omap list_omap].
  induction attempts as [|a attempts IH]; [reflexivity | exact IH].
Qed.

Lemma process_item_requested (h : str) (p : Z) (st : state) (it : Parser.item) :
  requested (trace (process_item py_lower w h p st it)) = requested (trace st).
Proof.
  unfold process_item, push. repeat case_match; try reflexivity.
  unfold with_external_servers, with_trace. cbn [trace].
  apply requested_skips_probe.
Qed.

Lemma process_items_visited (h : str) (p : Z) (items : list Parser.item) (st : state) :
  visited_selectors (fold_left (process_item py_lower w h p) items st)
  = visited_selectors st.
Proof.
  apply (fold_left_invariant (fun a => visited_selectors a = visited_selectors st)).
  - intros a x Ha. rewrite process_item_visited. exact Ha.
  - reflexivity.
Qed.

Lemma process_items_requested (h : str) (p : Z) (items : list Parser.item) (st : state) :
  requested (trace (fold_left (process_item py_lower w h p) items st))
  = requested (trace st).
Proof.
  apply (fold_left_invariant
           (fun a => requested (trace a) = requested (trace st))).
  - intros a x Ha. rewrite process_item_requested. exact Ha.
  - reflexivity.
Qed.

Lemma process_file_visited (sel : str) (response : bytes) (st : state) :
  visited_selectors (process_file sel response st) = visited_selectors st.
Proof. unfold process_file. repeat case_match; reflexivity. Qed.

Lemma process_file_trace (sel : str) (response : bytes) (st : state) :
  trace (process_file sel response st) = trace st.
Proof. unfold process_file. repeat case_match; reflexivity. Qed.

Lemma dispatch_visited (sel h : str) (p : Z) (st : state) :
  visited_selectors (dispatch py_lower py_int w sel h p st) = visited_selectors st.
Proof.
  unfold dispatch.
  destruct (request w (trace st) h p sel) as [response duration].
  destruct response as [|c response]; [reflexivity|].
  destruct (match Parser.parse_gopher_menu py_int (c :: response) with
            | [] => _ | _ :: _ => true end).
  - rewrite process_items_visited. repeat case_match; reflexivity.
  - rewrite process_file_visited. case_match; reflexivity.
Qed.

(** A dispatch calls the Transport once, with its selector. *)
Lemma dispatch_requested (sel h : str) (p : Z) (st : state) :
  requested (trace (dispatch py_lower py_int w sel h p st))
  = sel :: requested (trace st).
Proof.
  unfold dispatch.
  destruct (request w (trace st) h p sel) as [response duration].
  destruct response as [|c response]; [reflexivity|].
  destruct (match Parser.parse_gopher_menu py_int (c :: response) with
            | [] => _ | _ :: _ => true end).
  - rewrite process_items_requested. repeat case_match; reflexivity.
  - rewrite process_file_trace. case_match; reflexivity.
Qed.

(** Popping a selector that was dispatched before changes neither the
    visited set nor the trace. *)
Lemma step_on_visited (st : state) (sel h : str) (p : Z) (rest : list (str * str * Z)) :
  selectors_to_visit st = (sel, h, p) :: rest ->
  sel ∈ visited_selectors st ->
  visited_selectors (step py_lower py_int w st) = visited_selectors st
  /\ trace (step py_lower py_int w st) = trace st.
Proof.
  intros Hq Hvisited.
  destruct (step_cases py_lower py_int w st)
    as [[Hnil _] | (sel' & h' & p' & rest' & q' & Hq' & _ & ->)];
    [congruence|].
  rewrite Hq in Hq'. injection Hq' as <- <- <- <-.
  cbv zeta. rewrite (proj2 (mem_true sel (visited_selectors st)) Hvisited).
  split; reflexivity.
Qed.

Lemma step_dedup (st : state) :
  NoDup (requested (trace st)) /\
  (forall sel, sel ∈ requested (trace st) -> sel ∈ visited_selectors st) ->
  NoDup (requested (trace (step py_lower py_int w st))) /\
  (forall sel, sel ∈ requested (trace (step py_lower py_int w st)) ->
               sel ∈ visited_selectors (step py_lower py_int w st)).
Proof.
  intros [Hnodup Hsub].
  destruct (step_cases py_lower py_int w st)
    as [[_ ->] | (sel & h & p & rest & q' & _ & _ & ->)];
    [split; assumption|].
  cbv zeta.
  destruct (mem sel (visited_selectors st)) eqn:Hmem.
  { split; assumption. }
  apply mem_false in Hmem.
  rewrite dispatch_requested, dispatch_visited. cbn.
  split.
  - apply NoDup_cons. split; [|exact Hnodup].
    intros Hin. apply Hmem, Hsub, Hin.
  - intros s Hs. apply elem_of_cons in Hs as [->|Hs].
    + apply elem_of_union_l, elem_of_singleton. reflexivity.
    + apply elem_of_union_r, Hsub, Hs.
Qed.
End DedupFacts.

(** C4.  After any number of iterations of one crawl, the selectors the
    Transport was called with are pairwise distinct and all in the
    visited set; and when the selector popped from the queue is already
    in the visited set, the iteration changes neither the visited set
    nor the trace of network calls. *)
Theorem selector_is_dispatched_once
        (py_lower : str -> str) (py_int : str -> option Z) (w : Crawl.world)
        (host : str) (port : Z) (n : nat) :
  let st := Crawl.iterate py_lower py_int w n (Crawl.initial host port) in
  NoDup (Crawl.requested (Crawl.trace st))
  /\ (forall sel, sel ∈ Crawl.requested (Crawl.trace st) ->
                  sel ∈ Crawl.visited_selectors st)
  /\ (forall sel h p rest,
        Crawl.selectors_to_visit st = (sel, h, p) :: rest ->
        sel ∈ Crawl.visited_selectors st ->
        Crawl.visited_selectors (Crawl.step py_lower py_int w st)
          = Crawl.visited_selectors st
        /\ Crawl.trace (Crawl.step py_lower py_int w st) = Crawl.trace st).
Proof.
  intros st.
  assert (H : NoDup (Crawl.requested (Crawl.trace st)) /\
              (forall sel, sel ∈ Crawl.requested (Crawl.trace st) ->
                           sel ∈ Crawl.visited_selectors st)).
  { subst st.
    apply (iterate_invariant py_lower py_int w
             (fun st => NoDup (Crawl.requested (Crawl.trace st)) /\
                        (forall sel, sel ∈ Crawl.requested (Crawl.trace st) ->
                                     sel ∈ Crawl.visited_selectors st))).
    - apply step_dedup.
    - split; [apply NoDup_nil_2|].
      intros sel Hsel. cbn in Hsel. apply elem_of_nil in Hsel. destruct Hsel. }
  destruct H as [Hnodup Hsub].
  split; [exact Hnodup|]. split; [exact Hsub|].
  intros sel h p rest. apply step_on_visited.
Qed.

(** The directory listed twice is queued twice and requested once: when
    its second copy is popped, it is in the visited set and the
    iteration leaves the visited set as it is. *)
Lemma selector_is_dispatched_once_witness :
  Crawl.selectors_to_visit Scenarios.twice_listed_state
    = [(u "/docs/", u "example.org", 70%Z)]
  /\ u "/docs/" ∈ Crawl.visited_selectors Scenarios.twice_listed_state
  /\ Crawl.visited_selectors
       (Crawl.step Crawl.ascii_lower Parser.ascii_int Scenarios.twice_listed_world
                   Scenarios.twice_listed_state)
     = Crawl.visited_selectors Scenarios.twice_listed_state.
Proof.
  assert (Hq : Crawl.selectors_to_visit Scenarios.twice_listed_state
               = [(u "/docs/", u "example.org", 70%Z)])
    by (vm_compute; reflexivity).
  assert (Hv : u "/docs/" ∈ Crawl.visited_selectors Scenarios.twice_listed_state)
    by (apply (bool_decide_eq_true_1
                 (u "/docs/" ∈ Crawl.visited_selectors Scenarios.twice_listed_state));
        vm_compute; reflexivity).
  split; [exact Hq|]. split; [exact Hv|].
  exact (proj1 (proj2 (proj2
    (selector_is_dispatched_once Crawl.ascii_lower Parser.ascii_int
       Scenarios.twice_listed_world (u "example.org") 70 2))
    (u "/docs/") (u "example.org") 70%Z [] Hq Hv)).
Defined.

Section RoutingFacts.
Import Crawl.
Variable py_lower : str -> str.
Variable py_int : str -> option Z.
Variable w : world.

(** *** Same server *)

Lemma is_same_server_refl (h : str) (p : Z) :
  is_same_server py_lower h p h p = true.
Proof.
  unfold is_same_server.
  rewrite !bool_decide_eq_true_2 by reflexivity. reflexivity.
Qed.

Lemma is_same_server_trans (h1 h2 h3 : str) (p1 p2 p3 : Z) :
  is_same_server py_lower h1 p1 h2 p2 = true ->
  is_same_server py_lower h2 p2 h3 p3 = true ->
  is_same_server py_lower h1 p1 h3 p3 = true.
Proof.
  unfold is_same_server. intros H12 H23.
  apply andb_prop in H12 as [Ha Hb]. apply andb_prop in H23 as [Hc Hd].
  apply bool_decide_eq_true in Ha, Hb, Hc, Hd.
  rewrite !bool_decide_eq_true_2 by congruence. reflexivity.
Qed.

(** The trace grows by calls of the Prober only while a menu is
    expanded. *)
Lemma process_item_requests (h : str) (p : Z) (st : state) (it : Parser.item)
      (e : event) :
  (exists h' p' s r d, e = Request h' p' s r d) ->
  e ∈ trace (process_item py_lower w h p st it) <-> e ∈ trace st.
Proof.
  intros (h' & p' & s & r & d & ->).
  unfold process_item, push. repeat case_match; try reflexivity.
  unfold with_external_servers, with_trace. cbn [trace].
  rewrite elem_of_cons, elem_of_app, list_elem_of_fmap.
  split; [|tauto].
  intros [Heq | [(a & Heq & _) | Hin]]; [discriminate | discriminate | exact Hin].
Qed.

Lemma process_items_requests (h : str) (p : Z) (items : list Parser.item)
      (st : state) (e : event) :
  (exists h' p' s r d, e = Request h' p' s r d) ->
  e ∈ trace (fold_left (process_item py_lower w h p) items st) <-> e ∈ trace st.
Proof.
  intros He.
  apply (fold_left_invariant (fun a => e ∈ trace a <-> e ∈ trace st)).
  - intros a x Ha. rewrite process_item_requests by exact He. exact Ha.
  - reflexivity.
Qed.

(** A dispatch adds one request, its own, to those of the trace. *)
Lemma dispatch_requests (sel h : str) (p : Z) (st : state) (e : event) :
  (exists h' p' s r d, e = Request h' p' s r d) ->
  e ∈ trace (dispatch py_lower py_int w sel h p st) <->
  e = Request h p sel (request w (trace st) h p sel).1
                      (request w (trace st) h p sel).2
  \/ e ∈ trace st.
Proof.
  intros He. unfold dispatch.
  destruct (request w (trace st) h p sel) as [response duration]. cbn [fst snd].
  destruct response as [|c response].
  { cbn. apply elem_of_cons. }
  destruct (match Parser.parse_gopher_menu py_int (c :: response) with
            | [] => _ | _ :: _ => true end).
  - rewrite process_items_requests by exact He.
    repeat case_match; cbn; apply elem_of_cons.
  - rewrite process_file_trace. case_match; cbn; apply elem_of_cons.
Qed.

Lemma process_item_queue (h : str) (p : Z) (st : state) (it : Parser.item)
      (x : str * str * Z) :
  x ∈ selectors_to_visit (process_item py_lower w h p st it) ->
  x ∈ selectors_to_visit st
  \/ (x = (Parser.selector it, Parser.host it, Parser.port it)
      /\ is_same_server py_lower h p (Parser.host it) (Parser.port it) = true).
Proof.
  unfold process_item, push.
  repeat case_match; cbn; try tauto; bool_hyps.
  all: rewrite elem_of_app, list_elem_of_singleton; intros [?|?]; auto.
Qed.

(** An entry of another server is never queued, whatever its type. *)
Lemma process_item_external (h : str) (p : Z) (st : state) (it : Parser.item) :
  is_same_server py_lower h p (Parser.host it) (Parser.port it) = false ->
  selectors_to_visit (process_item py_lower w h p st it) = selectors_to_visit st
  /\ requested (trace (process_item py_lower w h p st it)) = requested (trace st)
  /\ ((len (Parser.selector it) <= 255)%N ->
      is_Some (external_servers (process_item py_lower w h p st it)
                 !! (Parser.host it, Parser.port it))).
Proof.
  intros Hext. split; [|split].
  - unfold process_item. rewrite Hext. cbn [negb]. repeat case_match; reflexivity.
  - apply process_item_requested.
  - intros Hshort. unfold process_item. rewrite Hext.
    replace (255 <? len (Parser.selector it)) with false
      by (symmetry; apply N.ltb_ge; exact Hshort).
    cbn [negb]. repeat case_match; cbn.
    + eauto.
    + rewrite lookup_insert_eq. eauto.
Qed.

Lemma process_items_on_root_server (host h : str) (port p : Z)
      (items : list Parser.item) (st : state) :
  is_same_server py_lower host port h p = true ->
  on_root_server py_lower host port st ->
  on_root_server py_lower host port (fold_left (process_item py_lower w h p) items st).
Proof.
  intros Hcur. apply fold_left_invariant.
  intros a it [Hq Htr]. split.
  - intros sel h' p' Hin.
    apply process_item_queue in Hin as [Hin | [Heq Hsame]].
    + exact (Hq _ _ _ Hin).
    + injection Heq as -> -> ->.
      exact (is_same_server_trans _ _ _ _ _ _ Hcur Hsame).
  - intros h' p' sel r d Hin.
    apply process_item_requests in Hin; [|eauto 10].
    exact (Htr _ _ _ _ _ Hin).
Qed.

Lemma process_file_queue (sel : str) (response : bytes) (st : state) :
  selectors_to_visit (process_file sel response st) = selectors_to_visit st.
Proof. unfold process_file. repeat case_match; reflexivity. Qed.

Lemma dispatch_on_root_server (host sel h : str) (port p : Z) (st : state) :
  is_same_server py_lower host port h p = true ->
  on_root_server py_lower host port st ->
  on_root_server py_lower host port (dispatch py_lower py_int w sel h p st).
Proof.
  intros Hcur [Hq Htr].
  assert (Hreq : forall h' p' s r d,
             Request h' p' s r d ∈ trace (dispatch py_lower py_int w sel h p st) ->
             is_same_server py_lower host port h' p' = true).
  { intros h' p' s r d Hin.
    apply dispatch_requests in Hin as [Heq | Hin]; [|exact (Htr _ _ _ _ _ Hin)|eauto 10].
    injection Heq as -> -> _ _ _. exact Hcur. }
  split; [|exact Hreq].
  unfold dispatch.
  destruct (request w (trace st) h p sel) as [response duration].
  destruct response as [|c response]; [exact Hq|].
  destruct (match Parser.parse_gopher_menu py_int (c :: response) with
            | [] => _ | _ :: _ => true end).
  - apply process_items_on_root_server; [exact Hcur|].
    split.
    + repeat case_match; exact Hq.
    + intros h' p' s r d Hin.
      assert (Hin' : Request h' p' s r d ∈
                     Request h p sel (c :: response) duration :: trace st)
        by (revert Hin; repeat case_match; cbn; tauto).
      apply elem_of_cons in Hin' as [Heq | Hin'].
      * injection Heq as -> -> _ _ _. exact Hcur.
      * exact (Htr _ _ _ _ _ Hin').
  - rewrite process_file_queue. case_match; exact Hq.
Qed.

Lemma step_on_root_server (host : str) (port : Z) (st : state) :
  on_root_server py_lower host port st ->
  on_root_server py_lower host port (step py_lower py_int w st).
Proof.
  intros [Hq Htr].
  destruct (step_cases py_lower py_int w st)
    as [[_ ->] | (sel & h & p & rest & q' & Hqueue & Hq' & ->)];
    [split; assumption|].
  assert (Hcur : is_same_server py_lower host port h p = true).
  { apply (Hq sel). rewrite Hqueue. left. }
  assert (Hrest : forall s h' p', (s, h', p') ∈ q' ->
                                  is_same_server py_lower host port h' p' = true).
  { intros s h' p' Hin. apply (Hq s). rewrite Hqueue. right. apply Hq', Hin. }
  cbv zeta. destruct (mem sel (visited_selectors st)).
  - split; [exact Hrest | exact Htr].
  - apply dispatch_on_root_server; [exact Hcur|].
    split; [exact Hrest | exact Htr].
Qed.
End RoutingFacts.

Section ProbeFacts.
Import Crawl.
Variable py_lower : str -> str.
Variable py_int : str -> option Z.
Variable w : world.

(** *** The Prober *)

Lemma check_external_server_unfold (c : str -> Z -> bool) (h : str) (p : Z) :
  Prober.check_external_server c h p =
  if probe_allowed h then (c (strip h) p, [(strip h, p)]) else (false, []).
Proof.
  unfold Prober.check_external_server, probe_allowed.
  destruct (strip h) as [|ch rest]; [reflexivity|].
  destruct (Prober.has_invalid_char (ch :: rest)); reflexivity.
Qed.

Lemma probe_calls_after_call (h : str) (p : Z) (up : bool)
      (attempts : list (str * Z)) (tr : list event) :
  probe_calls (ProbeCall h p up
               :: map (fun a => ProbeConnect a.1 a.2 up) attempts ++ tr)
  = (h, p, up) :: probe_calls tr.
Proof.
  unfold probe_calls. cbn [omap list_omap]. f_equal.
  induction attempts as [|a attempts IH]; [reflexivity | exact IH].
Qed.

Lemma probe_connects_after_call (h : str) (p : Z) (up : bool)
      (attempts : list (str * Z)) (tr : list event) :
  probe_connects (ProbeCall h p up
                  :: map (fun a => ProbeConnect a.1 a.2 up) attempts ++ tr)
  = map (fun a => (a.1, a.2, up)) attempts ++ probe_connects tr.
Proof.
  unfold probe_connects. cbn [omap list_omap].
  induction attempts as [|a attempts IH]; [reflexivity|].
  cbn. f_equal. exact IH.
Qed.

Lemma probes_consistent_same (st st' : state) :
  external_servers st' = external_servers st ->
  probe_calls (trace st') = probe_calls (trace st) ->
  probe_connects (trace st') = probe_connects (trace st) ->
  probes_consistent st -> probes_consistent st'.
Proof.
  unfold probes_consistent. intros -> -> ->. tauto.
Qed.

Lemma process_item_probes (h : str) (p : Z) (st : state) (it : Parser.item) :
  probes_consistent st -> probes_consistent (process_item py_lower w h p st it).
Proof.
  intros Hst. unfold process_item, push.
  repeat case_match; try exact Hst.
  destruct Hst as (Hnodup & Hmap & Hconn).
  unfold probes_consistent, with_external_servers, with_trace.
  cbn [trace external_servers].
  rewrite probe_calls_after_call, probe_connects_after_call.
  match goal with
  | E : Prober.check_external_server _ _ _ = _ |- _ =>
    rewrite check_external_server_unfold in E
  end.
  split; [|split].
  - cbn [map fst]. apply NoDup_cons. split; [|exact Hnodup].
    intros Hin. apply list_elem_of_fmap in Hin as ([[h' p'] up'] & Heq & Hin).
    cbn in Heq. injection Heq as <- <-.
    apply Hmap in Hin. congruence.
  - intros h' p' up'. rewrite elem_of_cons.
    destruct (decide ((h', p') = (Parser.host it, Parser.port it))) as [Heq|Hne].
    + injection Heq as -> ->. rewrite lookup_insert_eq. split.
      * intros [= ->]. left. reflexivity.
      * intros [[= ->] | Hin]; [reflexivity|].
        apply Hmap in Hin. congruence.
    + rewrite lookup_insert_ne by congruence. rewrite Hmap. split.
      * tauto.
      * intros [[= -> -> _] | Hin]; [congruence | exact Hin].
  - cbn [omap list_omap]. rewrite Hconn.
    destruct (probe_allowed (Parser.host it)) eqn:Hallowed;
      match goal with E : _ = (_, _) |- _ => injection E as <- <- end;
      unfold attempt_of; cbn [fst snd]; rewrite Hallowed; reflexivity.
Qed.

Lemma process_file_external_servers (sel : str) (response : bytes) (st : state) :
  external_servers (process_file sel response st) = external_servers st.
Proof. unfold process_file. repeat case_match; reflexivity. Qed.

Lemma dispatch_probes (sel h : str) (p : Z) (st : state) :
  probes_consistent st -> probes_consistent (dispatch py_lower py_int w sel h p st).
Proof.
  intros Hst. unfold dispatch.
  destruct (request w (trace st) h p sel) as [response duration].
  destruct response as [|c response]; [exact Hst|].
  destruct (match Parser.parse_gopher_menu py_int (c :: response) with
            | [] => _ | _ :: _ => true end).
  - apply fold_left_invariant.
    + intros a x. apply process_item_probes.
    + repeat case_match; exact Hst.
  - eapply probes_consistent_same; [| | |exact Hst].
    + rewrite process_file_external_servers. case_match; reflexivity.
    + rewrite process_file_trace. case_match; reflexivity.
    + rewrite process_file_trace. case_match; reflexivity.
Qed.

Lemma step_probes (st : state) :
  probes_consistent st -> probes_consistent (step py_lower py_int w st).
Proof.
  intros Hst.
  destruct (step_cases py_lower py_int w st)
    as [[_ ->] | (sel & h & p & rest & q' & _ & _ & ->)];
    [exact Hst|].
  cbv zeta. destruct (mem sel (visited_selectors st)); [exact Hst|].
  apply dispatch_probes. exact Hst.
Qed.
End ProbeFacts.

(** C5, counterexample.  The root menu points to another server whose
    host name has a control character.  The crawl calls
    [check_external_server] for it and records it as down, and no
    connection is attempted, although every connection would succeed.
    And an entry of another server whose selector has 256 characters
    is passed over: the Prober is not called for it at all. *)
Lemma control_host_is_never_connected :
  option_map (fun st => (Crawl.probe_calls (Crawl.trace st),
                         Crawl.probe_connects (Crawl.trace st),
                         map_to_list (Crawl.external_servers st)))
             (Scenarios.crawl Scenarios.control_host_world "example.org")
  = Some ([(Scenarios.control_host, 70%Z, false)], [],
          [((Scenarios.control_host, 70%Z), false)])
  /\ option_map (fun st => (length (Parser.parse_gopher_menu Parser.ascii_int
                                      Scenarios.long_selector_menu),
                            Crawl.probe_calls (Crawl.trace st),
                            map_to_list (Crawl.external_servers st)))
                (Scenarios.crawl Scenarios.long_selector_world "example.org")
     = Some (1%nat, [], []).
Proof. split; vm_compute; reflexivity. Qed.

(** C5, as amended.  After any number of iterations, every queued
    triple and every request is on the server the crawl started from in
    the sense of [is_same_server]; an entry of another server is never
    queued and never requested, and, its selector being at most 255
    characters long, its key is in [external_servers] once it has been
    processed.  [check_external_server] was called once per key; the
    map holds the result of that call; and a call has made one
    connection attempt when the stripped host is not empty and made of
    characters from space to tilde, and none otherwise. *)
Theorem external_entry_is_probed_once
        (py_lower : str -> str) (py_int : str -> option Z) (w : Crawl.world)
        (host : str) (port : Z) (n : nat) :
  let st := Crawl.iterate py_lower py_int w n (Crawl.initial host port) in
  Crawl.on_root_server py_lower host port st
  /\ Crawl.probes_consistent st
  /\ (forall st' h p it,
        Crawl.is_same_server py_lower h p (Parser.host it) (Parser.port it) = false ->
        Crawl.selectors_to_visit (Crawl.process_item py_lower w h p st' it)
          = Crawl.selectors_to_visit st'
        /\ Crawl.requested (Crawl.trace (Crawl.process_item py_lower w h p st' it))
          = Crawl.requested (Crawl.trace st')
        /\ ((len (Parser.selector it) <= 255)%N ->
            is_Some (Crawl.external_servers (Crawl.process_item py_lower w h p st' it)
                       !! (Parser.host it, Parser.port it)))).
Proof.
  intros st. split; [|split].
  - subst st. apply iterate_invariant.
    + apply step_on_root_server.
    + split.
      * intros sel h p Hin. cbn in Hin.
        apply list_elem_of_singleton in Hin. injection Hin as _ -> ->.
        apply is_same_server_refl.
      * intros h p sel r d Hin. cbn in Hin. apply elem_of_nil in Hin. destruct Hin.
  - subst st. apply iterate_invariant.
    + apply step_probes.
    + split; [apply NoDup_nil_2|]. split; [|reflexivity].
      intros h p up. cbn. rewrite lookup_empty. split; [discriminate|].
      intros Hin. apply elem_of_nil in Hin. destruct Hin.
  - intros st' h p it. apply process_item_external.
Qed.

(** The entry of [control_host_menu] is on another server than
    [example.org]: processing it leaves the queue as it is and puts its
    key into [external_servers]. *)
Lemma external_entry_is_probed_once_witness :
  Crawl.is_same_server Crawl.ascii_lower (u "example.org") 70
    (Parser.host Scenarios.control_host_item)
    (Parser.port Scenarios.control_host_item) = false
  /\ Crawl.selectors_to_visit
       (Crawl.process_item Crawl.ascii_lower Scenarios.control_host_world
          (u "example.org") 70 (Crawl.initial (u "example.org") 70)
          Scenarios.control_host_item)
     = Crawl.selectors_to_visit (Crawl.initial (u "example.org") 70).
Proof.
  assert (Hext : Crawl.is_same_server Crawl.ascii_lower (u "example.org") 70
                   (Parser.host Scenarios.control_host_item)
                   (Parser.port Scenarios.control_host_item) = false)
    by (vm_compute; reflexivity).
  split; [exact Hext|].
  exact (proj1 (proj2 (proj2
    (external_entry_is_probed_once Crawl.ascii_lower Parser.ascii_int
       Scenarios.control_host_world (u "example.org") 70 0))
    (Crawl.initial (u "example.org") 70) (u "example.org") 70%Z
    Scenarios.control_host_item Hext)).
Defined.

(** ** External Server Prober *)

(** C8, counterexample.  For a host with a control character, and for a
    host with a letter outside ASCII, [check_external_server] answers
    false without any connection attempt, even where every connection
    would succeed; and the report does not skip the first of them. *)
Lemma invalid_host_gets_no_attempt :
  Prober.check_external_server (fun _ _ => true) Scenarios.control_host 70
    = (false, [])
  /\ Prober.check_external_server (fun _ _ => true) Scenarios.accented_host 70
    = (false, [])
  /\ Prober.reported Scenarios.control_host = true.
Proof. repeat split; vm_compute; reflexivity. Qed.

(** The report skips a host exactly when one of its characters is above
    127. *)
Lemma reported_iff (host : str) :
  Prober.reported host = false <-> exists c, c ∈ host /\ 127 < c.
Proof.
  unfold Prober.reported. rewrite negb_false_iff. split.
  - intros H. apply existsb_exists in H as (c & Hin & Hc).
    exists c. split; [apply list_elem_of_In; exact Hin | apply N.ltb_lt; exact Hc].
  - intros (c & Hin & Hc). apply existsb_exists. exists c.
    split; [apply list_elem_of_In; exact Hin | apply N.ltb_lt; exact Hc].
Qed.

(** C8, as amended.  When the host of an entry of another server, once
    stripped, has a character below space or above tilde,
    [check_external_server] makes no connection attempt and answers
    false; the engine records that answer under the key like any other
    result, and the trace gains the call alone.  The report skips a
    host only for a character above 127: a host is left out of it
    exactly when it has such a character, so the entry recorded here
    is printed, as down, whenever all the characters of its host are
    at most 127, control characters included. *)
Theorem invalid_host_is_recorded_down
        (py_lower : str -> str) (w : Crawl.world)
        (h : str) (p : Z) (st : Crawl.state) (it : Parser.item) :
  Prober.has_invalid_char (strip (Parser.host it)) = true ->
  (len (Parser.selector it) <= 255)%N ->
  Crawl.is_same_server py_lower h p (Parser.host it) (Parser.port it) = false ->
  Crawl.external_servers st !! (Parser.host it, Parser.port it) = None ->
  (forall connect,
      Prober.check_external_server connect (Parser.host it) (Parser.port it)
      = (false, []))
  /\ Crawl.external_servers (Crawl.process_item py_lower w h p st it)
     = <[(Parser.host it, Parser.port it) := false]> (Crawl.external_servers st)
  /\ Crawl.trace (Crawl.process_item py_lower w h p st it)
     = Crawl.ProbeCall (Parser.host it) (Parser.port it) false :: Crawl.trace st
  /\ (forall host, Prober.reported host = false <-> exists c, c ∈ host /\ 127 < c)
  /\ ((forall c, c ∈ Parser.host it -> c <= 127) ->
      Prober.reported (Parser.host it) = true
      /\ Crawl.external_servers (Crawl.process_item py_lower w h p st it)
           !! (Parser.host it, Parser.port it) = Some false).
Proof.
  intros Hbad Hshort Hext Hnew.
  assert (Hcheck : forall connect,
             Prober.check_external_server connect (Parser.host it) (Parser.port it)
             = (false, [])).
  { intros connect. unfold Prober.check_external_server.
    destruct (strip (Parser.host it)) as [|c rest]; [reflexivity|].
    rewrite Hbad. reflexivity. }
  split; [exact Hcheck|].
  assert (Hrecorded :
            Crawl.external_servers (Crawl.process_item py_lower w h p st it)
            = <[(Parser.host it, Parser.port it) := false]>
                (Crawl.external_servers st)
            /\ Crawl.trace (Crawl.process_item py_lower w h p st it)
               = Crawl.ProbeCall (Parser.host it) (Parser.port it) false
                 :: Crawl.trace st).
  { unfold Crawl.process_item. rewrite Hext, Hnew, Hcheck.
    replace (255 <? len (Parser.selector it)) with false
      by (symmetry; apply N.ltb_ge; exact Hshort).
    split; reflexivity. }
  destruct Hrecorded as [Hservers Htrace].
  split; [exact Hservers|]. split; [exact Htrace|].
  split; [exact reported_iff|].
  intros Hascii. split.
  - destruct (Prober.reported (Parser.host it)) eqn:Hrep; [reflexivity|].
    apply reported_iff in Hrep as (c & Hin & Hc).
    specialize (Hascii c Hin). lia.
  - rewrite Hservers. apply lookup_insert_eq.
Qed.

Lemma invalid_host_is_recorded_down_witness :
  Crawl.trace
    (Crawl.process_item Crawl.ascii_lower Scenarios.control_host_world
       (u "example.org") 70 (Crawl.initial (u "example.org") 70)
       Scenarios.control_host_item)
  = [Crawl.ProbeCall Scenarios.control_host 70 false]
  /\ Prober.reported Scenarios.control_host = true.
Proof.
  destruct (invalid_host_is_recorded_down
              Crawl.ascii_lower Scenarios.control_host_world
              (u "example.org") 70 (Crawl.initial (u "example.org") 70)
              Scenarios.control_host_item)
    as (_ & _ & Htrace & _ & Hprinted).
  - vm_compute. reflexivity.
  - vm_compute. discriminate.
  - vm_compute. reflexivity.
  - vm_compute. reflexivity.
  - split; [exact Htrace|]. apply Hprinted.
    intros c Hc. vm_compute in Hc.
    repeat (apply elem_of_cons in Hc as [->|Hc]; [vm_compute; discriminate|]).
    apply elem_of_nil in Hc. destruct Hc.
Defined.

(** ** Statistics Aggregator *)

Section StatsFacts.
Import Stats.
Variable file_sizes : gmap str N.

(** What the four variables hold once the files of [seen] have been
    scanned. *)
Let smallest_ok (seen : list str) (e : extremes) : Prop :=
  (smallest_file e = None /\ smallest_size e = Infinity
   /\ forall g, g ∈ seen -> file_sizes !! g = None)
  \/ exists f n,
      smallest_file e = Some f /\ smallest_size e = Finite n
      /\ f ∈ seen /\ file_sizes !! f = Some n
      /\ forall g m, g ∈ seen -> file_sizes !! g = Some m -> n <= m.

Let largest_ok (seen : list str) (e : extremes) : Prop :=
  (largest_file e = None /\ largest_size e = 0
   /\ forall g m, g ∈ seen -> file_sizes !! g = Some m -> m = 0)
  \/ exists f,
      largest_file e = Some f
      /\ f ∈ seen /\ file_sizes !! f = Some (largest_size e)
      /\ forall g m, g ∈ seen -> file_sizes !! g = Some m -> m <= largest_size e.

Lemma scan_file_fields (e : extremes) (file : str) :
  let e' := scan_file file_sizes e file in
  match file_sizes !! file with
  | None => e' = e
  | Some size =>
    smallest_file e' = (if below size (smallest_size e) then Some file else smallest_file e)
    /\ smallest_size e' = (if below size (smallest_size e) then Finite size else smallest_size e)
    /\ largest_file e' = (if largest_size e <? size then Some file else largest_file e)
    /\ largest_size e' = (if largest_size e <? size then size else largest_size e)
  end.
Proof.
  unfold scan_file. destruct (file_sizes !! file) as [size|]; [|reflexivity].
  destruct (below size (smallest_size e)); cbn [largest_size];
    destruct (largest_size e <? size); repeat split; reflexivity.
Qed.

Ltac seen_cases Hg :=
  apply elem_of_app in Hg as [Hg|Hg];
  [|apply list_elem_of_singleton in Hg; subst].

Lemma scan_file_smallest (seen : list str) (e : extremes) (file : str) :
  smallest_ok seen e -> smallest_ok (seen ++ [file]) (scan_file file_sizes e file).
Proof.
  unfold smallest_ok.
  pose proof (scan_file_fields e file) as Hfields. cbv zeta in Hfields.
  destruct (file_sizes !! file) as [size|] eqn:Hlook.
  - destruct Hfields as (-> & -> & _ & _).
    intros [(Hfile & Hsize & Hnone) | (f & n & Hfile & Hsize & Hin & Hf & Hmin)].
    + right. exists file, size. rewrite Hsize. cbn [below].
      split; [reflexivity|]. split; [reflexivity|].
      split; [apply elem_of_app; right; left|]. split; [exact Hlook|].
      intros g m Hg Hgm. seen_cases Hg.
      * rewrite (Hnone g Hg) in Hgm. discriminate.
      * rewrite Hlook in Hgm. injection Hgm as <-. lia.
    + right. rewrite Hsize. cbn [below]. destruct (size <? n) eqn:Hlt.
      * apply N.ltb_lt in Hlt. exists file, size.
        split; [reflexivity|]. split; [reflexivity|].
        split; [apply elem_of_app; right; left|]. split; [exact Hlook|].
        intros g m Hg Hgm. seen_cases Hg.
        -- specialize (Hmin g m Hg Hgm). lia.
        -- rewrite Hlook in Hgm. injection Hgm as <-. lia.
      * apply N.ltb_ge in Hlt. exists f, n.
        split; [exact Hfile|]. split; [reflexivity|].
        split; [apply elem_of_app; left; exact Hin|]. split; [exact Hf|].
        intros g m Hg Hgm. seen_cases Hg.
        -- exact (Hmin g m Hg Hgm).
        -- rewrite Hlook in Hgm. injection Hgm as <-. lia.
  - rewrite Hfields.
    intros [(Hfile & Hsize & Hnone) | (f & n & Hfile & Hsize & Hin & Hf & Hmin)].
    + left. split; [exact Hfile|]. split; [exact Hsize|].
      intros g Hg. seen_cases Hg; [exact (Hnone g Hg) | exact Hlook].
    + right. exists f, n.
      split; [exact Hfile|]. split; [exact Hsize|].
      split; [apply elem_of_app; left; exact Hin|]. split; [exact Hf|].
      intros g m Hg Hgm. seen_cases Hg; [exact (Hmin g m Hg Hgm) | congruence].
Qed.

Lemma scan_file_largest (seen : list str) (e : extremes) (file : str) :
  largest_ok seen e -> largest_ok (seen ++ [file]) (scan_file file_sizes e file).
Proof.
  unfold largest_ok.
  pose proof (scan_file_fields e file) as Hfields. cbv zeta in Hfields.
  destruct (file_sizes !! file) as [size|] eqn:Hlook.
  - destruct Hfields as (_ & _ & -> & ->).
    destruct (largest_size e <? size) eqn:Hlt.
    + apply N.ltb_lt in Hlt. intros Hold. right. exists file.
      split; [reflexivity|]. split; [apply elem_of_app; right; left|].
      split; [exact Hlook|].
      intros g m Hg Hgm. seen_cases Hg.
      * destruct Hold as [(_ & _ & Hzero) | (f & _ & _ & _ & Hmax)].
        -- rewrite (Hzero g m Hg Hgm). lia.
        -- specialize (Hmax g m Hg Hgm). lia.
      * rewrite Hlook in Hgm. injection Hgm as <-. lia.
    + apply N.ltb_ge in Hlt.
      intros [(Hfile & Hsize & Hzero) | (f & Hfile & Hin & Hf & Hmax)].
      * left. split; [exact Hfile|]. split; [exact Hsize|].
        intros g m Hg Hgm. seen_cases Hg; [exact (Hzero g m Hg Hgm)|].
        rewrite Hlook in Hgm. injection Hgm as <-. lia.
      * right. exists f. split; [exact Hfile|].
        split; [apply elem_of_app; left; exact Hin|]. split; [exact Hf|].
        intros g m Hg Hgm. seen_cases Hg; [exact (Hmax g m Hg Hgm)|].
        rewrite Hlook in Hgm. injection Hgm as <-. lia.
  - rewrite Hfields.
    intros [(Hfile & Hsize & Hzero) | (f & Hfile & Hin & Hf & Hmax)].
    + left. split; [exact Hfile|]. split; [exact Hsize|].
      intros g m Hg Hgm. seen_cases Hg; [exact (Hzero g m Hg Hgm) | congruence].
    + right. exists f. split; [exact Hfile|].
      split; [apply elem_of_app; left; exact Hin|]. split; [exact Hf|].
      intros g m Hg Hgm. seen_cases Hg; [exact (Hmax g m Hg Hgm) | congruence].
Qed.

Lemma fold_scan_file (files seen : list str) (e : extremes) :
  smallest_ok seen e /\ largest_ok seen e ->
  smallest_ok (seen ++ files) (fold_left (scan_file file_sizes) files e)
  /\ largest_ok (seen ++ files) (fold_left (scan_file file_sizes) files e).
Proof.
  revert seen e. induction files as [|file files IH]; intros seen e [Hs Hl].
  - rewrite app_nil_r. split; assumption.
  - cbn [fold_left].
    replace (seen ++ file :: files) with ((seen ++ [file]) ++ files)
      by (rewrite <- app_assoc; reflexivity).
    apply IH. split; [apply scan_file_smallest | apply scan_file_largest]; assumption.
Qed.

(** The extremes of a list of files: the smallest and the largest among
    those that have a size, or nothing. *)
Lemma file_extremes_spec (files : list str) :
  let e := file_extremes file_sizes files in
  ((smallest_file e = None /\ smallest_size e = Infinity
    /\ forall g, g ∈ files -> file_sizes !! g = None)
   \/ exists f n,
       smallest_file e = Some f /\ smallest_size e = Finite n
       /\ f ∈ files /\ file_sizes !! f = Some n
       /\ forall g m, g ∈ files -> file_sizes !! g = Some m -> n <= m)
  /\ ((largest_file e = None /\ largest_size e = 0
       /\ forall g m, g ∈ files -> file_sizes !! g = Some m -> m = 0)
      \/ exists f,
          largest_file e = Some f
          /\ f ∈ files /\ file_sizes !! f = Some (largest_size e)
          /\ forall g m, g ∈ files -> file_sizes !! g = Some m -> m <= largest_size e).
Proof.
  intros e. subst e. unfold file_extremes.
  apply (fold_scan_file files [] no_extremes).
  split; left; cbn.
  - split; [reflexivity|]. split; [reflexivity|].
    intros g Hg. apply elem_of_nil in Hg. destruct Hg.
  - split; [reflexivity|]. split; [reflexivity|].
    intros g m Hg. apply elem_of_nil in Hg. destruct Hg.
Qed.
End StatsFacts.

Lemma truthy_some (file : option str) (f : str) :
  Stats.truthy file = Some f -> file = Some f.
Proof.
  destruct file as [[|c s]|]; cbn; intros H; try discriminate.
  injection H as <-. reflexivity.
Qed.

(** The summary of gopher_client_08.py: a printed extreme is a file of
    the list that is not problematic, with its own size, which is the
    least (the greatest) of the sizes of the files that are not
    problematic; the smallest size printed is never the sentinel; and
    when no file that is not problematic has a size, nothing is printed
    and no file is chosen. *)
Theorem extremes_leave_out_problematic
        (problematic : gset str) (file_sizes : gmap str N) (files : list str) :
  let e := Stats.summary problematic file_sizes files in
  (forall file size,
      Stats.printed_smallest e = Some (file, size) ->
      file ∈ files /\ (file ∉ problematic)
      /\ exists n, size = Stats.Finite n /\ file_sizes !! file = Some n
         /\ forall g m, g ∈ files -> g ∉ problematic ->
                        file_sizes !! g = Some m -> n <= m)
  /\ (forall file size,
        Stats.printed_largest e = Some (file, size) ->
        file ∈ files /\ (file ∉ problematic)
        /\ file_sizes !! file = Some size
        /\ forall g m, g ∈ files -> g ∉ problematic ->
                       file_sizes !! g = Some m -> m <= size)
  /\ ((forall g, g ∈ files -> g ∉ problematic -> file_sizes !! g = None) ->
      Stats.printed_smallest e = None /\ Stats.printed_largest e = None
      /\ Stats.smallest_file e = None /\ Stats.largest_file e = None)
  /\ Stats.printed_problematic problematic = problematic.
Proof.
  intros e.
  assert (Hclean : forall g, g ∈ Stats.clean problematic files <->
                             g ∈ files /\ g ∉ problematic).
  { intros g. unfold Stats.clean. rewrite list_elem_of_filter. tauto. }
  destruct (file_extremes_spec file_sizes (Stats.clean problematic files))
    as [Hsmall Hlarge].
  fold (Stats.summary problematic file_sizes files) in Hsmall, Hlarge.
  fold e in Hsmall, Hlarge.
  split; [|split; [|split; [|reflexivity]]].
  - intros file size. unfold Stats.printed_smallest.
    destruct (Stats.truthy (Stats.smallest_file e)) as [f|] eqn:Ht; [|discriminate].
    intros [= -> <-]. apply truthy_some in Ht.
    destruct Hsmall as [(Hnone & _) | (f & n & Hf & Hsize & Hin & Hlook & Hmin)];
      [congruence|].
    assert (f = file) by congruence. subst f.
    apply Hclean in Hin as [Hin Hok].
    split; [exact Hin|]. split; [exact Hok|].
    exists n. split; [exact Hsize|]. split; [exact Hlook|].
    intros g m Hg Hgok. apply Hmin, Hclean. tauto.
  - intros file size. unfold Stats.printed_largest.
    destruct (Stats.truthy (Stats.largest_file e)) as [f|] eqn:Ht; [|discriminate].
    intros [= -> <-]. apply truthy_some in Ht.
    destruct Hlarge as [(Hnone & _) | (f & Hf & Hin & Hlook & Hmax)];
      [congruence|].
    assert (f = file) by congruence. subst f.
    apply Hclean in Hin as [Hin Hok].
    split; [exact Hin|]. split; [exact Hok|]. split; [exact Hlook|].
    intros g m Hg Hgok. apply Hmax, Hclean. tauto.
  - intros Hnone.
    assert (Hs : Stats.smallest_file e = None).
    { destruct Hsmall as [(H & _) | (f & n & _ & _ & Hin & Hlook & _)]; [exact H|].
      apply Hclean in Hin as [Hin Hok]. rewrite (Hnone f Hin Hok) in Hlook.
      discriminate. }
    assert (Hl : Stats.largest_file e = None).
    { destruct Hlarge as [(H & _) | (f & _ & Hin & Hlook & _)]; [exact H|].
      apply Hclean in Hin as [Hin Hok]. rewrite (Hnone f Hin Hok) in Hlook.
      discriminate. }
    unfold Stats.printed_smallest, Stats.printed_largest.
    rewrite Hs, Hl. cbn. tauto.
Qed.

(** The example of the specification: of three files of 10, 100 and 10
    bytes with the third one problematic, the first is the smallest
    and the second the largest. *)
Lemma three_files_extremes :
  let e := Stats.summary Scenarios.one_problem Scenarios.three_sizes
                         Scenarios.three_files in
  Stats.printed_smallest e = Some (u "/a", Stats.Finite 10)
  /\ Stats.printed_largest e = Some (u "/b", 100).
Proof. vm_compute. split; reflexivity. Qed.

(** C9, the code at the failing input.  The first draft, run against a
    server that has one text file and no binary file, prints the
    sentinel as the size of the smallest binary file. *)
Theorem first_draft_prints_the_sentinel :
  Scenarios.draft1_run Scenarios.text_only_server
  = Some (Draft1.Summary (u "hi") 2 Stats.Infinity 0).
Proof. vm_compute. reflexivity. Qed.

(** ** Completion and failures *)

Section CompletionFacts.
Import Crawl.
Variable py_lower : str -> str.
Variable py_int : str -> option Z.
Variable w : world.

Lemma process_item_processed_count (h : str) (p : Z) (st : state) (it : Parser.item) :
  processed_count (process_item py_lower w h p st it) = processed_count st.
Proof. unfold process_item, push. repeat case_match; reflexivity. Qed.

Lemma process_item_problematic (h : str) (p : Z) (st : state) (it : Parser.item) :
  problematic_resources (process_item py_lower w h p st it) = problematic_resources st.
Proof. unfold process_item, push. repeat case_match; reflexivity. Qed.

Lemma process_item_invalid (h : str) (p : Z) (st : state) (it : Parser.item) :
  invalid_references st ⊆ invalid_references (process_item py_lower w h p st it).
Proof.
  unfold process_item, push. repeat case_match; cbn; try reflexivity.
  apply union_subseteq_r.
Qed.

Lemma process_items_frame (h : str) (p : Z) (items : list Parser.item) (st : state) :
  let st' := fold_left (process_item py_lower w h p) items st in
  processed_count st' = processed_count st
  /\ problematic_resources st' = problematic_resources st
  /\ invalid_references st ⊆ invalid_references st'.
Proof.
  apply (fold_left_invariant
           (fun a => processed_count a = processed_count st
                     /\ problematic_resources a = problematic_resources st
                     /\ invalid_references st ⊆ invalid_references a)).
  - intros a x (Hc & Hp & Hi).
    rewrite process_item_processed_count, process_item_problematic.
    split; [exact Hc|]. split; [exact Hp|].
    etransitivity; [exact Hi | apply process_item_invalid].
  - split; [reflexivity|]. split; reflexivity.
Qed.

Lemma process_file_frame (sel : str) (response : bytes) (st : state) :
  let st' := process_file sel response st in
  processed_count st' = processed_count st
  /\ problematic_resources st' = problematic_resources st
  /\ invalid_references st' = invalid_references st.
Proof. unfold process_file. repeat case_match; repeat split; reflexivity. Qed.

Lemma dispatch_processed_count (sel h : str) (p : Z) (st : state) :
  processed_count (dispatch py_lower py_int w sel h p st) = processed_count st.
Proof.
  unfold dispatch.
  destruct (request w (trace st) h p sel) as [response duration].
  destruct response as [|c response]; [reflexivity|].
  destruct (match Parser.parse_gopher_menu py_int (c :: response) with
            | [] => _ | _ :: _ => true end).
  - rewrite (proj1 (process_items_frame _ _ _ _)). repeat case_match; reflexivity.
  - rewrite (proj1 (process_file_frame _ _ _)). case_match; reflexivity.
Qed.

(** *** The loop ends *)

Lemma step_counts (st : state) :
  running st = true ->
  processed_count st < max_items
  /\ processed_count (step py_lower py_int w st) = processed_count st + 1.
Proof.
  unfold running. intros Hrun.
  destruct (step_cases py_lower py_int w st)
    as [[Hnil _] | (sel & h & p & rest & q' & Hq & _ & ->)].
  - rewrite Hnil in Hrun. discriminate.
  - rewrite Hq in Hrun. apply N.ltb_lt in Hrun. split; [exact Hrun|].
    cbv zeta. destruct (mem sel (visited_selectors st)); [reflexivity|].
    rewrite dispatch_processed_count. reflexivity.
Qed.

Lemma crawl_loop_returns (fuel : nat) :
  forall st,
    (N.to_nat (max_items - processed_count st) < fuel)%nat ->
    is_Some (crawl_loop py_lower py_int w fuel st).
Proof.
  induction fuel as [|fuel IH]; intros st Hfuel; [lia|].
  cbn [crawl_loop]. destruct (running st) eqn:Hrun; [|eauto].
  destruct (step_counts st Hrun) as [Hlt Hcount].
  apply IH. rewrite Hcount. lia.
Qed.

Lemma crawl_loop_stopped (fuel : nat) (st : state) :
  running st = false -> crawl_loop py_lower py_int w fuel st = Some st.
Proof. intros Hrun. destruct fuel; cbn [crawl_loop]; rewrite Hrun; reflexivity. Qed.

(** What the loop returns is the state after as many iterations as it
    took. *)
Lemma crawl_loop_iterate (fuel : nat) :
  forall st st',
    crawl_loop py_lower py_int w fuel st = Some st' ->
    st' = iterate py_lower py_int w fuel st.
Proof.
  induction fuel as [|fuel IH]; intros st st'; cbn [crawl_loop iterate].
  - destruct (running st); [discriminate | congruence].
  - destruct (running st); [apply IH | congruence].
Qed.

(** *** Failed requests *)

Lemma request_is_requested (h : str) (p : Z) (sel : str) (r : bytes) (d : Q)
      (tr : list event) :
  Request h p sel r d ∈ tr -> sel ∈ requested tr.
Proof.
  intros Hin. unfold requested. apply list_elem_of_omap.
  exists (Request h p sel r d). split; [exact Hin | reflexivity].
Qed.

(** The part of the state that the invariant on failures reads is
    changed by a dispatch as follows. *)
Lemma dispatch_failure_fields (sel h : str) (p : Z) (st : state) :
  let r := (request w (trace st) h p sel).1 in
  let d := (request w (trace st) h p sel).2 in
  let st' := dispatch py_lower py_int w sel h p st in
  (r = [] -> sel ∈ invalid_references st')
  /\ invalid_references st ⊆ invalid_references st'
  /\ problematic_resources st' =
     (if negb (bool_decide (r = []))
         && is_problematic_resource py_lower sel (len r) d
      then {[sel]} ∪ problematic_resources st else problematic_resources st).
Proof.
  unfold dispatch.
  destruct (request w (trace st) h p sel) as [response duration]. cbn [fst snd].
  destruct response as [|c response].
  { cbn. split; [intros _; apply elem_of_union_l, elem_of_singleton; reflexivity|].
    split; [apply union_subseteq_r | reflexivity]. }
  rewrite (bool_decide_eq_false_2 (c :: response = [])) by discriminate.
  cbn [negb andb].
  split; [discriminate|].
  destruct (match Parser.parse_gopher_menu py_int (c :: response) with
            | [] => _ | _ :: _ => true end).
  - match goal with
    | |- context [fold_left ?f ?items ?s] =>
      destruct (process_items_frame h p items s) as (_ & Hp & Hi)
    end.
    cbv zeta in Hp, Hi. rewrite Hp. split.
    + etransitivity; [|exact Hi]. repeat case_match; reflexivity.
    + repeat case_match; reflexivity.
  - match goal with
    | |- context [process_file ?a ?b ?s] =>
      destruct (process_file_frame a b s) as (_ & Hp & Hi)
    end.
    cbv zeta in Hp, Hi. rewrite Hp, Hi. split; case_match; reflexivity.
Qed.

Lemma dispatch_failures (sel h : str) (p : Z) (st : state) :
  sel ∉ requested (trace st) ->
  failures_recorded py_lower st
  /\ (forall s, s ∈ problematic_resources st -> s ∈ requested (trace st)) ->
  failures_recorded py_lower (dispatch py_lower py_int w sel h p st)
  /\ (forall s, s ∈ problematic_resources (dispatch py_lower py_int w sel h p st) ->
                s ∈ requested (trace (dispatch py_lower py_int w sel h p st))).
Proof.
  intros Hfresh [[Hinv Hprob] Hsub].
  destruct (dispatch_failure_fields sel h p st) as (Hnew & Hmono & Hflag).
  cbv zeta in Hnew, Hmono, Hflag.
  assert (Hsel_clean : sel ∉ problematic_resources st)
    by (intros Hin; apply Hfresh, Hsub, Hin).
  split; [split|].
  - intros h' p' s d Hin.
    apply dispatch_requests in Hin as [Heq | Hin]; [| |eauto 10].
    + injection Heq as -> -> -> Hr _. apply Hnew. symmetry. exact Hr.
    + apply Hmono. exact (Hinv _ _ _ _ Hin).
  - intros h' p' s r d Hin Hr. rewrite Hflag.
    apply dispatch_requests in Hin as [Heq | Hin]; [| |eauto 10].
    + injection Heq as -> -> -> -> ->.
      rewrite (bool_decide_eq_false_2 _ Hr). cbn [negb andb].
      destruct (is_problematic_resource py_lower sel _ _).
      * split; [reflexivity|]. intros _. apply elem_of_union_l, elem_of_singleton.
        reflexivity.
      * split; [intros Hin; exfalso; exact (Hsel_clean Hin) | discriminate].
    + assert (Hne : s <> sel).
      { intros ->. apply Hfresh. exact (request_is_requested _ _ _ _ _ _ Hin). }
      rewrite <- (Hprob _ _ _ _ _ Hin Hr).
      destruct (_ && _); [|reflexivity].
      rewrite elem_of_union, elem_of_singleton. tauto.
  - intros s. rewrite Hflag, dispatch_requested.
    destruct (_ && _).
    + rewrite elem_of_union, elem_of_singleton, elem_of_cons.
      intros [-> | Hin]; [left; reflexivity | right; exact (Hsub s Hin)].
    + intros Hin. right. exact (Hsub s Hin).
Qed.

Lemma step_failures (st : state) :
  (failures_recorded py_lower st
   /\ (forall s, s ∈ problematic_resources st -> s ∈ requested (trace st)))
  /\ (NoDup (requested (trace st))
      /\ forall s, s ∈ requested (trace st) -> s ∈ visited_selectors st) ->
  (failures_recorded py_lower (step py_lower py_int w st)
   /\ (forall s, s ∈ problematic_resources (step py_lower py_int w st) ->
                 s ∈ requested (trace (step py_lower py_int w st))))
  /\ (NoDup (requested (trace (step py_lower py_int w st)))
      /\ forall s, s ∈ requested (trace (step py_lower py_int w st)) ->
                   s ∈ visited_selectors (step py_lower py_int w st)).
Proof.
  intros [Hfail Hdedup]. split; [|apply step_dedup; exact Hdedup].
  destruct (step_cases py_lower py_int w st)
    as [[_ ->] | (sel & h & p & rest & q' & _ & _ & ->)];
    [exact Hfail|].
  cbv zeta. destruct (mem sel (visited_selectors st)) eqn:Hmem; [exact Hfail|].
  apply mem_false in Hmem.
  apply dispatch_failures; [|exact Hfail].
  intros Hin. apply Hmem. exact (proj2 Hdedup sel Hin).
Qed.

(** *** A server that never answers *)

Lemma crawl_of_silent_server (host : str) (port : Z) (fuel : nat) :
  (forall tr h p sel, (request w tr h p sel).1 = []) ->
  exists st,
    crawl py_lower py_int w (S fuel) host port = Some st
    /\ directories st = [] /\ text_files st = [] /\ binary_files st = []
    /\ invalid_references st = {[ [] ]}.
Proof.
  intros Hsilent. unfold crawl. cbn [crawl_loop].
  change (running (initial host port)) with true. cbv iota.
  destruct (step_cases py_lower py_int w (initial host port))
    as [[Hnil _] | (sel & h & p & rest & q' & Hq & Hq' & ->)];
    [discriminate|].
  cbn in Hq. injection Hq as <- <- <- <-.
  assert (q' = []) as ->.
  { destruct q' as [|y q']; [reflexivity|].
    exfalso. apply (elem_of_nil y), Hq'. left. }
  cbv zeta.
  match goal with
  | |- context [if ?c then _ else _] =>
    assert (Hm : c = false) by (apply mem_false; cbn; apply not_elem_of_empty);
      rewrite Hm; clear Hm
  end.
  unfold dispatch.
  specialize (Hsilent
    (trace (with_visited_selectors (union {[ [] ]})
              (with_processed_count (fun n => n + 1)
                 (with_selectors_to_visit (fun _ => []) (initial host port)))))
    host port []).
  destruct (request w _ host port []) as [response duration].
  cbn in Hsilent. subst response.
  eexists. split; [apply crawl_loop_stopped; reflexivity|].
  cbn. split; [reflexivity|]. split; [reflexivity|]. split; [reflexivity|].
  apply union_empty_r_L.
Qed.
End CompletionFacts.

(** C6, counterexample.  The request for [/slow] is cut short by the
    idle limit after five bytes, some twenty seconds in.  The crawl
    files the selector as a text file of five bytes: it is neither an
    invalid reference nor a problematic resource. *)
Lemma stalled_response_is_not_flagged :
  Scenarios.request_outcome Scenarios.stalling_peer 5
    = Some (Transport.IdleTimeout, b "hello")
  /\ option_map (fun st => (elements (Crawl.invalid_references st),
                            elements (Crawl.problematic_resources st),
                            Crawl.text_files st,
                            Crawl.file_sizes st !! u "/slow"))
                (Scenarios.crawl Scenarios.stalled_world "example.org")
     = Some ([], [], [u "/slow"], Some 5).
Proof. split; vm_compute; reflexivity. Qed.

(** C6, as amended.  The crawl always returns, within [max_items]
    iterations, whatever the requests and the probes bring.  Every
    request that came back without bytes has its selector among the
    invalid references; every request that came back with bytes has its
    selector among the problematic resources exactly when
    [is_problematic_resource] holds of its selector, size and duration.
    When no request brings any byte, the result has no directory, no
    file, and the root selector as its only invalid reference. *)
Theorem crawl_always_completes
        (py_lower : str -> str) (py_int : str -> option Z) (w : Crawl.world)
        (host : str) (port : Z) :
  exists st,
    Crawl.crawl py_lower py_int w (S (N.to_nat Crawl.max_items)) host port = Some st
    /\ Crawl.failures_recorded py_lower st
    /\ ((forall tr h p sel, (Crawl.request w tr h p sel).1 = []) ->
        Crawl.directories st = [] /\ Crawl.text_files st = []
        /\ Crawl.binary_files st = []
        /\ Crawl.invalid_references st = {[ [] ]}).
Proof.
  destruct (crawl_loop_returns py_lower py_int w (S (N.to_nat Crawl.max_items))
              (Crawl.initial host port)) as [st Hst].
  { cbn [Crawl.processed_count Crawl.initial]. lia. }
  exists st. split; [exact Hst|]. split.
  - apply crawl_loop_iterate in Hst. subst st.
    apply (iterate_invariant py_lower py_int w
             (fun st =>
                (Crawl.failures_recorded py_lower st
                 /\ (forall s, s ∈ Crawl.problematic_resources st ->
                               s ∈ Crawl.requested (Crawl.trace st)))
                /\ (NoDup (Crawl.requested (Crawl.trace st))
                    /\ forall s, s ∈ Crawl.requested (Crawl.trace st) ->
                                 s ∈ Crawl.visited_selectors st))).
    + apply step_failures.
    + repeat split; try apply NoDup_nil_2.
      all: intros; exfalso; cbn in *;
        match goal with
        | H : _ ∈ [] |- _ => apply elem_of_nil in H; exact H
        | H : _ ∈ ∅ |- _ => apply not_elem_of_empty in H; exact H
        end.
  - intros Hsilent.
    destruct (crawl_of_silent_server py_lower py_int w host port
                (N.to_nat Crawl.max_items) Hsilent)
      as (st' & Hst' & Hfields).
    unfold Crawl.crawl in Hst'. rewrite Hst in Hst'. injection Hst' as <-.
    exact Hfields.
Qed.

(** The crawl of a server that cannot be reached returns, with the root
    selector as its only invalid reference. *)
Lemma crawl_always_completes_witness :
  exists st,
    Crawl.crawl Crawl.ascii_lower Parser.ascii_int Scenarios.silent_world
                (S (N.to_nat Crawl.max_items)) (u "example.org") 70 = Some st
    /\ Crawl.directories st = [] /\ Crawl.text_files st = []
    /\ Crawl.binary_files st = []
    /\ Crawl.invalid_references st = {[ [] ]}.
Proof.
  destruct (crawl_always_completes Crawl.ascii_lower Parser.ascii_int
              Scenarios.silent_world (u "example.org") 70)
    as (st & Hst & _ & Hsilent).
  exists st. split; [exact Hst|].
  apply Hsilent. intros tr h p sel. reflexivity.
Defined.

(** * Further properties of the code *)

(** ** The parsers *)

Section MoreParserFacts.
Import Parser.
Variable py_int : str -> option Z.

Lemma parse_lines_elem (lines : list str) (it : item) :
  it ∈ parse_lines py_int lines ->
  exists line, line ∈ lines /\ parse_line py_int line = Some it.
Proof.
  induction lines as [|line lines IH]; cbn [parse_lines].
  - intros H. apply elem_of_nil in H. destruct H.
  - destruct (parse_line py_int line) as [it'|] eqn:Hline.
    + intros H. apply elem_of_cons in H as [->|H].
      * exists line. split; [left | exact Hline].
      * destruct (IH H) as (l & Hl & Hp). exists l. split; [right; exact Hl | exact Hp].
    + intros H. destruct (IH H) as (l & Hl & Hp).
      exists l. split; [right; exact Hl | exact Hp].
Qed.

Lemma parse_port_range (field : str) :
  (1 <= parse_port py_int field <= 65535)%Z.
Proof.
  unfold parse_port. destruct (py_int field) as [p|]; [|lia].
  destruct ((p <=? 0) || (65535 <? p))%Z eqn:Hp; [lia|].
  apply orb_false_elim in Hp as [Hlo Hhi].
  apply Z.leb_gt in Hlo. apply Z.ltb_ge in Hhi. lia.
Qed.

Lemma split_tab_no_tab (a : str) :
  9 ∉ a -> split_tab a = [a].
Proof.
  unfold split_tab. induction a as [|c a IH]; intros Hno; [reflexivity|].
  cbn [split_char].
  replace (c =? 9) with false
    by (symmetry; apply N.eqb_neq; intros ->; apply Hno; left).
  rewrite IH by (intros Hin; apply Hno; right; exact Hin). reflexivity.
Qed.

Lemma split_tab_field (a r : str) :
  9 ∉ a -> split_tab (a ++ 9 :: r) = a :: split_tab r.
Proof.
  unfold split_tab. induction a as [|c a IH]; intros Hno; [reflexivity|].
  cbn [app split_char].
  replace (c =? 9) with false
    by (symmetry; apply N.eqb_neq; intros ->; apply Hno; left).
  rewrite IH by (intros Hin; apply Hno; right; exact Hin). reflexivity.
Qed.
End MoreParserFacts.

(** X1.  Every entry that [parse_gopher_menu] of gopher_client_08.py
    returns has a port between 1 and 65535, whatever the bytes of the
    menu and whatever [int] makes of the port field. *)
Theorem parsed_port_is_in_range (py_int : str -> option Z) (data : bytes)
        (it : Parser.item) :
  it ∈ Parser.parse_gopher_menu py_int data ->
  (1 <= Parser.port it <= 65535)%Z.
Proof.
  intros Hin. apply parse_lines_elem in Hin as (line & _ & Hline).
  unfold Parser.parse_line in Hline.
  destruct line as [|item_type rest]; [discriminate|].
  destruct (bool_decide _); [discriminate|].
  destruct (split_tab rest) as [|d [|sel [|h [|pf extra]]]]; try discriminate.
  injection Hline as <-. cbn. apply parse_port_range.
Qed.

Lemma parsed_port_is_in_range_witness :
  (1 <= Parser.port Scenarios.first_entry <= 65535)%Z.
Proof.
  apply (parsed_port_is_in_range Parser.ascii_int Scenarios.menu_with_entry_after_dot).
  vm_compute. left.
Defined.

(** X2.  A line made of a type character and four fields without tabs,
    separated by tabs, is parsed into exactly those fields, the port
    going through the range check; anything after a fifth tab is
    ignored. *)
Theorem well_formed_line_is_parsed (py_int : str -> option Z)
        (item_type : codepoint) (d sel h pf rest : str) :
  9 ∉ d -> 9 ∉ sel -> 9 ∉ h -> 9 ∉ pf ->
  Parser.parse_line py_int (item_type :: d ++ 9 :: sel ++ 9 :: h ++ 9 :: pf)
    = Some (Parser.Item item_type d sel h (Parser.parse_port py_int pf))
  /\ Parser.parse_line py_int
       (item_type :: d ++ 9 :: sel ++ 9 :: h ++ 9 :: pf ++ 9 :: rest)
    = Some (Parser.Item item_type d sel h (Parser.parse_port py_int pf)).
Proof.
  intros Hd Hs Hh Hp.
  assert (Hdot : forall tl, bool_decide (item_type :: d ++ 9 :: tl = u ".") = false).
  { intros tl. apply bool_decide_eq_false. intros Heq.
    injection Heq as _ Heq. destruct d; discriminate Heq. }
  split; unfold Parser.parse_line; rewrite Hdot.
  - rewrite !split_tab_field by assumption.
    rewrite split_tab_no_tab by assumption. reflexivity.
  - rewrite !split_tab_field by assumption. reflexivity.
Qed.

Lemma well_formed_line_is_parsed_witness :
  Parser.parse_line Parser.ascii_int
    (49 :: u "My Dir" ++ 9 :: u "/dir" ++ 9 :: u "example.org" ++ 9 :: u "70")
  = Some (Parser.Item 49 (u "My Dir") (u "/dir") (u "example.org")
                      (Parser.parse_port Parser.ascii_int (u "70"))).
Proof.
  apply (well_formed_line_is_parsed Parser.ascii_int 49
           (u "My Dir") (u "/dir") (u "example.org") (u "70") []).
  all: apply (bool_decide_eq_false_1 (9 ∈ _)); vm_compute; reflexivity.
Defined.

(** X3.  The parser of gopher_client_08.py and the parser of
    gopher_client_05.py return the same entries for the same bytes, up
    to the port: the later one replaces a port outside 1..65535 by 70.
    The test on lines of one character in the earlier one changes
    nothing. *)
Theorem parsers_differ_by_port_range (py_int : str -> option Z) (data : bytes) :
  Parser.parse_gopher_menu py_int data
  = map Draft5.with_port_in_range (Draft5.parse_gopher_menu py_int data).
Proof.
  unfold Parser.parse_gopher_menu, Draft5.parse_gopher_menu.
  induction (split_crlf (decode_utf8_replace data)) as [|line lines IH];
    [reflexivity|].
  cbn [Parser.parse_lines Draft5.parse_lines].
  assert (Hline : Parser.parse_line py_int line
                  = option_map Draft5.with_port_in_range
                               (Draft5.parse_line py_int line)).
  { unfold Parser.parse_line, Draft5.parse_line.
    destruct line as [|item_type rest]; [reflexivity|].
    destruct (bool_decide _); [reflexivity|].
    destruct rest as [|c rest]; [reflexivity|].
    cbn [length Nat.ltb Nat.leb].
    destruct (split_tab (c :: rest)) as [|d [|sel [|h [|pf extra]]]];
      try reflexivity.
    cbn. unfold Draft5.with_port_in_range, Parser.parse_port. cbn.
    destruct (py_int pf); reflexivity. }
  rewrite Hline, IH.
  destruct (Draft5.parse_line py_int line); reflexivity.
Qed.

(** ** The classifier *)

Lemma starts_with_take {A} `{EqDecision A} (prefix l : list A) (n : nat) :
  (length prefix <= n)%nat ->
  starts_with prefix (take n l) = starts_with prefix l.
Proof.
  revert l n. induction prefix as [|x prefix IH]; intros l n Hlen.
  - destruct (take n l), l; reflexivity.
  - destruct n as [|n]; [simpl in Hlen; lia|].
    destruct l as [|y l]; [reflexivity|].
    cbn [take starts_with]. rewrite IH by (simpl in Hlen; lia). reflexivity.
Qed.

Lemma utf8_scan_all_ascii (data : bytes) :
  Forall (fun c => Byte.to_N c < 0x80) data ->
  utf8_scan data = map (fun c => Some (Byte.to_N c)) data.
Proof.
  induction 1 as [|c data Hc _ IH]; [reflexivity|].
  rewrite (utf8_scan_ascii c Hc), IH. reflexivity.
Qed.

Lemma all_decoded_map_some (s : str) :
  all_decoded (map Some s) = Some s.
Proof.
  induction s as [|c s IH]; [reflexivity|].
  cbn [map all_decoded]. rewrite IH. reflexivity.
Qed.

Lemma decode_utf8_strict_ascii (data : bytes) :
  Forall (fun c => Byte.to_N c < 0x80) data ->
  decode_utf8_strict data = Some (decode_latin1 data).
Proof.
  intros Hascii. unfold decode_utf8_strict, decode_latin1.
  rewrite (utf8_scan_all_ascii data Hascii).
  rewrite <- (all_decoded_map_some (map Byte.to_N data)).
  rewrite map_map. reflexivity.
Qed.

Lemma is_text_file_nonempty (data : bytes) :
  data <> [] ->
  Classifier.is_text_file data =
  match decode_utf8_strict (take Classifier.sample_size data) with
  | Some _ => true
  | None =>
    if Classifier.mostly_printable (take Classifier.sample_size data) then true
    else if Classifier.has_signature data then false
    else true
  end.
Proof. destruct data; [congruence | reflexivity]. Qed.

Lemma take_nonempty {A} (n : nat) (l : list A) :
  (0 < n)%nat -> l <> [] -> take n l <> [].
Proof. destruct n, l; try lia; try congruence. discriminate. Qed.

(** X4.  [is_text_file] reads the first 4096 bytes only: a byte string
    and its first 4096 bytes get the same answer. *)
Theorem is_text_file_reads_the_sample_only (data : bytes) :
  Classifier.is_text_file data
  = Classifier.is_text_file (take Classifier.sample_size data).
Proof.
  assert (Hsize : (5 <= Classifier.sample_size)%nat)
    by (unfold Classifier.sample_size; lia).
  destruct (decide (data = [])) as [->|Hne].
  { rewrite take_nil. reflexivity. }
  rewrite (is_text_file_nonempty data Hne).
  rewrite (is_text_file_nonempty (take Classifier.sample_size data))
    by (apply take_nonempty; [lia | exact Hne]).
  rewrite take_take, Nat.min_id.
  replace (Classifier.has_signature (take Classifier.sample_size data))
    with (Classifier.has_signature data); [reflexivity|].
  unfold Classifier.has_signature.
  rewrite !starts_with_take
    by (etransitivity; [|exact Hsize]; cbn; lia).
  reflexivity.
Qed.

(** X5.  A non-empty byte string made of ASCII bytes only is text,
    whether or not it begins with one of the signatures: the
    signatures made of letters (GIF, BM, PK, %PDF-) never tell on their
    own. *)
Theorem ascii_data_is_text (data : bytes) :
  data <> [] ->
  Forall (fun c => Byte.to_N c < 0x80) data ->
  Classifier.is_text_file data = true.
Proof.
  intros Hne Hascii. unfold Classifier.is_text_file.
  destruct data as [|c data]; [congruence|].
  rewrite decode_utf8_strict_ascii; [reflexivity|].
  apply Forall_take. exact Hascii.
Qed.

Lemma ascii_data_is_text_witness :
  Classifier.has_signature Scenarios.gif_header = true
  /\ Classifier.is_text_file Scenarios.gif_header = true.
Proof.
  split; [vm_compute; reflexivity|].
  apply ascii_data_is_text.
  - discriminate.
  - unfold Scenarios.gif_header, b. cbn.
    repeat (apply Forall_cons; split; [reflexivity|]). apply Forall_nil_2.
Defined.

(** ** The engine's predicates *)


(** X6.  [is_problematic_resource] is monotone: a resource that is
    problematic stays so when its size and its download time grow. *)
Theorem problematic_is_monotone (py_lower : str -> str) (sel : str)
        (size size' : N) (time time' : Q) :
  Crawl.is_problematic_resource py_lower sel size time = true ->
  size <= size' -> (time <= time')%Q ->
  Crawl.is_problematic_resource py_lower sel size' time' = true.
Proof.
  unfold Crawl.is_problematic_resource. intros Hp Hsize Htime.
  destruct (existsb _ _); [reflexivity|].
  destruct ((1024 * 1024 <? size) && Transport.Qgt_bool time 15) eqn:Hbig.
  - apply andb_prop in Hbig as [Hs Ht].
    apply N.ltb_lt in Hs. apply Qgt_bool_true in Ht.
    replace (1024 * 1024 <? size') with true by (symmetry; apply N.ltb_lt; lia).
    replace (Transport.Qgt_bool time' 15) with true; [reflexivity|].
    symmetry. apply Qgt_bool_true. eapply Qlt_le_trans; eassumption.
  - destruct (Qle_bool 25 time) eqn:Hslow; [|discriminate].
    apply Qle_bool_iff in Hslow.
    destruct ((1024 * 1024 <? size') && Transport.Qgt_bool time' 15);
      [reflexivity|].
    replace (Qle_bool 25 time') with true; [reflexivity|].
    symmetry. apply Qle_bool_iff. eapply Qle_trans; eassumption.
Qed.

Lemma problematic_is_monotone_witness :
  Crawl.is_problematic_resource Crawl.ascii_lower (u "/big") (2 * 1024 * 1024) 40 = true.
Proof.
  apply (problematic_is_monotone Crawl.ascii_lower (u "/big")
           (2 * 1024 * 1024) (2 * 1024 * 1024) 16 40).
  - vm_compute. reflexivity.
  - lia.
  - vm_compute. discriminate.
Defined.

(** ** Hosts *)

Lemma lstrip_split (s : str) :
  exists sp, s = sp ++ lstrip s /\ forallb isspace sp = true.
Proof.
  induction s as [|c s (sp & Hs & Hsp)]; [exists []; split; reflexivity|].
  cbn [lstrip]. destruct (isspace c) eqn:Hc.
  - exists (c :: sp). split; [cbn; f_equal; exact Hs|].
    cbn. rewrite Hc. exact Hsp.
  - exists []. split; reflexivity.
Qed.

Lemma lstrip_head (s : str) : no_leading_space (lstrip s).
Proof.
  induction s as [|c s IH]; [exact I|].
  cbn [lstrip]. destruct (isspace c) eqn:Hc; [exact IH | exact Hc].
Qed.

Lemma lstrip_fixed (s : str) : no_leading_space s -> lstrip s = s.
Proof.
  destruct s as [|c s]; [reflexivity|].
  cbn. intros ->. reflexivity.
Qed.

Lemma strip_head (s : str) : no_leading_space (strip s).
Proof.
  unfold strip.
  destruct (lstrip_split (rev (lstrip s))) as (sp & Hrev & _).
  pose proof (lstrip_head s) as Ha.
  set (t := lstrip (rev (lstrip s))) in *.
  assert (Hs : lstrip s = rev t ++ rev sp).
  { rewrite <- rev_app_distr, <- Hrev, rev_involutive. reflexivity. }
  destruct (rev t) as [|c r]; [exact I|].
  rewrite Hs in Ha. exact Ha.
Qed.

Lemma strip_idempotent (s : str) : strip (strip s) = strip s.
Proof.
  unfold strip at 1.
  rewrite (lstrip_fixed (strip s) (strip_head s)).
  unfold strip. rewrite rev_involutive.
  rewrite (lstrip_fixed _ (lstrip_head _)). reflexivity.
Qed.

(** X7.  [is_same_server] of gopher_client_08.py is an equivalence on
    (host, port) pairs, and it does not see the whitespace around a
    host. *)
Theorem is_same_server_is_an_equivalence (py_lower : str -> str)
        (h1 h2 h3 : str) (p1 p2 p3 : Z) :
  Crawl.is_same_server py_lower h1 p1 h1 p1 = true
  /\ Crawl.is_same_server py_lower h1 p1 h2 p2
     = Crawl.is_same_server py_lower h2 p2 h1 p1
  /\ (Crawl.is_same_server py_lower h1 p1 h2 p2 = true ->
      Crawl.is_same_server py_lower h2 p2 h3 p3 = true ->
      Crawl.is_same_server py_lower h1 p1 h3 p3 = true)
  /\ Crawl.is_same_server py_lower h1 p1 h2 p2
     = Crawl.is_same_server py_lower (strip h1) p1 (strip h2) p2.
Proof.
  split; [apply is_same_server_refl|]. split; [|split].
  - unfold Crawl.is_same_server.
    rewrite (bool_decide_ext _ (py_lower (strip h2) = py_lower (strip h1)))
      by (split; congruence).
    rewrite (bool_decide_ext (p1 = p2) (p2 = p1)) by (split; congruence).
    reflexivity.
  - apply is_same_server_trans.
  - unfold Crawl.is_same_server. rewrite !strip_idempotent. reflexivity.
Qed.

(** X8.  [check_external_server] does not see the whitespace around a
    host either; it makes at most one connection attempt, to the
    stripped host; and it answers true only when that attempt was made
    and succeeded. *)
Theorem probe_is_up_only_after_connecting (connect : str -> Z -> bool)
        (host : str) (port : Z) :
  Prober.check_external_server connect host port
    = Prober.check_external_server connect (strip host) port
  /\ ((Prober.check_external_server connect host port).2 = []
      \/ (Prober.check_external_server connect host port).2 = [(strip host, port)])
  /\ ((Prober.check_external_server connect host port).1 = true ->
      (Prober.check_external_server connect host port).2 = [(strip host, port)]
      /\ connect (strip host) port = true).
Proof.
  split; [|split].
  - unfold Prober.check_external_server. rewrite strip_idempotent. reflexivity.
  - unfold Prober.check_external_server.
    destruct (strip host) as [|c s]; [left; reflexivity|].
    destruct (Prober.has_invalid_char (c :: s)); [left | right]; reflexivity.
  - unfold Prober.check_external_server.
    destruct (strip host) as [|c s]; [discriminate|].
    destruct (Prober.has_invalid_char (c :: s)); [discriminate|].
    cbn. intros ->. split; reflexivity.
Qed.

(** ** The transport *)

Section MoreTransportFacts.
Import Transport.
Local Open Scope Q_scope.

Variable timeout : Q.
Variable max_data_size : N.
Variable max_time : Q.
Variable p : peer.


(** The bytes in hand never exceed the limit by more than one chunk. *)
Lemma recv_loop_size (chunk_size : N) :
  (forall i chunk, recv p i = Data chunk -> (len chunk <= chunk_size)%N) ->
  forall (fuel i : nat) (data : bytes) (start last : Q) reason result,
    (len data <= max_data_size + chunk_size)%N ->
    recv_loop timeout max_data_size max_time p fuel i data start last
      = Some (reason, result) ->
    (len result <= max_data_size + chunk_size)%N.
Proof.
  intros Hchunk. induction fuel as [|fuel IH];
    intros i data start last reason result Hdata; cbn [recv_loop];
    [discriminate|].
  destruct (max_data_size <? len data)%N eqn:Hsize.
  { intros [= _ <-]. exact Hdata. }
  apply N.ltb_ge in Hsize.
  destruct (Qgt_bool _ max_time).
  { intros [= _ <-]. exact Hdata. }
  destruct (recv p i) as [[|c chunk]| |] eqn:Hrecv.
  - intros [= _ <-]. exact Hdata.
  - apply IH. specialize (Hchunk i _ Hrecv).
    unfold len in *. rewrite length_app, Nat2N.inj_add. lia.
  - destruct (Qgt_bool _ timeout).
    + intros [= _ <-]. exact Hdata.
    + apply IH. exact Hdata.
  - intros [= _ <-]. apply N.le_0_l.
Qed.


(** The loop of the fifth draft against a peer that closes. *)
Lemma recv_loop_05_reads_to_the_end (n : nat) :
  (forall i, (i < n)%nat ->
             recv p i = RecvTimeout \/ exists c chunk, recv p i = Data (c :: chunk)) ->
  recv p n = Data [] ->
  forall (k i fuel : nat),
    (i + k = n)%nat -> (k < fuel)%nat ->
    recv_loop_05 p fuel i (received p i) = Some (inl (received p n)).
Proof.
  intros Hsend Hclose.
  induction k as [|k IH]; intros i fuel Hi Hfuel;
    (destruct fuel as [|fuel]; [lia|]); cbn [recv_loop_05].
  - assert (i = n) by lia. subst i. rewrite Hclose. reflexivity.
  - destruct (Hsend i ltac:(lia)) as [Hto | (c & chunk & Hdata)].
    + rewrite Hto, <- (received_S_timeout p i Hto). apply IH; lia.
    + rewrite Hdata, <- (received_S p i _ Hdata). apply IH; lia.
Qed.

(** The loop of the fifth draft against a peer that does not close. *)
Lemma recv_loop_05_blocks :
  never_closes p ->
  forall (fuel i : nat) (data : bytes), recv_loop_05 p fuel i data = None.
Proof.
  intros Hopen. induction fuel as [|fuel IH]; intros i data; [reflexivity|].
  cbn [recv_loop_05].
  destruct (Hopen i) as [-> | (c & chunk & ->)]; apply IH.
Qed.
End MoreTransportFacts.



(** X10.  As long as no receive brings more than [chunk_size] bytes (4096
    in the source), [send_gopher_request] never returns more than
    [max_data_size + chunk_size] bytes, whatever the peer does. *)
Theorem response_size_is_bounded (timeout max_time : Q) (max_data_size chunk_size : N)
        (p : Transport.peer) (fuel : nat) (data : bytes) :
  (forall i chunk, Transport.recv p i = Transport.Data chunk -> len chunk <= chunk_size) ->
  Transport.send_gopher_request timeout max_data_size max_time p fuel = Some data ->
  len data <= max_data_size + chunk_size.
Proof.
  intros Hchunk. unfold Transport.send_gopher_request, Transport.request_outcome.
  destruct (Transport.connecting p);
    [destruct (Transport.send_ok p)|..];
    try (intros [= <-]; apply N.le_0_l).
  destruct (Transport.recv_loop _ _ _ _ _ _ _ _ _) as [[reason result]|] eqn:Hloop;
    [|discriminate].
  intros [= <-].
  eapply recv_loop_size; [exact Hchunk| |exact Hloop].
  apply N.le_0_l.
Qed.

Lemma response_size_is_bounded_witness :
  len (b "datadatadata") <= 8 + 4.
Proof.
  apply (response_size_is_bounded 10 30 8 4 Scenarios.firehose_peer 5).
  - intros i chunk [= <-]. vm_compute. discriminate.
  - vm_compute. reflexivity.
Defined.



(** X12.  [send_gopher_request] of gopher_client_05.py has no limit and
    no timeout: against a peer that closes, it returns every byte the
    peer sent, however long the peer paused in between; against a peer
    that never closes, it never returns. *)
Theorem draft5_request_ends_only_when_the_peer_closes (p : Transport.peer) :
  Transport.connecting p = Transport.Connected ->
  Transport.send_ok p = true ->
  (forall n fuel,
      (forall i, (i < n)%nat ->
                 Transport.recv p i = Transport.RecvTimeout
                 \/ exists c chunk, Transport.recv p i = Transport.Data (c :: chunk)) ->
      Transport.recv p n = Transport.Data [] ->
      (n < fuel)%nat ->
      Transport.send_gopher_request_05 p fuel = Some (inl (Transport.received p n)))
  /\ (Transport.never_closes p ->
      forall fuel, Transport.send_gopher_request_05 p fuel = None).
Proof.
  intros Hconn Hok. unfold Transport.send_gopher_request_05.
  rewrite Hconn, Hok. split.
  - intros n fuel Hsend Hclose Hfuel.
    apply (recv_loop_05_reads_to_the_end p n Hsend Hclose n 0%nat fuel);
      [reflexivity | exact Hfuel].
  - intros Hopen fuel. apply recv_loop_05_blocks. exact Hopen.
Qed.

Lemma draft5_request_ends_only_when_the_peer_closes_witness :
  Transport.send_gopher_request_05 Scenarios.closing_peer 2
  = Some (inl (Transport.received Scenarios.closing_peer 1)).
Proof.
  apply (proj1 (draft5_request_ends_only_when_the_peer_closes
                  Scenarios.closing_peer eq_refl eq_refl) 1%nat 2%nat).
  - intros i Hi. assert (i = 0)%nat as -> by lia.
    right. exists "h"%byte, (b "ello"). reflexivity.
  - reflexivity.
  - lia.
Defined.

(** ** The engine *)

Ltac state_simpl :=
  unfold Crawl.push, Crawl.with_visited_selectors, Crawl.with_directories,
    Crawl.with_text_files, Crawl.with_binary_files,
    Crawl.with_invalid_references, Crawl.with_external_servers,
    Crawl.with_problematic_resources, Crawl.with_text_file_contents,
    Crawl.with_file_sizes, Crawl.with_download_times,
    Crawl.with_selectors_to_visit, Crawl.with_processed_count,
    Crawl.with_trace;
  cbn [Crawl.visited_selectors Crawl.directories Crawl.text_files
       Crawl.binary_files Crawl.invalid_references Crawl.external_servers
       Crawl.problematic_resources Crawl.text_file_contents Crawl.file_sizes
       Crawl.download_times Crawl.selectors_to_visit Crawl.processed_count
       Crawl.trace].

Ltac state_simpl_in H :=
  unfold Crawl.push, Crawl.with_visited_selectors, Crawl.with_directories,
    Crawl.with_text_files, Crawl.with_binary_files,
    Crawl.with_invalid_references, Crawl.with_external_servers,
    Crawl.with_problematic_resources, Crawl.with_text_file_contents,
    Crawl.with_file_sizes, Crawl.with_download_times,
    Crawl.with_selectors_to_visit, Crawl.with_processed_count,
    Crawl.with_trace in H;
  cbn [Crawl.visited_selectors Crawl.directories Crawl.text_files
       Crawl.binary_files Crawl.invalid_references Crawl.external_servers
       Crawl.problematic_resources Crawl.text_file_contents Crawl.file_sizes
       Crawl.download_times Crawl.selectors_to_visit Crawl.processed_count
       Crawl.trace] in H.

(** The membership tests that guard an append, as propositions. *)
Ltac guards :=
  repeat match goal with
         | E : negb (Crawl.mem _ _) && negb (Crawl.mem _ _) = true |- _ =>
           apply andb_prop in E as [? ?]
         | E : negb (Crawl.mem _ _) = true |- _ =>
           apply negb_true_iff, mem_false in E; state_simpl_in E
         | E : negb (Crawl.mem _ _) = false |- _ =>
           apply negb_false_iff in E; apply (proj1 (mem_true _ _)) in E;
           state_simpl_in E
         end.

Section MoreEngineFacts.
Import Crawl CrawlInv.
Variable py_lower : str -> str.
Variable py_int : str -> option Z.
Variable w : world.

Lemma iterate_invariant_running (P : state -> Prop) :
  (forall st, running st = true -> P st -> P (step py_lower py_int w st)) ->
  forall n st, P st -> P (iterate py_lower py_int w n st).
Proof.
  intros Hstep. induction n as [|n IH]; intros st Hst; [exact Hst|].
  cbn [iterate]. destruct (running st) eqn:Hrun; [|exact Hst].
  apply IH, Hstep; assumption.
Qed.

Lemma iterate_stopped (n : nat) (st : state) :
  running st = false -> iterate py_lower py_int w n st = st.
Proof. intros Hrun. destruct n; cbn [iterate]; [|rewrite Hrun]; reflexivity. Qed.

Lemma iterate_add (n k : nat) :
  forall st,
    iterate py_lower py_int w (n + k) st
    = iterate py_lower py_int w k (iterate py_lower py_int w n st).
Proof.
  induction n as [|n IH]; intros st; [reflexivity|].
  cbn [Nat.add iterate]. destruct (running st) eqn:Hrun; [apply IH|].
  symmetry. apply iterate_stopped. exact Hrun.
Qed.

(** *** The counters *)

Lemma step_requested_length (st : state) :
  len (requested (trace (step py_lower py_int w st)))
  <= len (requested (trace st)) + 1.
Proof.
  destruct (step_cases py_lower py_int w st)
    as [[_ ->] | (sel & h & p & rest & q' & _ & _ & ->)]; [lia|].
  cbv zeta. destruct (mem sel (visited_selectors st)).
  - unfold with_processed_count, with_selectors_to_visit. cbn [trace]. lia.
  - rewrite dispatch_requested.
    unfold with_visited_selectors, with_processed_count, with_selectors_to_visit.
    cbn [trace]. unfold len. cbn [length]. rewrite Nat2N.inj_succ. lia.
Qed.

Lemma step_within_budget (st : state) :
  running st = true -> within_budget st ->
  within_budget (step py_lower py_int w st).
Proof.
  intros Hrun [Hmax Hreq].
  destruct (step_counts py_lower py_int w st Hrun) as [Hlt Hcount].
  pose proof (step_requested_length st) as Hlen.
  unfold within_budget. rewrite Hcount. split; lia.
Qed.

(** *** The lists *)

Lemma NoDup_snoc {A} (l : list A) (x : A) :
  NoDup l -> x ∉ l -> NoDup (l ++ [x]).
Proof.
  intros Hl Hx. apply NoDup_app. split; [exact Hl|].
  split; [|apply NoDup_singleton].
  intros y Hy Hy'. apply list_elem_of_singleton in Hy'. subst y. exact (Hx Hy).
Qed.

Ltac lists_after_append :=
  state_simpl; try (repeat split; assumption);
  guards; repeat split; try assumption; apply NoDup_snoc; assumption.

Lemma process_item_lists (h : str) (p : Z) (st : state) (it : Parser.item) :
  lists_without_repeats st ->
  lists_without_repeats (process_item py_lower w h p st it).
Proof.
  intros (Hd & Ht & Hb). unfold process_item, lists_without_repeats.
  repeat case_match; lists_after_append.
Qed.

Lemma process_file_lists (sel : str) (response : bytes) (st : state) :
  lists_without_repeats st ->
  lists_without_repeats (process_file sel response st).
Proof.
  intros (Hd & Ht & Hb). unfold process_file, lists_without_repeats.
  repeat case_match; lists_after_append.
Qed.

Lemma dispatch_lists (sel h : str) (p : Z) (st : state) :
  lists_without_repeats st ->
  lists_without_repeats (dispatch py_lower py_int w sel h p st).
Proof.
  intros Hst. unfold dispatch.
  destruct (request w (trace st) h p sel) as [response duration].
  destruct response as [|c response]; [exact Hst|].
  destruct (match Parser.parse_gopher_menu py_int (c :: response) with
            | [] => _ | _ :: _ => true end).
  - apply fold_left_invariant.
    + intros a x. apply process_item_lists.
    + destruct Hst as (Hd & Ht & Hb). unfold lists_without_repeats.
      repeat case_match; lists_after_append.
  - apply process_file_lists. case_match; exact Hst.
Qed.

Lemma step_lists (st : state) :
  lists_without_repeats st -> lists_without_repeats (step py_lower py_int w st).
Proof.
  intros Hst.
  destruct (step_cases py_lower py_int w st)
    as [[_ ->] | (sel & h & p & rest & q' & _ & _ & ->)]; [exact Hst|].
  cbv zeta. destruct (mem sel (visited_selectors st)); [exact Hst|].
  apply dispatch_lists. exact Hst.
Qed.
End MoreEngineFacts.

(** X13.  After any number of iterations the loop of [main] has counted
    at most [max_items] selectors, and the Transport was called at most
    once per selector counted: a crawl makes no more than 5000
    requests. *)
Theorem crawl_stays_within_budget
        (py_lower : str -> str) (py_int : str -> option Z) (w : Crawl.world)
        (host : str) (port : Z) (n : nat) :
  let st := Crawl.iterate py_lower py_int w n (Crawl.initial host port) in
  Crawl.processed_count st <= Crawl.max_items
  /\ len (Crawl.requested (Crawl.trace st)) <= Crawl.processed_count st.
Proof.
  apply (iterate_invariant_running py_lower py_int w CrawlInv.within_budget).
  - apply step_within_budget.
  - split; cbn; [discriminate | reflexivity].
Qed.

(** X14.  After any number of iterations, [directories], [text_files]
    and [binary_files] each name a selector at most once. *)
Theorem result_lists_have_no_repeats
        (py_lower : str -> str) (py_int : str -> option Z) (w : Crawl.world)
        (host : str) (port : Z) (n : nat) :
  let st := Crawl.iterate py_lower py_int w n (Crawl.initial host port) in
  NoDup (Crawl.directories st) /\ NoDup (Crawl.text_files st)
  /\ NoDup (Crawl.binary_files st).
Proof.
  apply (iterate_invariant py_lower py_int w CrawlInv.lists_without_repeats).
  - apply step_lists.
  - repeat split; apply NoDup_nil_2.
Qed.

Section ResultFacts.
Import Crawl CrawlInv.
Variable py_lower : str -> str.
Variable py_int : str -> option Z.
Variable w : world.

(** *** How the results hang together *)

Lemma process_item_results (h : str) (p : Z) (st : state) (it : Parser.item) :
  let st' := process_item py_lower w h p st it in
  directories st' = directories st
  /\ file_sizes st' = file_sizes st
  /\ text_file_contents st' = text_file_contents st
  /\ (forall sel, sel ∈ text_files st -> sel ∈ text_files st')
  /\ (forall sel, sel ∈ binary_files st -> sel ∈ binary_files st').
Proof.
  unfold process_item.
  repeat case_match; state_simpl; repeat split; try tauto;
    intros sel Hsel; apply elem_of_app; left; exact Hsel.
Qed.

Lemma process_item_results_consistent (h : str) (p : Z) (st : state)
      (it : Parser.item) :
  results_consistent st -> results_consistent (process_item py_lower w h p st it).
Proof.
  intros (Hdir & Hsize & Hcontent).
  destruct (process_item_results h p st it) as (Hd & Hf & Hc & Ht & Hb).
  cbv zeta in Hd, Hf, Hc, Ht, Hb.
  unfold results_consistent.
  rewrite Hd, Hf, Hc, process_item_requested.
  split; [exact Hdir|]. split.
  - intros sel Hsel. destruct (Hsize sel Hsel) as (H1 & H2 & H3 & H4).
    split; [exact H1|]. split; [exact H2|]. split; [|exact H4].
    destruct H3 as [H3|H3]; [left; exact (Ht sel H3) | right; exact (Hb sel H3)].
  - intros sel content Hsel.
    destruct (Hcontent sel content Hsel) as (H1 & H2 & H3 & H4).
    split; [exact H1|]. split; [exact H2|]. split; [exact H3|]. exact (Ht sel H4).
Qed.

(** A request that is added to the trace, and a selector that is added
    to the directories without having a size, keep the results
    consistent. *)
Lemma results_consistent_requested (st st' : state) (sel : str) :
  requested (trace st') = sel :: requested (trace st) ->
  (directories st' = directories st \/ directories st' = directories st ++ [sel]) ->
  file_sizes st' = file_sizes st ->
  text_file_contents st' = text_file_contents st ->
  text_files st' = text_files st ->
  binary_files st' = binary_files st ->
  sel ∉ requested (trace st) ->
  results_consistent st -> results_consistent st'.
Proof.
  intros Hreq Hd Hf Hc Ht Hb Hfresh (Hdir & Hsize & Hcontent).
  unfold results_consistent. rewrite Hreq, Hf, Hc, Ht, Hb.
  split; [|split].
  - intros s Hs. destruct Hd as [Hd|Hd]; rewrite Hd in Hs.
    + right. exact (Hdir s Hs).
    + apply elem_of_app in Hs as [Hs|Hs]; [right; exact (Hdir s Hs)|].
      apply list_elem_of_singleton in Hs. subst s. left.
  - intros s Hs. destruct (Hsize s Hs) as (H1 & H2 & H3).
    split; [right; exact H1|]. split; [|exact H3].
    destruct Hd as [Hd|Hd]; rewrite Hd; [exact H2|].
    intros Hin. apply elem_of_app in Hin as [Hin|Hin]; [exact (H2 Hin)|].
    apply list_elem_of_singleton in Hin. subst s. exact (Hfresh H1).
  - exact Hcontent.
Qed.

(** The file branch, described by what it does to the state. *)
Lemma results_consistent_file (st st' : state) (sel : str) (response : bytes) :
  file_sizes st' = <[sel := len response]> (file_sizes st) ->
  directories st' = directories st ->
  requested (trace st') = requested (trace st) ->
  (forall s, s ∈ text_files st -> s ∈ text_files st') ->
  (forall s, s ∈ binary_files st -> s ∈ binary_files st') ->
  (sel ∈ text_files st' \/ sel ∈ binary_files st') ->
  (text_file_contents st' = text_file_contents st
   \/ (text_file_contents st' = <[sel := response]> (text_file_contents st)
       /\ len response < 1024 * 1024
       /\ Classifier.is_text_file response = true
       /\ sel ∈ text_files st')) ->
  sel ∈ requested (trace st) ->
  file_sizes st !! sel = None ->
  sel ∉ directories st ->
  sel <> [] -> ends_with_char 47 sel = false ->
  results_consistent st -> results_consistent st'.
Proof.
  intros Hf Hd Hreq Ht Hb Hlisted Hc Hsel Hnew Hnodir Hne Hslash
         (Hdir & Hsize & Hcontent).
  unfold results_consistent. rewrite Hf, Hd, Hreq.
  split; [exact Hdir|]. split.
  - intros s Hs. destruct (decide (s = sel)) as [->|Hdiff].
    + tauto.
    + rewrite lookup_insert_ne in Hs by congruence.
      destruct (Hsize s Hs) as (H1 & H2 & H3 & H4).
      split; [exact H1|]. split; [exact H2|]. split; [|exact H4].
      destruct H3 as [H3|H3]; [left; exact (Ht s H3) | right; exact (Hb s H3)].
  - assert (Hold : forall s content,
               text_file_contents st !! s = Some content ->
               s <> sel
               /\ <[sel := len response]> (file_sizes st) !! s = Some (len content)
               /\ len content < 1024 * 1024
               /\ Classifier.is_text_file content = true
               /\ s ∈ text_files st').
    { intros s content Hs.
      destruct (Hcontent s content Hs) as (H1 & H2 & H3 & H4).
      assert (Hdiff : s <> sel) by (intros ->; congruence).
      split; [exact Hdiff|].
      rewrite lookup_insert_ne by congruence.
      split; [exact H1|]. split; [exact H2|]. split; [exact H3|]. exact (Ht s H4). }
    intros s content Hs.
    destruct Hc as [Hc | (Hc & Hsmall & Htext & Hin)]; rewrite Hc in Hs.
    + exact (proj2 (Hold s content Hs)).
    + destruct (decide (s = sel)) as [->|Hdiff].
      * rewrite lookup_insert_eq in Hs. injection Hs as <-.
        rewrite lookup_insert_eq. tauto.
      * rewrite lookup_insert_ne in Hs by congruence.
        exact (proj2 (Hold s content Hs)).
Qed.

Lemma process_file_results_consistent (sel : str) (response : bytes) (st : state) :
  sel ∈ requested (trace st) ->
  file_sizes st !! sel = None ->
  sel ∉ directories st ->
  sel <> [] -> ends_with_char 47 sel = false ->
  results_consistent st -> results_consistent (process_file sel response st).
Proof.
  intros Hsel Hnew Hnodir Hne Hslash Hst.
  apply (results_consistent_file st (process_file sel response st) sel response);
    try assumption; unfold process_file.
  - repeat case_match; reflexivity.
  - repeat case_match; reflexivity.
  - repeat case_match; reflexivity.
  - intros s Hs. repeat case_match; state_simpl; try exact Hs;
      apply elem_of_app; left; exact Hs.
  - intros s Hs. repeat case_match; state_simpl; try exact Hs;
      apply elem_of_app; left; exact Hs.
  - repeat case_match; state_simpl; guards;
      rewrite ?elem_of_app, ?list_elem_of_singleton; auto.
  - repeat case_match; state_simpl; guards; try (left; reflexivity);
      right; (split; [reflexivity|]);
      (split; [apply N.ltb_lt; assumption|]);
      (split; [reflexivity|]);
      rewrite ?elem_of_app, ?list_elem_of_singleton; auto.
Qed.

Lemma dispatch_results_consistent (sel h : str) (p : Z) (st : state) :
  sel ∉ requested (trace st) ->
  results_consistent st ->
  results_consistent (dispatch py_lower py_int w sel h p st).
Proof.
  intros Hfresh Hst. unfold dispatch.
  destruct (request w (trace st) h p sel) as [response duration].
  destruct response as [|c response].
  { eapply (results_consistent_requested st _ sel); try reflexivity;
      [left; reflexivity | exact Hfresh | exact Hst]. }
  set (flagged :=
         if is_problematic_resource py_lower sel (len (c :: response)) duration
         then _ else _).
  assert (Hflagged : results_consistent flagged
                     /\ requested (trace flagged) = sel :: requested (trace st)
                     /\ directories flagged = directories st
                     /\ file_sizes flagged = file_sizes st).
  { subst flagged. destruct (is_problematic_resource _ _ _ _);
      (split; [|repeat split; reflexivity]);
      (eapply (results_consistent_requested st _ sel); try reflexivity;
       [left; reflexivity | exact Hfresh | exact Hst]). }
  destruct Hflagged as (Hcons & Hreq & Hdirs & Hsizes).
  destruct (Parser.parse_gopher_menu py_int (c :: response)) as [|it items] eqn:Hmenu.
  - destruct (bool_decide (sel = []) || ends_with_char 47 sel) eqn:Hshape.
    + cbn [fold_left].
      destruct Hst as (Hdir & Hsize & Hcontent).
      destruct (mem sel (directories flagged)); cbn [negb]; [exact Hcons|].
      destruct Hcons as (Hdir' & Hsize' & Hcontent').
      unfold results_consistent. state_simpl.
      split; [|split; [|exact Hcontent']].
      * intros s Hs. apply elem_of_app in Hs as [Hs|Hs]; [exact (Hdir' s Hs)|].
        apply list_elem_of_singleton in Hs. subst s. rewrite Hreq. left.
      * intros s Hs. destruct (Hsize' s Hs) as (H1 & H2 & H3).
        split; [exact H1|]. split; [|exact H3].
        intros Hin. apply elem_of_app in Hin as [Hin|Hin]; [exact (H2 Hin)|].
        apply list_elem_of_singleton in Hin. subst s.
        rewrite Hsizes in Hs. apply Hfresh. exact (proj1 (Hsize sel Hs)).
    + apply orb_false_elim in Hshape as [Hempty Hslash].
      apply bool_decide_eq_false in Hempty.
      destruct Hst as (Hdir & Hsize & Hcontent).
      apply process_file_results_consistent; try assumption.
      * rewrite Hreq. left.
      * rewrite Hsizes. destruct (file_sizes st !! sel) eqn:Hlook; [|reflexivity].
        exfalso. apply Hfresh. exact (proj1 (Hsize sel (mk_is_Some _ _ Hlook))).
      * rewrite Hdirs. intros Hin. apply Hfresh. exact (Hdir sel Hin).
  - apply fold_left_invariant; [intros a x; apply process_item_results_consistent|].
    destruct Hst as (Hdir & Hsize & Hcontent).
    destruct (mem sel (directories flagged)); cbn [negb]; [exact Hcons|].
    destruct Hcons as (Hdir' & Hsize' & Hcontent').
    unfold results_consistent. state_simpl.
    split; [|split; [|exact Hcontent']].
    * intros s Hs. apply elem_of_app in Hs as [Hs|Hs]; [exact (Hdir' s Hs)|].
      apply list_elem_of_singleton in Hs. subst s. rewrite Hreq. left.
    * intros s Hs. destruct (Hsize' s Hs) as (H1 & H2 & H3).
      split; [exact H1|]. split; [|exact H3].
      intros Hin. apply elem_of_app in Hin as [Hin|Hin]; [exact (H2 Hin)|].
      apply list_elem_of_singleton in Hin. subst s.
      rewrite Hsizes in Hs. apply Hfresh. exact (proj1 (Hsize sel Hs)).
Qed.

Lemma step_results_consistent (st : state) :
  results_consistent st
  /\ (NoDup (requested (trace st))
      /\ forall s, s ∈ requested (trace st) -> s ∈ visited_selectors st) ->
  results_consistent (step py_lower py_int w st)
  /\ (NoDup (requested (trace (step py_lower py_int w st)))
      /\ forall s, s ∈ requested (trace (step py_lower py_int w st)) ->
                   s ∈ visited_selectors (step py_lower py_int w st)).
Proof.
  intros [Hcons Hdedup]. split; [|apply step_dedup; exact Hdedup].
  destruct (step_cases py_lower py_int w st)
    as [[_ ->] | (sel & h & p & rest & q' & _ & _ & ->)];
    [exact Hcons|].
  cbv zeta. destruct (mem sel (visited_selectors st)) eqn:Hmem; [exact Hcons|].
  apply mem_false in Hmem.
  apply dispatch_results_consistent; [|exact Hcons].
  intros Hin. apply Hmem. exact (proj2 Hdedup sel Hin).
Qed.
End ResultFacts.

(** X15.  After any number of iterations the results of the crawl hang
    together.  Every directory was requested.  Every selector with a
    recorded size was requested, is not a directory, is listed as a
    text or as a binary file, is not the root and does not end in a
    slash.  Every stored content belongs to a selector listed as text
    file, is text by [is_text_file], has the recorded size, and is
    smaller than one mebibyte. *)
Theorem results_hang_together
        (py_lower : str -> str) (py_int : str -> option Z) (w : Crawl.world)
        (host : str) (port : Z) (n : nat) :
  CrawlInv.results_consistent
    (Crawl.iterate py_lower py_int w n (Crawl.initial host port)).
Proof.
  apply (iterate_invariant py_lower py_int w
           (fun st =>
              CrawlInv.results_consistent st
              /\ (NoDup (Crawl.requested (Crawl.trace st))
                  /\ forall s, s ∈ Crawl.requested (Crawl.trace st) ->
                               s ∈ Crawl.visited_selectors st))).
  - apply step_results_consistent.
  - split; [|split; [apply NoDup_nil_2|]].
    + split; [|split].
      * intros sel H. apply elem_of_nil in H. destruct H.
      * intros sel [x H]. cbn in H. rewrite lookup_empty in H. discriminate.
      * intros sel content H. cbn in H. rewrite lookup_empty in H. discriminate.
    + intros s H. apply elem_of_nil in H. destruct H.
Qed.


(** *** What is recorded stays recorded *)

Ltac extends_component :=
  first [ reflexivity
        | apply union_subseteq_r
        | apply insert_subseteq; assumption
        | apply suffix_cons_r; reflexivity
        | apply suffix_cons_r, suffix_app_r; reflexivity
        | apply prefix_app_r; reflexivity
        | apply N.le_add_r ].

Ltac extends_explicit :=
  unfold CrawlInv.extends; state_simpl; repeat split; extends_component.

Section ExtensionFacts.
Import Crawl CrawlInv.
Variable py_lower : str -> str.
Variable py_int : str -> option Z.
Variable w : world.

Lemma extends_refl (st : state) : extends st st.
Proof. extends_explicit. Qed.

Lemma extends_trans (st1 st2 st3 : state) :
  extends st1 st2 -> extends st2 st3 -> extends st1 st3.
Proof.
  unfold extends.
  intros (A1 & A2 & A3 & A4 & A5 & A6 & A7 & A8 & A9 & A10 & A11 & A12)
         (B1 & B2 & B3 & B4 & B5 & B6 & B7 & B8 & B9 & B10 & B11 & B12).
  repeat split; try (etransitivity; eassumption).
Qed.

Lemma process_item_extends (h : str) (p : Z) (st : state) (it : Parser.item) :
  extends st (process_item py_lower w h p st it).
Proof. unfold process_item. repeat case_match; extends_explicit. Qed.

Lemma process_items_extends (h : str) (p : Z) (items : list Parser.item)
      (st : state) :
  extends st (fold_left (process_item py_lower w h p) items st).
Proof.
  apply (fold_left_invariant (extends st)); [|apply extends_refl].
  intros a x Ha. exact (extends_trans _ _ _ Ha (process_item_extends h p a x)).
Qed.

Lemma process_file_extends (sel : str) (response : bytes) (st : state) :
  file_sizes st !! sel = None ->
  text_file_contents st !! sel = None ->
  extends st (process_file sel response st).
Proof.
  intros Hsize Hcontent. unfold process_file. repeat case_match; extends_explicit.
Qed.

Lemma dispatch_extends (sel h : str) (p : Z) (st : state) :
  download_times st !! sel = None ->
  file_sizes st !! sel = None ->
  text_file_contents st !! sel = None ->
  extends st (dispatch py_lower py_int w sel h p st).
Proof.
  intros Htime Hsize Hcontent. unfold dispatch.
  destruct (request w (trace st) h p sel) as [response duration].
  destruct response as [|c response]; [extends_explicit|].
  set (flagged :=
         if is_problematic_resource py_lower sel (len (c :: response)) duration
         then _ else _).
  assert (Hflagged : extends st flagged
                     /\ file_sizes flagged = file_sizes st
                     /\ text_file_contents flagged = text_file_contents st).
  { subst flagged. destruct (is_problematic_resource _ _ _ _);
      (split; [extends_explicit | split; reflexivity]). }
  destruct Hflagged as (Hext & Hsizes & Hcontents).
  destruct (match Parser.parse_gopher_menu py_int (c :: response) with
            | [] => _ | _ :: _ => true end).
  - eapply extends_trans; [|apply process_items_extends].
    eapply extends_trans; [exact Hext|].
    destruct (mem sel (directories flagged)); cbn [negb];
      [apply extends_refl | extends_explicit].
  - eapply extends_trans; [exact Hext|].
    apply process_file_extends; congruence.
Qed.

Lemma process_item_download_times (h : str) (p : Z) (st : state) (it : Parser.item) :
  download_times (process_item py_lower w h p st it) = download_times st.
Proof. unfold process_item. repeat case_match; reflexivity. Qed.

Lemma process_file_download_times (sel : str) (response : bytes) (st : state) :
  download_times (process_file sel response st) = download_times st.
Proof. unfold process_file. repeat case_match; reflexivity. Qed.

Lemma dispatch_download_times (sel h : str) (p : Z) (st : state) :
  download_times (dispatch py_lower py_int w sel h p st)
  = <[sel := (request w (trace st) h p sel).2]> (download_times st).
Proof.
  unfold dispatch.
  destruct (request w (trace st) h p sel) as [response duration]. cbn [snd].
  destruct response as [|c response]; [reflexivity|].
  destruct (match Parser.parse_gopher_menu py_int (c :: response) with
            | [] => _ | _ :: _ => true end).
  - rewrite (fold_left_invariant
               (fun a => download_times a = <[sel := duration]> (download_times st))
               (process_item py_lower w h p)); [reflexivity| |].
    + intros a x Ha. rewrite process_item_download_times. exact Ha.
    + repeat case_match; reflexivity.
  - rewrite process_file_download_times. case_match; reflexivity.
Qed.

Lemma step_settled (st : state) :
  settled st -> settled (step py_lower py_int w st).
Proof.
  intros [Hres Htimed]. split; [apply step_results_consistent; exact Hres|].
  destruct Hres as [_ [_ Hvisited]].
  destruct (step_cases py_lower py_int w st)
    as [[_ ->] | (sel & h & p & rest & q' & _ & _ & ->)];
    [exact Htimed|].
  cbv zeta. destruct (mem sel (visited_selectors st)) eqn:Hmem; [exact Htimed|].
  unfold timed_are_requested.
  rewrite dispatch_download_times, dispatch_requested. state_simpl.
  intros s Hs. destruct (decide (s = sel)) as [->|Hdiff]; [left|].
  rewrite lookup_insert_ne in Hs by congruence. right. exact (Htimed s Hs).
Qed.

Lemma step_extends (st : state) :
  settled st -> extends st (step py_lower py_int w st).
Proof.
  intros [[(Hdir & Hsize & Hcontent) [_ Hvisited]] Htimed].
  destruct (step_cases py_lower py_int w st)
    as [[_ ->] | (sel & h & p & rest & q' & _ & _ & ->)];
    [apply extends_refl|].
  cbv zeta. destruct (mem sel (visited_selectors st)) eqn:Hmem;
    [extends_explicit|].
  apply mem_false in Hmem.
  assert (Hfresh : sel ∉ requested (trace st))
    by (intros Hin; exact (Hmem (Hvisited sel Hin))).
  eapply extends_trans; [|apply dispatch_extends]; state_simpl.
  - extends_explicit.
  - destruct (download_times st !! sel) eqn:Hlook; [|reflexivity].
    exfalso. exact (Hfresh (Htimed sel (mk_is_Some _ _ Hlook))).
  - destruct (file_sizes st !! sel) eqn:Hlook; [|reflexivity].
    exfalso. exact (Hfresh (proj1 (Hsize sel (mk_is_Some _ _ Hlook)))).
  - destruct (text_file_contents st !! sel) eqn:Hlook; [|reflexivity].
    exfalso. destruct (Hcontent sel _ Hlook) as [Hrecorded _].
    exact (Hfresh (proj1 (Hsize sel (mk_is_Some _ _ Hrecorded)))).
Qed.

Lemma initial_settled (host : str) (port : Z) : settled (initial host port).
Proof.
  split; [split; [split; [|split] | split; [apply NoDup_nil_2|]]|].
  - intros sel H. apply elem_of_nil in H. destruct H.
  - intros sel [x H]. cbn in H. rewrite lookup_empty in H. discriminate.
  - intros sel content H. cbn in H. rewrite lookup_empty in H. discriminate.
  - intros s H. apply elem_of_nil in H. destruct H.
  - intros sel [x H]. cbn in H. rewrite lookup_empty in H. discriminate.
Qed.

Lemma iterate_extends (k : nat) :
  forall st, settled st -> extends st (iterate py_lower py_int w k st).
Proof.
  induction k as [|k IH]; intros st Hst; [apply extends_refl|].
  cbn [iterate]. destruct (running st); [|apply extends_refl].
  eapply extends_trans; [apply step_extends; exact Hst|].
  apply IH, step_settled, Hst.
Qed.
End ExtensionFacts.

Lemma iterate_settled
      (py_lower : str -> str) (py_int : str -> option Z) (w : Crawl.world)
      (host : str) (port : Z) (n : nat) :
  CrawlInv.settled (Crawl.iterate py_lower py_int w n (Crawl.initial host port)).
Proof.
  apply (iterate_invariant py_lower py_int w CrawlInv.settled).
  - apply step_settled.
  - apply initial_settled.
Qed.

(** X16.  What the crawl has recorded after [n] iterations is still
    there after [n + k]: the visited, invalid and problematic sets and
    the dictionaries of server statuses, file sizes, stored contents
    and download times only gain entries (no entry is overwritten),
    the three result lists only grow at the end, and the counter does
    not go down. *)
Theorem recorded_results_are_kept
        (py_lower : str -> str) (py_int : str -> option Z) (w : Crawl.world)
        (host : str) (port : Z) (n k : nat) :
  CrawlInv.extends
    (Crawl.iterate py_lower py_int w n (Crawl.initial host port))
    (Crawl.iterate py_lower py_int w (n + k) (Crawl.initial host port)).
Proof.
  rewrite iterate_add. apply iterate_extends, iterate_settled.
Qed.


(** *** Ties and empty categories in the summary *)

Section TieFacts.
Import Stats.
Variable file_sizes : gmap str N.

Lemma file_extremes_snoc (files : list str) (file : str) :
  file_extremes file_sizes (files ++ [file])
  = scan_file file_sizes (file_extremes file_sizes files) file.
Proof. unfold file_extremes. rewrite fold_left_app. reflexivity. Qed.

Lemma smallest_is_first (files : list str) (f : str) (n : N) :
  smallest_file (file_extremes file_sizes files) = Some f ->
  smallest_size (file_extremes file_sizes files) = Finite n ->
  exists before after,
    files = before ++ f :: after
    /\ forall g m, g ∈ before -> file_sizes !! g = Some m -> n < m.
Proof.
  revert f n. induction files as [|file files IH] using rev_ind; intros f n.
  { cbn. discriminate. }
  rewrite file_extremes_snoc.
  pose proof (scan_file_fields file_sizes (file_extremes file_sizes files) file)
    as Hfields.
  pose proof (file_extremes_spec file_sizes files) as [Hsmall _].
  cbv zeta in Hfields, Hsmall.
  destruct (file_sizes !! file) as [size|] eqn:Hlook.
  - destruct Hfields as (-> & -> & _ & _).
    destruct (below size (smallest_size (file_extremes file_sizes files))) eqn:Hlt.
    + intros [= <-] [= <-]. exists files, []. split; [reflexivity|].
      intros g m Hg Hgm.
      destruct Hsmall as [(_ & _ & Hnone) | (f0 & n0 & _ & Hsize & _ & _ & Hmin)].
      * rewrite (Hnone g Hg) in Hgm. discriminate.
      * rewrite Hsize in Hlt. cbn [below] in Hlt. apply N.ltb_lt in Hlt.
        specialize (Hmin g m Hg Hgm). lia.
    + intros Hf Hn. destruct (IH f n Hf Hn) as (before & after & -> & Hbefore).
      exists before, (after ++ [file]). split; [|exact Hbefore].
      rewrite <- app_assoc. reflexivity.
  - rewrite Hfields. intros Hf Hn.
    destruct (IH f n Hf Hn) as (before & after & -> & Hbefore).
    exists before, (after ++ [file]). split; [|exact Hbefore].
    rewrite <- app_assoc. reflexivity.
Qed.

Lemma largest_is_first (files : list str) (f : str) :
  largest_file (file_extremes file_sizes files) = Some f ->
  exists before after,
    files = before ++ f :: after
    /\ forall g m, g ∈ before -> file_sizes !! g = Some m ->
                   m < largest_size (file_extremes file_sizes files).
Proof.
  revert f. induction files as [|file files IH] using rev_ind; intros f.
  { cbn. discriminate. }
  rewrite file_extremes_snoc.
  pose proof (scan_file_fields file_sizes (file_extremes file_sizes files) file)
    as Hfields.
  pose proof (file_extremes_spec file_sizes files) as [_ Hlarge].
  cbv zeta in Hfields, Hlarge.
  destruct (file_sizes !! file) as [size|] eqn:Hlook.
  - destruct Hfields as (_ & _ & -> & ->).
    destruct (largest_size (file_extremes file_sizes files) <? size) eqn:Hlt.
    + apply N.ltb_lt in Hlt. intros [= <-]. exists files, [].
      split; [reflexivity|]. intros g m Hg Hgm.
      destruct Hlarge as [(_ & _ & Hzero) | (f0 & _ & _ & _ & Hmax)].
      * rewrite (Hzero g m Hg Hgm). lia.
      * specialize (Hmax g m Hg Hgm). lia.
    + intros Hf. destruct (IH f Hf) as (before & after & -> & Hbefore).
      exists before, (after ++ [file]). split; [|exact Hbefore].
      rewrite <- app_assoc. reflexivity.
  - rewrite Hfields. intros Hf.
    destruct (IH f Hf) as (before & after & -> & Hbefore).
    exists before, (after ++ [file]). split; [|exact Hbefore].
    rewrite <- app_assoc. reflexivity.
Qed.
End TieFacts.

(** X17.  The comparisons of the summary are strict, so among files of
    the same extreme size the one listed first is chosen: every file
    listed before the smallest file is strictly larger, and every file
    listed before the largest file is strictly smaller. *)
Theorem first_listed_file_wins_a_tie
        (problematic : gset str) (file_sizes : gmap str N) (files : list str) :
  let e := Stats.summary problematic file_sizes files in
  (forall f n,
      Stats.smallest_file e = Some f -> Stats.smallest_size e = Stats.Finite n ->
      exists before after,
        Stats.clean problematic files = before ++ f :: after
        /\ forall g m, g ∈ before -> file_sizes !! g = Some m -> n < m)
  /\ (forall f,
        Stats.largest_file e = Some f ->
        exists before after,
          Stats.clean problematic files = before ++ f :: after
          /\ forall g m, g ∈ before -> file_sizes !! g = Some m ->
                         m < Stats.largest_size e).
Proof.
  intros e. split.
  - intros f n. apply smallest_is_first.
  - intros f. apply largest_is_first.
Qed.


(** *** The summary of a crawl *)

Section SummaryFacts.
Import Crawl CrawlInv.
Variable py_lower : str -> str.
Variable py_int : str -> option Z.
Variable w : world.

Lemma process_items_file_sizes (h : str) (p : Z) (items : list Parser.item)
      (st : state) :
  file_sizes (fold_left (process_item py_lower w h p) items st) = file_sizes st.
Proof.
  apply (fold_left_invariant (fun a => file_sizes a = file_sizes st));
    [|reflexivity].
  intros a x Ha.
  destruct (process_item_results py_lower py_int w h p a x) as (_ & Hf & _).
  cbv zeta in Hf. congruence.
Qed.

Lemma process_file_file_sizes (sel : str) (response : bytes) (st : state) :
  file_sizes (process_file sel response st) = <[sel := len response]> (file_sizes st).
Proof. unfold process_file. repeat case_match; reflexivity. Qed.

Lemma dispatch_sizes_positive (sel h : str) (p : Z) (st : state) :
  sizes_positive st -> sizes_positive (dispatch py_lower py_int w sel h p st).
Proof.
  intros Hst. unfold dispatch.
  destruct (request w (trace st) h p sel) as [response duration].
  destruct response as [|c response]; [exact Hst|].
  destruct (match Parser.parse_gopher_menu py_int (c :: response) with
            | [] => _ | _ :: _ => true end).
  - unfold sizes_positive. rewrite process_items_file_sizes.
    repeat case_match; exact Hst.
  - unfold sizes_positive. rewrite process_file_file_sizes.
    intros s n. destruct (decide (s = sel)) as [->|Hdiff].
    + rewrite lookup_insert_eq. intros [= <-]. unfold len. cbn [length]. lia.
    + rewrite lookup_insert_ne by congruence. case_match; apply Hst.
Qed.

Lemma step_sizes_positive (st : state) :
  sizes_positive st -> sizes_positive (step py_lower py_int w st).
Proof.
  intros Hst.
  destruct (step_cases py_lower py_int w st)
    as [[_ ->] | (sel & h & p & rest & q' & _ & _ & ->)];
    [exact Hst|].
  cbv zeta. destruct (mem sel (visited_selectors st)); [exact Hst|].
  apply dispatch_sizes_positive. exact Hst.
Qed.

Lemma iterate_sizes_positive (host : str) (port : Z) (n : nat) :
  sizes_positive (iterate py_lower py_int w n (initial host port)).
Proof.
  apply iterate_invariant; [apply step_sizes_positive|].
  intros sel m H. cbn in H. rewrite lookup_empty in H. discriminate.
Qed.
End SummaryFacts.

(** X18.  The summary of a crawl, for any list of files (the text
    files or the binary files): when one file of the list that is not
    problematic has a recorded size, both the smallest and the largest
    file are printed, with sizes between one byte and the size of that
    file on either side.  The sentinel is not printed. *)
Theorem measured_category_is_summarised
        (py_lower : str -> str) (py_int : str -> option Z) (w : Crawl.world)
        (host : str) (port : Z) (n : nat) (files : list str) (f : str) (size : N) :
  let st := Crawl.iterate py_lower py_int w n (Crawl.initial host port) in
  let e := Stats.summary (Crawl.problematic_resources st) (Crawl.file_sizes st) files in
  f ∈ files -> f ∉ Crawl.problematic_resources st ->
  Crawl.file_sizes st !! f = Some size ->
  exists smallest least largest most,
    Stats.printed_smallest e = Some (smallest, Stats.Finite least)
    /\ Stats.printed_largest e = Some (largest, most)
    /\ 0 < least /\ least <= size /\ size <= most.
Proof.
  intros st e Hin Hclean Hsize.
  pose proof (iterate_sizes_positive py_lower py_int w host port n) as Hpos.
  destruct (iterate_settled py_lower py_int w host port n)
    as [[(_ & Hsized & _) _] _].
  fold st in Hpos, Hsized.
  assert (Hf : f ∈ Stats.clean (Crawl.problematic_resources st) files).
  { unfold Stats.clean. apply list_elem_of_filter. split; assumption. }
  destruct (file_extremes_spec (Crawl.file_sizes st)
              (Stats.clean (Crawl.problematic_resources st) files))
    as [Hsmall Hlarge].
  fold (Stats.summary (Crawl.problematic_resources st) (Crawl.file_sizes st) files)
    in Hsmall, Hlarge.
  fold e in Hsmall, Hlarge.
  destruct Hsmall as [(_ & _ & Hnone) | (fs & least & Hfs & Hleast & _ & Hlook & Hmin)].
  { rewrite (Hnone f Hf) in Hsize. discriminate. }
  destruct Hlarge as [(_ & _ & Hzero) | (fl & Hfl & _ & Hlook' & Hmax)].
  { pose proof (Hzero f size Hf Hsize). pose proof (Hpos f size Hsize). lia. }
  assert (Hnonempty : forall g m, Crawl.file_sizes st !! g = Some m ->
                                  exists c g', g = c :: g').
  { intros g m Hg. destruct (Hsized g (mk_is_Some _ _ Hg)) as (_ & _ & _ & Hne & _).
    destruct g as [|c g']; [contradiction|]. eauto. }
  destruct (Hnonempty fs least Hlook) as (c1 & s1 & ->).
  destruct (Hnonempty fl _ Hlook') as (c2 & s2 & ->).
  exists (c1 :: s1), least, (c2 :: s2), (Stats.largest_size e).
  unfold Stats.printed_smallest, Stats.printed_largest.
  rewrite Hfs, Hfl, Hleast. cbn [Stats.truthy].
  split; [reflexivity|]. split; [reflexivity|].
  split; [exact (Hpos _ _ Hlook)|].
  split; [exact (Hmin f size Hf Hsize) | exact (Hmax f size Hf Hsize)].
Qed.

Lemma measured_category_is_summarised_witness :
  let st := Crawl.iterate Crawl.ascii_lower Parser.ascii_int
                          Scenarios.stalled_world 3
                          (Crawl.initial (u "example.org") 70) in
  exists smallest least largest most,
    Stats.printed_smallest
      (Stats.summary (Crawl.problematic_resources st) (Crawl.file_sizes st)
                     (Crawl.text_files st))
    = Some (smallest, Stats.Finite least)
    /\ Stats.printed_largest
         (Stats.summary (Crawl.problematic_resources st) (Crawl.file_sizes st)
                        (Crawl.text_files st))
       = Some (largest, most)
    /\ 0 < least /\ least <= 5 /\ 5 <= most.
Proof.
  apply (measured_category_is_summarised
           Crawl.ascii_lower Parser.ascii_int Scenarios.stalled_world
           (u "example.org") 70 3 _ (u "/slow") 5).
  - vm_compute. left.
  - vm_compute. intros H. discriminate H.
  - vm_compute. reflexivity.
Defined.


(** ** The first draft *)

Section Draft1Facts.
Import Stats Draft1 Draft1Inv.
Variable py_int : str -> option Z.
Variable server : str -> option bytes.
Variable connect : str -> Z -> bool.
Variable self_host : str.
Variable self_port : Z.

Lemma same_statistics_consistent (c c' : client) :
  same_statistics c c' -> stats_consistent c -> stats_consistent c'.
Proof.
  unfold same_statistics, stats_consistent.
  intros (-> & -> & -> & -> & -> & ->) H. exact H.
Qed.

Lemma handle_binary_consistent (sel : str) (c : client) :
  stats_consistent c -> stats_consistent (handle_binary server sel c).
Proof.
  intros Hc. unfold handle_binary. destruct (server sel) as [data|];
    [|apply (same_statistics_consistent c); [repeat split|exact Hc]].
  destruct Hc as (Hnone & Htext & Hbin & Hleast & Htexts & Hsmallest
                  & Hb0 & Hbmax & Ht0 & Htmax).
  unfold stats_consistent.
  cbn [binary_files text_files smallest_text largest_text_size
       smallest_binary_size largest_binary_size].
  split; [|split; [exact Htext|split; [|split; [|split; [exact Htexts|
    split; [exact Hsmallest|split; [|split; [|split; [exact Ht0|exact Htmax]]]]]]]]].
  - split.
    + intros H. destruct (smallest_binary_size c) as [m|]; cbn [below] in H.
      * destruct (len data <? m); discriminate.
      * discriminate.
    + intros H. destruct (binary_files c); discriminate.
  - intros s size Hin. apply elem_of_app in Hin as [Hin|Hin].
    + destruct (Hbin s size Hin) as (least & Hl & Hle & Hmax). rewrite Hl.
      cbn [below]. destruct (len data <? least) eqn:Hlt.
      * apply N.ltb_lt in Hlt. exists (len data). split; [reflexivity|].
        split; [lia|]. destruct (largest_binary_size c <? len data) eqn:Hgt;
          [apply N.ltb_lt in Hgt|]; lia.
      * exists least. split; [reflexivity|]. split; [lia|].
        destruct (largest_binary_size c <? len data) eqn:Hgt;
          [apply N.ltb_lt in Hgt|]; lia.
    + apply list_elem_of_singleton in Hin. injection Hin as -> ->.
      destruct (smallest_binary_size c) as [m|]; cbn [below].
      * destruct (len data <? m) eqn:Hlt.
        -- exists (len data). split; [reflexivity|]. split; [lia|].
           destruct (largest_binary_size c <? len data) eqn:Hgt;
             [|apply N.ltb_ge in Hgt]; lia.
        -- apply N.ltb_ge in Hlt. exists m. split; [reflexivity|]. split; [lia|].
           destruct (largest_binary_size c <? len data) eqn:Hgt;
             [|apply N.ltb_ge in Hgt]; lia.
      * exists (len data). split; [reflexivity|]. split; [lia|].
        destruct (largest_binary_size c <? len data) eqn:Hgt;
          [|apply N.ltb_ge in Hgt]; lia.
  - intros least Hl. destruct (smallest_binary_size c) as [m|] eqn:Hm;
      cbn [below] in Hl.
    + destruct (len data <? m).
      * injection Hl as <-. exists sel. apply elem_of_app. right. left.
      * injection Hl as <-. destruct (Hleast m eq_refl) as (s & Hs).
        exists s. apply elem_of_app. left. exact Hs.
    + injection Hl as <-. exists sel. apply elem_of_app. right. left.
  - intros H. destruct (binary_files c); discriminate.
  - intros _. destruct (largest_binary_size c <? len data) eqn:Hgt.
    + exists sel. apply elem_of_app. right. left.
    + apply N.ltb_ge in Hgt. destruct (binary_files c) as [|e l] eqn:Hl.
      * assert (Hzero : largest_binary_size c = len data)
          by (specialize (Hb0 eq_refl); lia).
        exists sel. rewrite Hzero. left.
      * destruct (Hbmax ltac:(discriminate)) as (s & Hs).
        exists s. apply elem_of_app. left. exact Hs.
Qed.

Lemma handle_text_consistent (sel : str) (c : client) :
  stats_consistent c -> stats_consistent (handle_text server sel c).
Proof.
  intros Hc. unfold handle_text.
  destruct (send_request server sel) as [[|ch rest]|]; try exact Hc.
  set (data := ch :: rest).
  destruct Hc as (Hnone & Htext & Hbin & Hleast & Htexts & Hsmallest
                  & Hb0 & Hbmax & Ht0 & Htmax).
  unfold stats_consistent.
  cbn [binary_files text_files smallest_text largest_text_size
       smallest_binary_size largest_binary_size].
  split; [exact Hnone|].
  split; [|split; [exact Hbin|split; [exact Hleast|split; [|
    split; [|split; [exact Hb0|split; [exact Hbmax|split]]]]]]].
  - split.
    + intros H. destruct (smallest_text c) as [old|]; [|discriminate].
      destruct (encoded_length data <? encoded_length old); discriminate.
    + intros H. destruct (text_files c); discriminate.
  - intros s size Hin. apply elem_of_app in Hin as [Hin|Hin].
    + destruct (Htexts s size Hin) as (text & Ht & Hle & Hmax). rewrite Ht.
      destruct (encoded_length data <? encoded_length text) eqn:Hlt.
      * apply N.ltb_lt in Hlt. exists data. split; [reflexivity|].
        split; [lia|]. destruct (largest_text_size c <? encoded_length data) eqn:Hgt;
          [apply N.ltb_lt in Hgt|]; lia.
      * exists text. split; [reflexivity|]. split; [lia|].
        destruct (largest_text_size c <? encoded_length data) eqn:Hgt;
          [apply N.ltb_lt in Hgt|]; lia.
    + apply list_elem_of_singleton in Hin. injection Hin as -> ->.
      destruct (smallest_text c) as [old|].
      * destruct (encoded_length data <? encoded_length old) eqn:Hlt.
        -- exists data. split; [reflexivity|]. split; [lia|].
           destruct (largest_text_size c <? encoded_length data) eqn:Hgt;
             [|apply N.ltb_ge in Hgt]; lia.
        -- apply N.ltb_ge in Hlt. exists old. split; [reflexivity|]. split; [lia|].
           destruct (largest_text_size c <? encoded_length data) eqn:Hgt;
             [|apply N.ltb_ge in Hgt]; lia.
      * exists data. split; [reflexivity|]. split; [lia|].
        destruct (largest_text_size c <? encoded_length data) eqn:Hgt;
          [|apply N.ltb_ge in Hgt]; lia.
  - intros text Ht. destruct (smallest_text c) as [old|] eqn:Hold.
    + destruct (encoded_length data <? encoded_length old).
      * injection Ht as <-. split; [discriminate|].
        exists sel. apply elem_of_app. right. left.
      * injection Ht as <-. destruct (Hsmallest old eq_refl) as (Hne & s & Hs).
        split; [exact Hne|]. exists s. apply elem_of_app. left. exact Hs.
    + injection Ht as <-. split; [discriminate|].
      exists sel. apply elem_of_app. right. left.
  - intros H. destruct (text_files c); discriminate.
  - intros _. destruct (largest_text_size c <? encoded_length data) eqn:Hgt.
    + exists sel. apply elem_of_app. right. left.
    + apply N.ltb_ge in Hgt. destruct (text_files c) as [|e l] eqn:Hl.
      * assert (Hzero : largest_text_size c = encoded_length data)
          by (specialize (Ht0 eq_refl); lia).
        exists sel. rewrite Hzero. left.
      * destruct (Htmax ltac:(discriminate)) as (s & Hs).
        exists s. apply elem_of_app. left. exact Hs.
Qed.

Lemma check_external_server_consistent (host port : str) (c : client) :
  stats_consistent c ->
  stats_consistent (check_external_server py_int connect host port c).
Proof.
  intros Hc. unfold check_external_server.
  destruct (external_servers c !! _); [exact Hc|].
  apply (same_statistics_consistent c); [repeat split|exact Hc].
Qed.

Lemma crawl_consistent (fuel : nat) :
  forall sel c c',
    stats_consistent c ->
    crawl py_int server connect self_host self_port fuel sel c = Done c' ->
    stats_consistent c'.
Proof.
  induction fuel as [|fuel IH]; intros sel c c' Hc Hrun; [discriminate|].
  cbn [crawl] in Hrun.
  destruct (bool_decide (sel ∈ visited_selectors c)).
  { injection Hrun as <-. exact Hc. }
  match type of Hrun with
  | context [send_request _ _] => idtac
  end.
  assert (Hc0 : stats_consistent
                  (Client ({[sel]} ∪ visited_selectors c) (text_files c)
                          (binary_files c) (directories c) (invalid_refs c)
                          (external_servers c) (smallest_text c)
                          (largest_text_size c) (smallest_binary_size c)
                          (largest_binary_size c)))
    by (apply (same_statistics_consistent c); [repeat split|exact Hc]).
  revert Hc0 Hrun.
  generalize (Client ({[sel]} ∪ visited_selectors c) (text_files c)
                     (binary_files c) (directories c) (invalid_refs c)
                     (external_servers c) (smallest_text c)
                     (largest_text_size c) (smallest_binary_size c)
                     (largest_binary_size c)).
  clear c Hc. intros c Hc.
  destruct (send_request server sel) as [[|ch rest]|];
    try (intros [= <-]; exact Hc).
  generalize (split_char 10 (strip (ch :: rest))). intros lines.
  revert c Hc. induction lines as [|line more IHlines]; intros c Hc Hrun.
  { injection Hrun as <-. exact Hc. }
  destruct line as [|item_type fields]; [exact (IHlines c Hc Hrun)|].
  destruct (item_type =? 46); [exact (IHlines c Hc Hrun)|].
  assert (Hinvalid : forall ref, stats_consistent (add_invalid ref c))
    by (intros ref; apply (same_statistics_consistent c); [repeat split|exact Hc]).
  destruct (split_tab fields) as [|name [|path [|host [|port rest']]]];
    try exact (IHlines _ (Hinvalid _) Hrun).
  destruct (item_type =? 49).
  - assert (Hdir : stats_consistent
                     (Client (visited_selectors c) (text_files c) (binary_files c)
                             (directories c ++ [path]) (invalid_refs c)
                             (external_servers c) (smallest_text c)
                             (largest_text_size c) (smallest_binary_size c)
                             (largest_binary_size c)))
      by (apply (same_statistics_consistent c); [repeat split|exact Hc]).
    destruct (bool_decide (host = self_host)).
    + destruct (py_int port) as [p|]; [|discriminate].
      destruct (bool_decide (p = self_port)).
      * destruct (crawl py_int server connect self_host self_port fuel path _)
          as [c1| |] eqn:Hinner; try discriminate.
        exact (IHlines c1 (IH _ _ _ Hdir Hinner) Hrun).
      * exact (IHlines _ (check_external_server_consistent _ _ _ Hdir) Hrun).
    + exact (IHlines _ (check_external_server_consistent _ _ _ Hdir) Hrun).
  - destruct (item_type =? 48);
      [exact (IHlines _ (handle_text_consistent _ _ Hc) Hrun)|].
    destruct (item_type =? 57);
      [exact (IHlines _ (handle_binary_consistent _ _ Hc) Hrun)|].
    destruct (item_type =? 105); [exact (IHlines c Hc Hrun)|].
    exact (IHlines _ (Hinvalid _) Hrun).
Qed.

End Draft1Facts.

Lemma new_client_consistent : Draft1Inv.stats_consistent Draft1.new_client.
Proof.
  unfold Draft1Inv.stats_consistent, Draft1.new_client. cbn.
  split; [tauto|]. split; [tauto|].
  split; [intros s n H; apply elem_of_nil in H; destruct H|].
  split; [discriminate|].
  split; [intros s n H; apply elem_of_nil in H; destruct H|].
  split; [discriminate|].
  split; [reflexivity|]. split; [congruence|].
  split; [reflexivity|congruence].
Qed.

(** X19.  In the first draft the running statistics agree with the
    recorded files whenever a crawl returns: the smallest binary size
    is the sentinel exactly when no binary file was recorded, and
    otherwise it is the least and the largest size is the greatest of
    the recorded sizes; the smallest text is missing exactly when no
    text file was recorded, and otherwise it is a non-empty text whose
    encoded length is the least recorded size.  So [print_summary]
    fails exactly when no text file was recorded, and prints the
    sentinel exactly when no binary file was. *)
Theorem first_draft_statistics_match_its_lists
        (py_int : str -> option Z) (server : str -> option bytes)
        (connect : str -> Z -> bool) (host : str) (port : Z)
        (fuel : nat) (c : Draft1.client) :
  Draft1.crawl py_int server connect host port fuel [] Draft1.new_client
  = Draft1.Done c ->
  Draft1Inv.stats_consistent c
  /\ (Draft1.print_summary c = None <-> Draft1.text_files c = [])
  /\ (forall s, Draft1.print_summary c = Some s ->
        (Draft1.shown_smallest_binary_size s = Stats.Infinity
         <-> Draft1.binary_files c = [])).
Proof.
  intros Hrun.
  pose proof (crawl_consistent py_int server connect host port fuel [] _ c
                (new_client_consistent) Hrun) as Hc.
  split; [exact Hc|].
  destruct Hc as (Hnone & Htext & _).
  unfold Draft1.print_summary. split.
  - rewrite <- Htext. destruct (Draft1.smallest_text c); split; congruence.
  - intros s. destruct (Draft1.smallest_text c); [|discriminate].
    intros [= <-]. exact Hnone.
Qed.

Lemma first_draft_statistics_match_its_lists_witness :
  exists c,
    Draft1.crawl Parser.ascii_int Scenarios.text_only_server (fun _ _ => false)
                 (u "example.org") 70 10 [] Draft1.new_client = Draft1.Done c
    /\ Draft1Inv.stats_consistent c
    /\ (Draft1.print_summary c = None <-> Draft1.text_files c = [])
    /\ (forall s, Draft1.print_summary c = Some s ->
          (Draft1.shown_smallest_binary_size s = Stats.Infinity
           <-> Draft1.binary_files c = [])).
Proof.
  eexists. split; [vm_compute; reflexivity|].
  apply (first_draft_statistics_match_its_lists
           Parser.ascii_int Scenarios.text_only_server (fun _ _ => false)
           (u "example.org") 70 10).
  vm_compute. reflexivity.
Defined.


(** ** The third draft *)

Ltac client_simpl :=
  unfold Draft3Inv.listed, Draft3.with_visited_paths, Draft3.with_visited_servers,
    Draft3.with_directories, Draft3.with_text_files, Draft3.with_binary_files,
    Draft3.with_error_refs, Draft3.with_external_servers,
    Draft3.with_text_file_sizes, Draft3.with_binary_file_sizes,
    Draft3.with_downloaded_text, Draft3.with_requests;
  cbn [Draft3.visited_paths Draft3.visited_servers Draft3.directories
       Draft3.text_files Draft3.binary_files Draft3.error_refs
       Draft3.external_servers Draft3.text_file_sizes Draft3.binary_file_sizes
       Draft3.downloaded_text Draft3.requests].

Lemma NoDup_listed_append (d t b : list str) (p : str) :
  p ∉ d ++ t ++ b -> NoDup (d ++ t ++ b) ->
  NoDup ((d ++ [p]) ++ t ++ b)
  /\ NoDup (d ++ (t ++ [p]) ++ b)
  /\ NoDup (d ++ t ++ b ++ [p]).
Proof.
  rewrite !NoDup_app, !elem_of_app.
  intros Hp (Hd & Hdt & Ht & Htb & Hb).
  assert (Hs : NoDup [p]) by apply NoDup_singleton.
  repeat split; try assumption;
    intros x; rewrite ?elem_of_app, ?list_elem_of_singleton;
    intros Hx; try intros Hy; rewrite ?elem_of_app, ?list_elem_of_singleton in *;
    try (specialize (Hdt x)); try (specialize (Htb x));
    rewrite ?elem_of_app in *; intuition (subst; tauto).
Qed.


Section Draft3Facts.
Import Draft3 Draft3Inv.
Variable py_int : str -> option Z.
Variable net : list str -> str -> reply.
Variable connect : str -> Z -> bool.
Variable self_host : str.
Variable self_port : Z.

Lemma requested_sound (path : str) (c : client) :
  sound net c -> path ∉ visited_paths c ->
  net (requests c) path <> Unreachable ->
  sound net (requested path c)
  /\ (path ∉ listed (requested path c))
  /\ path ∈ requests (requested path c)
  /\ path ∈ visited_paths (requested path c).
Proof.
  intros [(Hlisted & Hreqs & Hsub & Hvis & Hroot & Hbin & Htext & Hcontent & Hserv)
          Hreached] Hfresh Hreply.
  unfold requested. client_simpl.
  assert (Hnew : path ∉ requests c) by (intros H; apply Hfresh, Hvis, H).
  split; [split|split; [|split]].
  - unfold consistent. client_simpl.
    split; [exact Hlisted|]. split; [apply NoDup_cons; split; assumption|].
    split; [intros p Hp; right; exact (Hsub p Hp)|].
    split; [|tauto].
    intros p. rewrite elem_of_cons, elem_of_union, elem_of_singleton, Hvis.
    reflexivity.
  - intros later p older. client_simpl. destruct later as [|x later]; cbn [app].
    + intros [= <- <-]. exact Hreply.
    + intros [= _ H]. exact (Hreached later p older H).
  - intros H. exact (Hnew (Hsub path H)).
  - left.
  - apply elem_of_union_l, elem_of_singleton. reflexivity.
Qed.

Lemma recorded_binary_sound (path : str) (n : N) (c : client) :
  sound net c -> path ∉ listed c -> path ∈ requests c ->
  sound net (with_binary_file_sizes (insert path n)
               (with_binary_files (fun l => l ++ [path]) c)).
Proof.
  intros [(Hlisted & Hreqs & Hsub & Hvis & Hroot & Hbin & Htext & Hcontent & Hserv)
          Hreached] Hfresh Hin.
  split; [|exact Hreached].
  unfold consistent. client_simpl. unfold listed in Hfresh, Hlisted, Hsub.
  split; [exact (proj2 (proj2 (NoDup_listed_append _ _ _ _ Hfresh Hlisted)))|].
  split; [exact Hreqs|].
  split.
  { intros p. rewrite !app_assoc, elem_of_app, list_elem_of_singleton.
    rewrite <- app_assoc. intros [Hp | ->]; [exact (Hsub p Hp) | exact Hin]. }
  split; [exact Hvis|]. split; [exact Hroot|].
  split.
  { intros p. rewrite lookup_insert_is_Some, elem_of_app, list_elem_of_singleton, Hbin.
    destruct (decide (path = p)); intuition congruence. }
  split; [exact Htext|]. split; [exact Hcontent | exact Hserv].
Qed.

Lemma recorded_text_sound (path content : str) (c : client) :
  sound net c -> path ∉ listed c -> path ∈ requests c ->
  content <> [] -> is_binary_content content = false ->
  sound net (with_downloaded_text (insert path content)
               (with_text_file_sizes (insert path (Draft1.encoded_length content))
                  (with_text_files (fun l => l ++ [path]) c))).
Proof.
  intros [(Hlisted & Hreqs & Hsub & Hvis & Hroot & Hbin & Htext & Hcontent & Hserv)
          Hreached] Hfresh Hin Hne Hlooks.
  split; [|exact Hreached].
  unfold consistent. client_simpl. unfold listed in Hfresh, Hlisted, Hsub.
  split; [exact (proj1 (proj2 (NoDup_listed_append _ _ _ _ Hfresh Hlisted)))|].
  split; [exact Hreqs|].
  split.
  { intros p. rewrite !elem_of_app, list_elem_of_singleton.
    intros [Hp | [[Hp | ->] | Hp]]; try exact Hin;
      apply Hsub; rewrite !elem_of_app; tauto. }
  split; [exact Hvis|]. split; [exact Hroot|]. split; [exact Hbin|].
  split.
  { intros p. rewrite lookup_insert_is_Some, elem_of_app, list_elem_of_singleton, Htext.
    destruct (decide (path = p)); intuition congruence. }
  split; [|exact Hserv].
  intros p Hp. apply elem_of_app in Hp as [Hp|Hp].
  - assert (Hdiff : path <> p).
    { intros ->. apply Hfresh. rewrite !elem_of_app. tauto. }
    rewrite !lookup_insert_ne by exact Hdiff. exact (Hcontent p Hp).
  - apply list_elem_of_singleton in Hp. subst p. exists content.
    rewrite !lookup_insert_eq. tauto.
Qed.

Lemma recorded_directory_sound (path : str) (c : client) :
  sound net c -> path ∉ listed c -> path ∈ requests c -> path <> [] ->
  sound net (with_directories (fun l => l ++ [path]) c).
Proof.
  intros [(Hlisted & Hreqs & Hsub & Hvis & Hroot & Hbin & Htext & Hcontent & Hserv)
          Hreached] Hfresh Hin Hne.
  split; [|exact Hreached].
  unfold consistent. client_simpl. unfold listed in Hfresh, Hlisted, Hsub.
  split; [exact (proj1 (NoDup_listed_append _ _ _ _ Hfresh Hlisted))|].
  split; [exact Hreqs|].
  split.
  { intros p. rewrite !elem_of_app, list_elem_of_singleton.
    intros [[Hp | ->] | Hp]; try exact Hin;
      apply Hsub; rewrite !elem_of_app; tauto. }
  split; [exact Hvis|].
  split.
  { rewrite elem_of_app, list_elem_of_singleton. intros [H | H]; [exact (Hroot H)|].
    exact (Hne (eq_sym H)). }
  tauto.
Qed.

Lemma process_binary_file_ended_well (path : str) (c : client) :
  sound net c -> ended_well net (process_binary_file net path c).
Proof.
  intros Hc. unfold process_binary_file.
  destruct (Crawl.mem path (visited_paths c)) eqn:Hmem; [exact Hc|].
  apply mem_false in Hmem. unfold send_request. client_simpl.
  pose proof (requested_sound path c Hc Hmem) as Hreq.
  destruct (net (requests c) path) as [data| |] eqn:Hnet;
    [| |exists (requests c), path; exact Hnet].
  - destruct (Hreq ltac:(discriminate)) as (Hsound & Hfresh & Hin & _).
    destruct (decode data) as [|ch rest]; [exact Hsound|].
    exact (recorded_binary_sound path _ _ Hsound Hfresh Hin).
  - exact (proj1 (Hreq ltac:(discriminate))).
Qed.

Lemma process_binary_file_visited (path : str) (c : client) :
  path ∈ visited_paths c -> process_binary_file net path c = Returned c.
Proof.
  intros H. unfold process_binary_file.
  rewrite (proj2 (mem_true path (visited_paths c)) H). reflexivity.
Qed.

Lemma process_text_file_ended_well (path : str) (c : client) :
  sound net c -> ended_well net (process_text_file net path c).
Proof.
  intros Hc. unfold process_text_file.
  destruct (Crawl.mem path (visited_paths c)) eqn:Hmem; [exact Hc|].
  apply mem_false in Hmem. unfold send_request. client_simpl.
  pose proof (requested_sound path c Hc Hmem) as Hreq.
  destruct (net (requests c) path) as [data| |] eqn:Hnet;
    [| |exists (requests c), path; exact Hnet].
  - destruct (Hreq ltac:(discriminate)) as (Hsound & Hfresh & Hin & Hvisited).
    destruct (decode data) as [|ch rest]; [exact Hsound|].
    destruct (is_binary_content (ch :: rest)) eqn:Hlooks.
    + rewrite process_binary_file_visited by exact Hvisited. exact Hsound.
    + exact (recorded_text_sound path (ch :: rest) _ Hsound Hfresh Hin
               ltac:(discriminate) Hlooks).
  - exact (proj1 (Hreq ltac:(discriminate))).
Qed.

Lemma check_external_server_ended_well (h : str) (p : Z) (c : client) :
  sound net c -> ended_well net (check_external_server connect h p c).
Proof.
  intros Hc. unfold check_external_server.
  destruct Hc as [(Hlisted & Hreqs & Hsub & Hvis & Hroot & Hbin & Htext
                   & Hcontent & Hserv) Hreached].
  destruct (Crawl.mem (h, p) (visited_servers c)) eqn:Hmem.
  - apply (proj1 (mem_true _ _)) in Hmem. apply Hserv in Hmem as [up ->].
    split; [|exact Hreached]. unfold consistent. tauto.
  - split; [|exact Hreached]. unfold consistent. client_simpl.
    repeat (split; [assumption|]).
    intros k. rewrite elem_of_union, elem_of_singleton, lookup_insert_is_Some, Hserv.
    destruct (decide ((h, p) = k)); intuition congruence.
Qed.

Lemma error_ref_sound (sel : str) (c : client) :
  sound net c -> sound net (with_error_refs (fun l => l ++ [sel]) c).
Proof. intros Hc. exact Hc. Qed.

Lemma process_directory_ended_well (fuel : nat) :
  forall path c,
    sound net c ->
    ended_well net
      (process_directory py_int net connect self_host self_port fuel path c).
Proof.
  induction fuel as [|fuel IH]; intros path c Hc; [exact I|].
  cbn [process_directory].
  destruct (Crawl.mem path (visited_paths c)) eqn:Hmem; [exact Hc|].
  apply mem_false in Hmem. unfold send_request. client_simpl.
  pose proof (requested_sound path c Hc Hmem) as Hreq.
  destruct (net (requests c) path) as [data| |] eqn:Hnet;
    [| |exists (requests c), path; exact Hnet];
    [|exact (proj1 (Hreq ltac:(discriminate)))].
  destruct (Hreq ltac:(discriminate)) as (Hsound & Hfresh & Hin & _).
  destruct (decode data) as [|ch rest]; [exact Hsound|].
  match goal with
  | |- ended_well net (_ ?lines ?start) =>
    assert (Hstart : sound net start);
      [|revert Hstart; generalize start; generalize lines]
  end.
  { destruct (bool_decide (path = [])) eqn:Hroot; [exact Hsound|].
    apply bool_decide_eq_false in Hroot.
    exact (recorded_directory_sound path _ Hsound Hfresh Hin Hroot). }
  clear Hnet Hreq Hsound Hfresh Hin Hmem Hc. clear c.
  intros lines. induction lines as [|line more IHlines]; intros c Hc; [exact Hc|].
  destruct (bool_decide (line = []) || bool_decide (line = u "."));
    [exact (IHlines c Hc)|].
  destruct (Parser.parse_gopher_line py_int line) as [it|]; [|exact (IHlines c Hc)].
  cbv zeta.
  destruct (bool_decide (Parser.host it = self_host)
            && bool_decide (Parser.port it = self_port)).
  - destruct (Parser.type it =? 49).
    { pose proof (IH (Parser.selector it) c Hc) as Ho.
      destruct (process_directory _ _ _ _ _ _ _ _) as [c0|e|];
        [exact (IHlines c0 Ho) | exact Ho | exact I]. }
    destruct (Parser.type it =? 48).
    { pose proof (process_text_file_ended_well (Parser.selector it) c Hc) as Ho.
      destruct (process_text_file _ _ _) as [c0|e|];
        [exact (IHlines c0 Ho) | exact Ho | exact I]. }
    destruct ((Parser.type it =? 57) || (Parser.type it =? 53)).
    { pose proof (process_binary_file_ended_well (Parser.selector it) c Hc) as Ho.
      destruct (process_binary_file _ _ _) as [c0|e|];
        [exact (IHlines c0 Ho) | exact Ho | exact I]. }
    destruct (Parser.type it =? 51); [|exact (IHlines c Hc)].
    destruct (Crawl.mem _ _); [exact (IHlines c Hc)|].
    exact (IHlines _ (error_ref_sound _ _ Hc)).
  - destruct (external_servers c !! _); [exact (IHlines c Hc)|].
    pose proof (check_external_server_ended_well
                  (Parser.host it) (Parser.port it) c Hc) as Ho.
    destruct (check_external_server _ _ _ _) as [c0|e|];
      [exact (IHlines c0 Ho) | exact Ho | exact I].
Qed.
End Draft3Facts.


Lemma plain_is_ascii (data : bytes) :
  Forall Draft3Inv.plain data -> Forall (fun c => Byte.to_N c < 0x80) data.
Proof.
  intros Hplain. eapply Forall_impl; [exact Hplain|]. unfold Draft3Inv.plain.
  intros c [H|H]; [lia|].
  repeat (apply elem_of_cons in H as [->|H]; [lia|]).
  apply elem_of_nil in H. destruct H.
Qed.

Lemma plain_is_not_binary_content (data : bytes) :
  Forall Draft3Inv.plain data ->
  Draft3.is_binary_content (decode_latin1 data) = false.
Proof.
  intros Hplain. unfold Draft3.is_binary_content, decode_latin1.
  assert (Hnul : (0:N) ∉ map Byte.to_N data).
  { intros Hin. apply list_elem_of_fmap in Hin as (c & Hc & Hin).
    rewrite Forall_forall in Hplain. destruct (Hplain c Hin) as [H|H]; [lia|].
    rewrite <- Hc in H.
    repeat (apply elem_of_cons in H as [H|H]; [discriminate|]).
    apply elem_of_nil in H. exact H. }
  rewrite (proj2 (mem_false _ _) Hnul).
  replace (filter _ (map Byte.to_N data)) with (@nil N); [apply N.ltb_ge, N.le_0_l|].
  symmetry. clear Hnul. induction Hplain as [|c data Hc _ IH]; [reflexivity|].
  cbn [map]. rewrite filter_cons_False; [exact IH|].
  intros [Hrange Hspecial]. destruct Hc as [Hc|Hc]; [exact (Hrange Hc)|].
  exact (Hspecial Hc).
Qed.

Lemma encoded_length_ascii (s : str) :
  Forall (fun c => c < 0x80) s -> Draft1.encoded_length s = len s.
Proof.
  intros Hs. unfold Draft1.encoded_length.
  assert (Hgen : forall acc,
             fold_left (fun acc c =>
                          acc + (if c <? 0x80 then 1 else if c <? 0x800 then 2
                                 else if c <? 0x10000 then 3 else 4)) s acc
             = acc + len s).
  { induction Hs as [|c s Hc _ IH]; intros acc.
    - unfold len. cbn. lia.
    - cbn [fold_left]. rewrite IH. apply N.ltb_lt in Hc. rewrite Hc.
      unfold len. cbn [length]. lia. }
  rewrite Hgen. lia.
Qed.

(** X20.  In the third draft a file listed as text whose content looks
    binary is recorded nowhere: [process_text_file] hands the path to
    [process_binary_file], which returns at once because the path has
    just been marked as visited.  No list and no size dictionary
    changes, and no later call records the path either. *)
Theorem binary_looking_text_is_recorded_nowhere
        (net : list str -> str -> Draft3.reply) (path : str)
        (c : Draft3.client) (data : bytes) :
  path ∉ Draft3.visited_paths c ->
  net (Draft3.requests c) path = Draft3.Reply data ->
  Draft3.is_binary_content (Draft3.decode data) = true ->
  let c' := Draft3Inv.requested path c in
  Draft3.process_text_file net path c = Draft3.Returned c'
  /\ Draft3.process_binary_file net path c' = Draft3.Returned c'
  /\ Draft3.process_text_file net path c' = Draft3.Returned c'
  /\ Draft3Inv.listed c' = Draft3Inv.listed c
  /\ Draft3.text_file_sizes c' = Draft3.text_file_sizes c
  /\ Draft3.binary_file_sizes c' = Draft3.binary_file_sizes c.
Proof.
  intros Hfresh Hreply Hlooks c'.
  assert (Hvisited : path ∈ Draft3.visited_paths c').
  { apply elem_of_union_l, elem_of_singleton. reflexivity. }
  assert (Hbin : Draft3.process_binary_file net path c' = Draft3.Returned c')
    by (apply process_binary_file_visited; exact Hvisited).
  split; [|split; [exact Hbin|split; [|repeat split]]].
  - unfold Draft3.process_text_file, Draft3.send_request.
    rewrite (proj2 (mem_false _ _) Hfresh).
    change (Draft3.requests (Draft3.with_visited_paths _ c)) with (Draft3.requests c).
    rewrite Hreply.
    destruct (Draft3.decode data) as [|ch rest]; [discriminate|].
    rewrite Hlooks. exact Hbin.
  - unfold Draft3.process_text_file.
    rewrite (proj2 (mem_true _ _) Hvisited). reflexivity.
Qed.

Lemma binary_looking_text_is_recorded_nowhere_witness :
  let net := Scenarios.draft3_net Scenarios.disguised_server in
  let c' := Draft3Inv.requested (u "/logo") Draft3.new_client in
  Draft3.process_text_file net (u "/logo") Draft3.new_client = Draft3.Returned c'
  /\ Draft3.process_binary_file net (u "/logo") c' = Draft3.Returned c'
  /\ Draft3.process_text_file net (u "/logo") c' = Draft3.Returned c'
  /\ Draft3Inv.listed c' = Draft3Inv.listed Draft3.new_client
  /\ Draft3.text_file_sizes c' = Draft3.text_file_sizes Draft3.new_client
  /\ Draft3.binary_file_sizes c' = Draft3.binary_file_sizes Draft3.new_client.
Proof.
  apply (binary_looking_text_is_recorded_nowhere
           (Scenarios.draft3_net Scenarios.disguised_server) (u "/logo")
           Draft3.new_client Classifier.JPEG).
  - apply not_elem_of_empty.
  - vm_compute. reflexivity.
  - vm_compute. reflexivity.
Defined.

(** X21.  In the third draft a text file of plain bytes (printable
    ASCII, CR, LF, TAB) that has not been visited is recorded as a text
    file, with the number of bytes of the response as its size and the
    response, read as latin-1, as its content. *)
Theorem plain_text_file_is_recorded
        (net : list str -> str -> Draft3.reply) (path : str)
        (c : Draft3.client) (data : bytes) :
  path ∉ Draft3.visited_paths c ->
  net (Draft3.requests c) path = Draft3.Reply data ->
  data <> [] ->
  Forall Draft3Inv.plain data ->
  Draft3.process_text_file net path c
  = Draft3.Returned
      (Draft3.with_downloaded_text (insert path (decode_latin1 data))
         (Draft3.with_text_file_sizes (insert path (len data))
            (Draft3.with_text_files (fun l => l ++ [path])
               (Draft3Inv.requested path c)))).
Proof.
  intros Hfresh Hreply Hne Hplain.
  unfold Draft3.process_text_file, Draft3.send_request.
  rewrite (proj2 (mem_false _ _) Hfresh).
  change (Draft3.requests (Draft3.with_visited_paths _ c)) with (Draft3.requests c).
  rewrite Hreply. unfold Draft3.decode.
  rewrite (decode_utf8_strict_ascii data (plain_is_ascii data Hplain)).
  pose proof (plain_is_not_binary_content data Hplain) as Hlooks.
  assert (Hsize : Draft1.encoded_length (decode_latin1 data) = len data).
  { rewrite encoded_length_ascii.
    - unfold decode_latin1, len. rewrite length_map. reflexivity.
    - unfold decode_latin1. apply Forall_map.
      exact (plain_is_ascii data Hplain). }
  destruct (decode_latin1 data) as [|ch rest] eqn:Hdecoded.
  { destruct data; [congruence | discriminate]. }
  rewrite Hlooks, Hsize. reflexivity.
Qed.

Lemma plain_text_file_is_recorded_witness :
  Draft3.process_text_file (Scenarios.draft3_net Scenarios.text_only_server)
                           (u "/readme") Draft3.new_client
  = Draft3.Returned
      (Draft3.with_downloaded_text (insert (u "/readme") (decode_latin1 (b "hi")))
         (Draft3.with_text_file_sizes (insert (u "/readme") (len (b "hi")))
            (Draft3.with_text_files (fun l => l ++ [u "/readme"])
               (Draft3Inv.requested (u "/readme") Draft3.new_client)))).
Proof.
  apply (plain_text_file_is_recorded
           (Scenarios.draft3_net Scenarios.text_only_server) (u "/readme")
           Draft3.new_client (b "hi")).
  - apply not_elem_of_empty.
  - vm_compute. reflexivity.
  - discriminate.
  - change (b "hi") with [x68; x69].
    repeat (apply Forall_cons; split; [left; vm_compute; split; discriminate|]).
    apply Forall_nil_2.
Defined.

Lemma new_client_sound (net : list str -> str -> Draft3.reply) :
  Draft3Inv.sound net Draft3.new_client.
Proof.
  split.
  - unfold Draft3Inv.consistent, Draft3Inv.listed, Draft3.new_client. cbn.
    split; [apply NoDup_nil_2|]. split; [apply NoDup_nil_2|].
    split; [tauto|].
    split; [intros p; rewrite elem_of_nil, elem_of_empty; tauto|].
    split; [apply not_elem_of_nil|].
    split; [intros p; rewrite lookup_empty, elem_of_nil, is_Some_alt; tauto|].
    split; [intros p; rewrite lookup_empty, elem_of_nil, is_Some_alt; tauto|].
    split; [intros p H; apply elem_of_nil in H; destruct H|].
    intros k. rewrite lookup_empty, elem_of_empty, is_Some_alt. tauto.
  - intros later path older H. cbn in H. destruct later; discriminate.
Qed.

(** X22.  Whenever a crawl of the third draft returns, its records are
    consistent: no path is listed twice in or across the directories,
    the text files and the binary files; every listed path was
    requested, and each path was requested once; the root is not among
    the directories; the size dictionaries have the listed files as
    their keys; every text file has its content stored, not empty, not
    binary-looking, and of the recorded size; and every server that
    was checked has a status. *)
Theorem third_draft_records_are_consistent
        (py_int : str -> option Z) (net : list str -> str -> Draft3.reply)
        (connect : str -> Z -> bool) (host : str) (port : Z)
        (fuel : nat) (c : Draft3.client) :
  Draft3.process_directory py_int net connect host port fuel [] Draft3.new_client
  = Draft3.Returned c ->
  Draft3Inv.consistent c.
Proof.
  intros Hrun.
  pose proof (process_directory_ended_well py_int net connect host port fuel
                [] Draft3.new_client (new_client_sound net)) as H.
  rewrite Hrun in H. exact (proj1 H).
Qed.

Lemma third_draft_records_are_consistent_witness :
  exists c,
    Scenarios.draft3_crawl Scenarios.text_only_server 5 = Draft3.Returned c
    /\ Draft3Inv.consistent c.
Proof.
  eexists. split; [vm_compute; reflexivity|].
  apply (third_draft_records_are_consistent
           Parser.ascii_int (Scenarios.draft3_net Scenarios.text_only_server)
           (fun _ _ => false) (u "example.org") 70 5).
  vm_compute. reflexivity.
Defined.

(** X23.  How a crawl of the third draft can fail, directories that
    nest deeper than the fuel aside.  It never raises KeyError; it
    raises UnboundLocalError only if some request did not reach the
    server; and if it returns, every request reached the server. *)
Theorem third_draft_fails_only_when_unreachable
        (py_int : str -> option Z) (net : list str -> str -> Draft3.reply)
        (connect : str -> Z -> bool) (host : str) (port : Z)
        (fuel : nat) (path : str) :
  let o := Draft3.process_directory py_int net connect host port fuel path
                                    Draft3.new_client in
  o <> Draft3.Raised Draft3.KeyError
  /\ (o = Draft3.Raised Draft3.UnboundLocalError ->
      exists older sent, net older sent = Draft3.Unreachable)
  /\ (forall c, o = Draft3.Returned c -> Draft3Inv.all_reached net c).
Proof.
  intros o.
  pose proof (process_directory_ended_well py_int net connect host port fuel
                path Draft3.new_client (new_client_sound net)) as H.
  fold o in H. split; [|split].
  - intros Ho. rewrite Ho in H. exact H.
  - intros Ho. rewrite Ho in H. exact H.
  - intros c Ho. rewrite Ho in H. exact (proj2 H).
Qed.


(** ** Short lines in the third draft *)

(** X24.  [parse_gopher_line] of gopher_client_03.py keeps a line with
    fewer than four fields: the missing fields are empty and the port is
    70, whatever [int] would say.  The parsers of gopher_client_05.py
    and gopher_client_08.py drop the same line. *)
Theorem short_line_is_padded
        (py_int : str -> option Z) (item_type : codepoint) (rest : str) :
  (item_type =? 46) = false ->
  (length (split_tab rest) < 4)%nat ->
  let parts := split_tab rest in
  Parser.parse_gopher_line py_int (item_type :: rest)
  = Some (Parser.Item item_type (nth 0 parts []) (nth 1 parts [])
                      (nth 2 parts []) Parser.DEFAULT_PORT)
  /\ Draft5.parse_line py_int (item_type :: rest) = None
  /\ Parser.parse_line py_int (item_type :: rest) = None.
Proof.
  intros Hdot Hshort parts.
  assert (Hline : item_type :: rest <> u ".").
  { intros [= -> _]. discriminate. }
  unfold Parser.parse_gopher_line, Draft5.parse_line, Parser.parse_line.
  rewrite Hdot. repeat case_bool_decide; try contradiction.
  fold parts. fold parts in Hshort.
  destruct parts as [|f0 [|f1 [|f2 [|f3 more]]]]; cbn [length] in Hshort;
    try lia; (split; [reflexivity|]); split; try reflexivity;
    destruct (length (item_type :: rest) <? 2)%nat; reflexivity.
Qed.

Lemma short_line_is_padded_witness :
  Parser.parse_gopher_line Parser.ascii_int (49 :: Scenarios.two_fields)
  = Some (Parser.Item 49 (u "About") (u "/about") [] Parser.DEFAULT_PORT)
  /\ Draft5.parse_line Parser.ascii_int (49 :: Scenarios.two_fields) = None
  /\ Parser.parse_line Parser.ascii_int (49 :: Scenarios.two_fields) = None.
Proof.
  apply (short_line_is_padded Parser.ascii_int 49 Scenarios.two_fields).
  - reflexivity.
  - vm_compute. lia.
Defined.


(** ** The loop of the fifth draft *)

Section Draft5Facts.
Import Draft5.
Variable py_int : str -> option Z.
Variable request : list (str * bool) -> str -> Z -> str -> option bytes.

Lemma draft5_process_item_frame (h : str) (p : Z) (st : state) (it : Parser.item) :
  let st' := process_item h p st it in
  visited_selectors st' = visited_selectors st
  /\ directories st' = directories st
  /\ sent st' = sent st.
Proof. unfold process_item. repeat case_match; repeat split; reflexivity. Qed.

Lemma draft5_process_items_inv (h : str) (p : Z) (items : list Parser.item)
      (st : state) :
  log_consistent st -> log_consistent (fold_left (process_item h p) items st).
Proof.
  apply fold_left_invariant. intros a x (H1 & H2 & H3).
  destruct (draft5_process_item_frame h p a x) as (Hv & Hd & Hs).
  cbv zeta in Hv, Hd, Hs. unfold log_consistent. rewrite Hv, Hd, Hs. tauto.
Qed.

Lemma answered_menus_cons (sel : str) (ok : bool) (log : list (str * bool)) :
  answered_menus ((sel, ok) :: log)
  = if ok && is_menu_selector sel then answered_menus log ++ [sel]
    else answered_menus log.
Proof.
  unfold answered_menus.
  destruct (ok && is_menu_selector sel) eqn:H.
  - rewrite filter_cons_True by (cbn [fst snd]; rewrite H; exact I).
    reflexivity.
  - rewrite filter_cons_False by (cbn [fst snd]; rewrite H; exact id).
    reflexivity.
Qed.

Lemma draft5_step_inv (st : state) :
  log_consistent st -> log_consistent (step py_int request st).
Proof.
  intros (Hnodup & Hvisited & Hdirs). unfold step.
  destruct (selectors_to_visit st) as [|[[sel h] p] rest];
    [split; [|split]; assumption|].
  destruct (Crawl.mem sel (visited_selectors st)) eqn:Hmem;
    [split; [|split]; assumption|].
  apply mem_false in Hmem.
  assert (Hnew : forall ok, NoDup (map fst ((sel, ok) :: sent st))).
  { intros ok. cbn [map fst]. apply NoDup_cons. split; [|exact Hnodup].
    intros Hin. apply Hmem, Hvisited, Hin. }
  assert (Hvis : forall ok s, s ∈ map fst ((sel, ok) :: sent st)
                              <-> s ∈ {[sel]} ∪ visited_selectors st).
  { intros ok s. cbn [map fst].
    rewrite elem_of_cons, elem_of_union, elem_of_singleton, Hvisited.
    reflexivity. }
  destruct (request (sent st) h p sel) as [response|].
  - destruct (is_menu_selector sel) eqn:Hshape.
    + apply draft5_process_items_inv. split; [exact (Hnew true)|].
      split; [exact (Hvis true)|]. cbn [directories sent].
      rewrite answered_menus_cons, Hshape, Hdirs. reflexivity.
    + destruct (decode_utf8_strict response);
        (split; [exact (Hnew true)|]; split; [exact (Hvis true)|]);
        cbn [directories sent]; rewrite answered_menus_cons, Hshape;
        exact Hdirs.
  - split; [exact (Hnew false)|]. split; [exact (Hvis false)|].
    cbn [directories sent]. rewrite answered_menus_cons. exact Hdirs.
Qed.

Lemma draft5_iterate_inv (n : nat) :
  forall st, log_consistent st -> log_consistent (iterate py_int request n st).
Proof.
  induction n as [|n IH]; intros st Hst; [exact Hst|].
  cbn [iterate]. destruct (selectors_to_visit st) eqn:Hq; [exact Hst|].
  apply IH, draft5_step_inv, Hst.
Qed.
End Draft5Facts.

Lemma NoDup_answered_menus (log : list (str * bool)) :
  NoDup (map fst log) -> NoDup (Draft5.answered_menus log).
Proof.
  intros Hlog. unfold Draft5.answered_menus.
  apply NoDup_ListNoDup, NoDup_rev, NoDup_ListNoDup.
  induction log as [|[sel ok] log IH]; [apply NoDup_nil_2|].
  cbn [map fst] in Hlog. apply NoDup_cons in Hlog as [Hnew Hlog].
  destruct (ok && Draft5.is_menu_selector sel) eqn:H.
  - rewrite filter_cons_True by (cbn [fst snd]; rewrite H; exact I).
    cbn [map fst]. apply NoDup_cons. split; [|exact (IH Hlog)].
    intros Hin. apply Hnew.
    apply list_elem_of_fmap in Hin as (e & -> & He).
    apply list_elem_of_filter in He as [_ He].
    apply list_elem_of_fmap. exists e. split; [reflexivity|exact He].
  - rewrite filter_cons_False by (cbn [fst snd]; rewrite H; exact id).
    exact (IH Hlog).
Qed.

(** X25.  The loop of gopher_client_05.py, after any number of
    iterations: every selector was requested at most once; the
    directories are the selectors, empty or ending in a slash, whose
    request came back, in the order of the requests; so no directory is
    listed twice. *)
Theorem draft5_directories_are_the_answered_menus
        (py_int : str -> option Z)
        (request : list (str * bool) -> str -> Z -> str -> option bytes)
        (host : str) (port : Z) (n : nat) :
  let st := Draft5.iterate py_int request n (Draft5.initial host port) in
  NoDup (map fst (Draft5.sent st))
  /\ Draft5.directories st = Draft5.answered_menus (Draft5.sent st)
  /\ NoDup (Draft5.directories st).
Proof.
  intros st.
  assert (Hinv : Draft5.log_consistent st).
  { apply draft5_iterate_inv. split; [apply NoDup_nil_2|].
    split; [|reflexivity].
    intros sel. cbn. rewrite elem_of_nil, elem_of_empty. tauto. }
  destruct Hinv as (Hnodup & _ & Hdirs).
  split; [exact Hnodup|]. split; [exact Hdirs|].
  rewrite Hdirs. apply NoDup_answered_menus, Hnodup.
Qed.
